(** * Walkie-talkie signalling server: the room registry and the socket
      event handlers of [server.js], embedded as pure state-passing functions.

    The server keeps one registry [rooms] (a JavaScript [Map] from room
    name to room record, each room holding a [Map] from connection id to
    participant record) and relies on socket.io for the transport: every
    socket starts in the socket.io room named by its own id, [socket.join] /
    [socket.leave] change the set [socket.rooms], [socket.to(r).emit]
    reaches the sockets of socket.io room [r] except those of the room
    named by the sender's id, and [io.to(r).emit] reaches all of them.

    A JavaScript [Map] iterates in insertion order, so both maps are
    association lists here.  Payload fields hold primitive values;
    [console.log] calls, which only format such values, are left out, and
    the clock ([new Date()]) is an input of each event: one reading per
    event. *)

From Stdlib Require Import List String ZArith Bool Lia Arith.
Import ListNotations.
Open Scope string_scope.
Open Scope list_scope.

Set Implicit Arguments.

(** ** Values carried by event payloads *)

(** The primitive JavaScript values a payload field can hold.  Room names
    and user names arrive as such values: the handlers never check that they
    are strings. *)
Inductive value : Type :=
| VUndefined
| VNull
| VBool (b : bool)
| VNum (n : Z)
| VStr (s : string).

(** The argument a client sends with an event: a primitive (nothing at all
    is [undefined]) or an object given by its own properties. *)
Inductive payload : Type :=
| PVal (v : value)
| PObj (fields : list (string * value)).

Class EqDec (K : Type) := eq_dec : forall a b : K, {a = b} + {a <> b}.

#[global] Instance string_EqDec : EqDec string := string_dec.

#[global] Instance value_EqDec : EqDec value.
Proof.
  intros a b. unfold EqDec in *.
  decide equality; [apply Bool.bool_dec | apply Z.eq_dec | apply string_dec].
Defined.

(** JavaScript truthiness, as used by [if (socket.currentRoom)]. *)
Definition truthy (v : value) : bool :=
  match v with
  | VUndefined | VNull => false
  | VBool b => b
  | VNum n => negb (Z.eqb n 0)
  | VStr s => negb (String.eqb s "")
  end.

(** ** JavaScript [Map] as an insertion-ordered association list *)

Section JsMap.
Context {K V : Type} `{EqDec K}.

Definition jsmap := list (K * V).

Fixpoint map_get (m : jsmap) (k : K) : option V :=
  match m with
  | [] => None
  | (k', v) :: m' => if eq_dec k' k then Some v else map_get m' k
  end.

Definition map_has (m : jsmap) (k : K) : bool :=
  match map_get m k with Some _ => true | None => false end.

(** [Map.prototype.set]: an existing key keeps its place, a new key goes
    to the end. *)
Fixpoint map_set (m : jsmap) (k : K) (v : V) : jsmap :=
  match m with
  | [] => [(k, v)]
  | (k', v') :: m' =>
      if eq_dec k' k then (k, v) :: m' else (k', v') :: map_set m' k v
  end.

(** [Map.prototype.delete]: the binding of [k], if any, goes away. *)
Fixpoint map_delete (m : jsmap) (k : K) : jsmap :=
  match m with
  | [] => []
  | (k', v') :: m' =>
      if eq_dec k' k then map_delete m' k else (k', v') :: map_delete m' k
  end.

Definition map_keys (m : jsmap) : list K := map fst m.
Definition map_values (m : jsmap) : list V := map snd m.
Definition map_size (m : jsmap) : nat := List.length m.
End JsMap.

Arguments jsmap : clear implicits.

(** ** JavaScript [Set] ([socket.rooms]) as an insertion-ordered list *)

Section JsSet.
Context {K : Type} `{EqDec K}.

Fixpoint set_has (s : list K) (k : K) : bool :=
  match s with
  | [] => false
  | k' :: s' => if eq_dec k' k then true else set_has s' k
  end.

Definition set_add (s : list K) (k : K) : list K :=
  if set_has s k then s else s ++ [k].

Fixpoint set_delete (s : list K) (k : K) : list K :=
  match s with
  | [] => []
  | k' :: s' => if eq_dec k' k then set_delete s' k else k' :: set_delete s' k
  end.
End JsSet.

(** ** Data model *)

(** The object stored per participant by the join handler. *)
Record participant : Type := mkParticipant {
  id : string;
  name : value;
  isTalking : bool;
  joinedAt : Z
}.

(** The object stored per room in [rooms]. *)
Record room : Type := mkRoom {
  room_name : value;
  participants : jsmap string participant;
  createdAt : Z
}.

(** The per-connection fields: socket.io's [socket.rooms] and the two
    fields the join handler bolts onto the socket. *)
Record socket : Type := mkSocket {
  socket_rooms : list value;
  userName : value;
  currentRoom : value
}.

(** The whole server: the registry, the open sockets by id, and the ids
    socket.io has handed out so far (it never hands out one twice). *)
Record state : Type := mkState {
  rooms : jsmap value room;
  sockets : jsmap string socket;
  issued : list string
}.

Definition init_state : state := mkState [] [] [].

Definition with_participants (r : room) (ps : jsmap string participant) : room :=
  mkRoom (room_name r) ps (createdAt r).

Definition with_rooms (st : state) (rs : jsmap value room) : state :=
  mkState rs (sockets st) (issued st).

Definition with_sockets (st : state) (ss : jsmap string socket) : state :=
  mkState (rooms st) ss (issued st).

(** ** Outbound messages *)

Inductive message : Type :=
| UserJoined (ps : list participant)
| UserLeft (ps : list participant)
| UserTalking (userId : string) (uname : value) (talking : bool)
| Offer (offer : value) (from : string) (rm : value)
| Answer (answer : value) (from : string) (rm : value)
| IceCandidate (candidate : value) (from : string) (rm : value).

(** One [emit] call: the connections it reaches and what it carries. *)
Record emission : Type := mkEmission {
  recipients : list string;
  msg : message
}.

(** ** socket.io operations *)

(** The open sockets that are in socket.io room [r], in connection order. *)
Definition room_members (st : state) (r : value) : list string :=
  map_keys (filter (fun e => set_has (socket_rooms (snd e)) r) (sockets st)).

Definition string_neqb (a b : string) : bool :=
  if string_dec a b then false else true.

(** [io.to(r)] *)
Definition io_to (st : state) (r : value) : list string := room_members st r.

(** [socket.to(r)]: socket.io broadcasts to the members of [r] except the
    sockets of the socket.io room named by the sender's id (the operator's
    except-rooms are [{socket.id}]).  That leaves out the sender as long as
    it sits in its own room, and with it any other socket that has joined
    the room of that name. *)
Definition socket_to (st : state) (sid : string) (r : value) : list string :=
  filter (fun q => negb (set_has (room_members st (VStr sid)) q))
         (room_members st r).

Definition update_socket (st : state) (sid : string) (f : socket -> socket) : state :=
  match map_get (sockets st) sid with
  | Some s => with_sockets st (map_set (sockets st) sid (f s))
  | None => st
  end.

(** [socket.join(r)] *)
Definition socket_join (st : state) (sid : string) (r : value) : state :=
  update_socket st sid
    (fun s => mkSocket (set_add (socket_rooms s) r) (userName s) (currentRoom s)).

(** [socket.leave(r)]; on a socket that is already closed it does nothing. *)
Definition socket_leave (st : state) (sid : string) (r : value) : state :=
  update_socket st sid
    (fun s => mkSocket (set_delete (socket_rooms s) r) (userName s) (currentRoom s)).

(** ** Destructuring of the handler argument *)

(** Reading a property off the argument: an absent property, or any
    property of a primitive, is [undefined]. *)
Definition get_field (fields : list (string * value)) (f : string) : value :=
  match map_get fields f with
  | Some v => v
  | None => VUndefined
  end.

(** The parameter pattern [({ room, ... }) =>] throws a TypeError on
    [undefined] and [null] and otherwise yields the property reader. *)
Definition destructure (p : payload) : option (string -> value) :=
  match p with
  | PVal VUndefined | PVal VNull => None
  | PVal _ => Some (fun _ => VUndefined)
  | PObj fields => Some (get_field fields)
  end.

(** What running a handler gives: it returns, with the new state and the
    emissions in the order made, or it throws before touching anything. *)
Inductive outcome : Type :=
| Returned (st : state) (out : list emission)
| Threw_TypeError.

(** ** The HTTP room-introspection endpoint *)

(** What [res.json] sends: the status it leaves at 200 and the two fields
    of the body. *)
Record response : Type := mkResponse {
  status : nat;
  body_participants : list participant;
  participantCount : nat
}.

(** [app.get('/api/rooms/:roomId', ...)]; a route parameter is a string. *)
Definition api_rooms (st : state) (roomId : string) : state * response :=
  match map_get (rooms st) (VStr roomId) with
  | Some r =>
      (st, mkResponse 200 (map_values (participants r)) (map_size (participants r)))
  | None => (st, mkResponse 200 [] 0)
  end.

(** ** The socket event handlers *)

(** The callback of [socket.rooms.forEach] in the join handler, run on one
    room name: skip the socket's own room, otherwise leave the socket.io
    room and take the socket out of the registry room of that name. *)
Definition leave_existing (sid : string) (acc : state * list emission)
    (roomName : value) : state * list emission :=
  let (st, out) := acc in
  if eq_dec roomName (VStr sid) then (st, out)
  else
    let st1 := socket_leave st sid roomName in
    match map_get (rooms st1) roomName with
    | Some existingRoom =>
        let ps := map_delete (participants existingRoom) sid in
        if Nat.eqb (map_size ps) 0
        then (with_rooms st1 (map_delete (rooms st1) roomName), out)
        else (with_rooms st1
                (map_set (rooms st1) roomName (with_participants existingRoom ps)),
              out ++ [mkEmission (socket_to st1 sid roomName)
                                 (UserLeft (map_values ps))])
    | None => (st1, out)
    end.

(** The room record the join handler works on: the one in the registry,
    or the fresh one it has just stored under [rm]. *)
Definition room_or_new (now : Z) (rs : jsmap value room) (rm : value) : room :=
  match map_get rs rm with
  | Some r => r
  | None => mkRoom rm [] now
  end.

(** The second half of the join handler, from [socket.join(room)] on:
    join the socket.io room, create the registry room if need be, store the
    participant record, note name and room on the socket, and tell the
    whole socket.io room. *)
Definition join_new (now : Z) (st1 : state) (sid : string) (rm uname : value)
    : state * emission :=
  let st2 := socket_join st1 sid rm in
  let roomData := room_or_new now (rooms st2) rm in
  let ps := map_set (participants roomData) sid
              (mkParticipant sid uname false now) in
  let st3 := with_rooms st2
               (map_set (rooms st2) rm (with_participants roomData ps)) in
  let st4 := update_socket st3 sid
               (fun s' => mkSocket (socket_rooms s') uname rm) in
  (st4, mkEmission (io_to st4 rm) (UserJoined (map_values ps))).

(** The body of the [join-room] handler for socket [sid], whose record is
    [s], once [room] and [userName] have been read off the argument: first
    the loop over [socket.rooms], then the join proper. *)
Definition join_room (now : Z) (st : state) (sid : string) (s : socket)
    (rm uname : value) : state * list emission :=
  let (st1, out1) := fold_left (leave_existing sid) (socket_rooms s) (st, []) in
  let (st4, joined) := join_new now st1 sid rm uname in
  (st4, out1 ++ [joined]).

(** The common body of the [start-talking] and [stop-talking] handlers;
    the two differ in the constant [b] only. *)
Definition set_talking (b : bool) (st : state) (sid : string) (s : socket)
    (rm : value) : state * list emission :=
  match map_get (rooms st) rm with
  | Some roomData =>
      match map_get (participants roomData) sid with
      | Some user =>
          let user' := mkParticipant (id user) (name user) b (joinedAt user) in
          let ps := map_set (participants roomData) sid user' in
          (with_rooms st (map_set (rooms st) rm (with_participants roomData ps)),
           [mkEmission (socket_to st sid rm) (UserTalking sid (userName s) b)])
      | None => (st, [])
      end
  | None => (st, [])
  end.

Definition handleUserLeave (st : state) (sid : string) (rm : value)
    : state * list emission :=
  let (st1, out) :=
    match map_get (rooms st) rm with
    | Some roomData =>
        let ps := map_delete (participants roomData) sid in
        if Nat.eqb (map_size ps) 0
        then (with_rooms st (map_delete (rooms st) rm), [])
        else (with_rooms st
                (map_set (rooms st) rm (with_participants roomData ps)),
              [mkEmission (socket_to st sid rm) (UserLeft (map_values ps))])
    | None => (st, [])
    end in
  (socket_leave st1 sid rm, out).

Definition returned (r : state * list emission) : outcome :=
  Returned (fst r) (snd r).

Definition on_join_room (now : Z) (st : state) (sid : string) (s : socket)
    (p : payload) : outcome :=
  match destructure p with
  | None => Threw_TypeError
  | Some f => returned (join_room now st sid s (f "room") (f "userName"))
  end.

Definition on_start_talking (st : state) (sid : string) (s : socket)
    (p : payload) : outcome :=
  match destructure p with
  | None => Threw_TypeError
  | Some f => returned (set_talking true st sid s (f "room"))
  end.

Definition on_stop_talking (st : state) (sid : string) (s : socket)
    (p : payload) : outcome :=
  match destructure p with
  | None => Threw_TypeError
  | Some f => returned (set_talking false st sid s (f "room"))
  end.

Definition on_offer (st : state) (sid : string) (p : payload) : outcome :=
  match destructure p with
  | None => Threw_TypeError
  | Some f =>
      Returned st [mkEmission (socket_to st sid (f "to"))
                              (Offer (f "offer") sid (f "room"))]
  end.

Definition on_answer (st : state) (sid : string) (p : payload) : outcome :=
  match destructure p with
  | None => Threw_TypeError
  | Some f =>
      Returned st [mkEmission (socket_to st sid (f "to"))
                              (Answer (f "answer") sid (f "room"))]
  end.

Definition on_ice_candidate (st : state) (sid : string) (p : payload) : outcome :=
  match destructure p with
  | None => Threw_TypeError
  | Some f =>
      Returned st [mkEmission (socket_to st sid (f "to"))
                              (IceCandidate (f "candidate") sid (f "room"))]
  end.

Definition on_leave_room (st : state) (sid : string) (p : payload) : outcome :=
  match destructure p with
  | None => Threw_TypeError
  | Some f => returned (handleUserLeave st sid (f "room"))
  end.

(** The [disconnect] handler.  By the time socket.io fires it the socket
    has left all its socket.io rooms and is gone from the namespace. *)
Definition on_disconnect (st : state) (sid : string) (s : socket) : outcome :=
  let st0 := with_sockets st (map_delete (sockets st) sid) in
  if truthy (currentRoom s)
  then returned (handleUserLeave st0 sid (currentRoom s))
  else Returned st0 [].

(** A new connection: socket.io gives it an id it has not used before and
    puts it in the room of that name; [userName] and [currentRoom] are not
    set yet. *)
Definition on_connection (st : state) (sid : string) : state :=
  if in_dec string_dec sid (issued st) then st
  else mkState (rooms st)
         (map_set (sockets st) sid (mkSocket [VStr sid] VUndefined VUndefined))
         (sid :: issued st).

(** The [setInterval] callback: collect the names of the rooms without
    participants, then delete each. *)
Definition sweep (st : state) : state :=
  let emptyRooms :=
    map_keys (filter (fun e => Nat.eqb (map_size (participants (snd e))) 0)
                     (rooms st)) in
  with_rooms st (fold_left (fun rs roomName => map_delete rs roomName)
                           emptyRooms (rooms st)).

(** ** Events and runs *)

Inductive event : Type :=
| Connection (sid : string)
| JoinRoom (sid : string) (p : payload)
| StartTalking (sid : string) (p : payload)
| StopTalking (sid : string) (p : payload)
| OfferEv (sid : string) (p : payload)
| AnswerEv (sid : string) (p : payload)
| IceCandidateEv (sid : string) (p : payload)
| LeaveRoom (sid : string) (p : payload)
| Disconnect (sid : string)
| SweepTick.

(** A socket event reaches its handler only while the socket is open. *)
Definition on_socket (st : state) (sid : string) (h : socket -> outcome) : outcome :=
  match map_get (sockets st) sid with
  | Some s => h s
  | None => Returned st []
  end.

(** One event, handled at clock reading [now]. *)
Definition step (now : Z) (st : state) (e : event) : outcome :=
  match e with
  | Connection sid => Returned (on_connection st sid) []
  | JoinRoom sid p => on_socket st sid (fun s => on_join_room now st sid s p)
  | StartTalking sid p => on_socket st sid (fun s => on_start_talking st sid s p)
  | StopTalking sid p => on_socket st sid (fun s => on_stop_talking st sid s p)
  | OfferEv sid p => on_socket st sid (fun _ => on_offer st sid p)
  | AnswerEv sid p => on_socket st sid (fun _ => on_answer st sid p)
  | IceCandidateEv sid p => on_socket st sid (fun _ => on_ice_candidate st sid p)
  | LeaveRoom sid p => on_socket st sid (fun _ => on_leave_room st sid p)
  | Disconnect sid => on_socket st sid (fun s => on_disconnect st sid s)
  | SweepTick => Returned (sweep st) []
  end.

(** A run of timestamped events in which every handler returns; nothing
    in server.js catches a handler's exception, so a throw ends the run. *)
Fixpoint run (st : state) (tr : list (Z * event)) : option state :=
  match tr with
  | [] => Some st
  | (now, e) :: tr' =>
      match step now st e with
      | Returned st' _ => run st' tr'
      | Threw_TypeError => None
      end
  end.

(** The emissions of every event of a run, in order. *)
Fixpoint run_out (st : state) (tr : list (Z * event)) : list emission :=
  match tr with
  | [] => []
  | (now, e) :: tr' =>
      match step now st e with
      | Returned st' out => out ++ run_out st' tr'
      | Threw_TypeError => []
      end
  end.

(** The start-talking ([b = true]) or stop-talking ([b = false]) event. *)
Definition talking_event (b : bool) (sid : string) (p : payload) : event :=
  if b then StartTalking sid p else StopTalking sid p.



(** ** Observations on the registry *)

(** The connection ids of the participants of room [rm], in the order of
    the room's map; empty when the registry has no such room. *)
Definition members (st : state) (rm : value) : list string :=
  match map_get (rooms st) rm with
  | Some r => map_keys (participants r)
  | None => []
  end.

Definition is_participant (st : state) (sid : string) (rm : value) : bool :=
  match map_get (rooms st) rm with
  | Some r => map_has (participants r) sid
  | None => false
  end.

(** The names of the registry rooms that list [sid] as a participant. *)
Definition rooms_of (st : state) (sid : string) : list value :=
  map_keys (filter (fun e => map_has (participants (snd e)) sid) (rooms st)).

(** The arguments well-behaved clients send. *)
Definition obj (room_ uname : value) : payload :=
  PObj [("room", room_); ("userName", uname)].

Definition room_only (room_ : value) : payload := PObj [("room", room_)].

Definition offer_to (offer to_ room_ : value) : payload :=
  PObj [("offer", offer); ("to", to_); ("room", room_)].

Definition example_trace : list (Z * event) :=
  [ (1%Z, Connection "a"); (2%Z, Connection "b");
    (3%Z, JoinRoom "a" (obj (VStr "R1") (VStr "Alice")));
    (4%Z, JoinRoom "b" (obj (VStr "R1") (VStr "Bob"))) ].

(** Whether socket [sid] is open. *)
Definition connected (st : state) (sid : string) : bool :=
  map_has (sockets st) sid.

(** Socket [sid] is open and has not left the socket.io room named by its
    own id. *)
Definition in_own_room (st : state) (sid : string) : Prop :=
  exists s, map_get (sockets st) sid = Some s /\ In (VStr sid) (socket_rooms s).

(** No other socket sits in the socket.io room named by the id [sid]. *)
Definition own_room_private (st : state) (sid : string) : Prop :=
  forall q, In q (room_members st (VStr sid)) -> q = sid.

Definition is_user_left (e : emission) : Prop :=
  exists ps, msg e = UserLeft ps.

(** ** Invariants of the server state *)

(** No room of the registry is without participants. *)
Definition rooms_nonempty (st : state) : Prop :=
  forall rm r, map_get (rooms st) rm = Some r -> participants r <> [].

(** An open socket listed as a participant of a registry room is in the
    socket.io room of the same name. *)
Definition in_sync (st : state) : Prop :=
  forall sid s rm r,
    map_get (sockets st) sid = Some s ->
    map_get (rooms st) rm = Some r ->
    In sid (map_keys (participants r)) ->
    In rm (socket_rooms s).

(** Open sockets and participants carry ids socket.io has handed out. *)
Definition ids_issued (st : state) : Prop :=
  (forall sid s, map_get (sockets st) sid = Some s -> In sid (issued st)) /\
  (forall rm r sid,
      map_get (rooms st) rm = Some r ->
      In sid (map_keys (participants r)) -> In sid (issued st)).

(** What the registry holds under a room name once [sid] has been taken
    out of that room: the room without [sid], or nothing when [sid] was its
    last participant. *)
Definition room_without (sid : string) (o : option room) : option room :=
  match o with
  | Some r =>
      let ps := map_delete (participants r) sid in
      if Nat.eqb (map_size ps) 0 then None else Some (with_participants r ps)
  | None => None
  end.

(** The registry after the leave step that [handleUserLeave] and the join
    handler's loop share. *)
Definition rooms_leave (rs : jsmap value room) (sid : string) (rm : value)
    : jsmap value room :=
  match map_get rs rm with
  | Some r =>
      let ps := map_delete (participants r) sid in
      if Nat.eqb (map_size ps) 0 then map_delete rs rm
      else map_set rs rm (with_participants r ps)
  | None => rs
  end.

Definition opt_members (o : option room) : list string :=
  match o with
  | Some r => map_keys (participants r)
  | None => []
  end.

(** Whether the join handler's loop over the room names [l] takes socket
    [sid] out of room [rm]: it does for every name of [l] but the socket's
    own id. *)
Definition left_by_join (sid : string) (l : list value) (rm : value) : bool :=
  if eq_dec rm (VStr sid) then false else set_has l rm.

(** What the loop of the join handler leaves of [socket.rooms]: every
    name but the socket's own id is deleted. *)
Definition rooms_after_loop (sid : string) (l rs : list value) : list value :=
  fold_left (fun rs0 rn => if eq_dec rn (VStr sid) then rs0 else set_delete rs0 rn)
            l rs.

(** The three invariants together. *)
Definition wf (st : state) : Prop :=
  rooms_nonempty st /\ in_sync st /\ ids_issued st.

(** ** Runs that keep room names and connection ids apart *)

Section Apart.
Variable is_id : string -> bool.

(** A value that is not one of the strings used as connection ids. *)
Definition room_like (rm : value) : bool :=
  match rm with
  | VStr x => negb (is_id x)
  | _ => true
  end.

(** An event that respects the separation: connections get ids, and a
    join-room or leave-room names a room that is not an id. *)
Definition apart_event (e : event) : bool :=
  match e with
  | Connection sid => is_id sid
  | JoinRoom _ p | LeaveRoom _ p =>
      match destructure p with
      | Some f => room_like (f "room")
      | None => true
      end
  | _ => true
  end.

Definition apart (tr : list (Z * event)) : bool :=
  forallb (fun te => apart_event (snd te)) tr.

(** The shape of [socket.rooms] in such runs: the socket's own room, and
    at most one more, named like a room. *)
Definition own_and_one (sid : string) (l : list value) : Prop :=
  l = [VStr sid] \/ exists rm, room_like rm = true /\ l = [VStr sid; rm].

(** What such runs maintain on top of [wf]: socket ids are distinct ids;
    a socket is in its own socket.io room and in at most one more, named
    like a room; the room it records as current is named like a room;
    registry rooms are named like rooms; and nobody is a participant of two
    rooms. *)
Definition tidy (st : state) : Prop :=
  NoDup (map_keys (sockets st))
  /\ (forall sid s, map_get (sockets st) sid = Some s ->
        is_id sid = true
        /\ room_like (currentRoom s) = true
        /\ own_and_one sid (socket_rooms s))
  /\ (forall rm r, map_get (rooms st) rm = Some r -> room_like rm = true)
  /\ (forall sid rm rm',
        is_participant st sid rm = true -> is_participant st sid rm' = true ->
        rm = rm').
End Apart.

(** ** Further invariants, kept along every run *)

(** The keys of the registry, of the socket table and of each room's
    participant map are distinct, as the keys of a [Map] are. *)
Definition distinct_keys (st : state) : Prop :=
  NoDup (map_keys (rooms st))
  /\ NoDup (map_keys (sockets st))
  /\ (forall rm r, map_get (rooms st) rm = Some r ->
                   NoDup (map_keys (participants r))).

(** The converse of [in_sync]: an open socket that is in a socket.io room
    other than its own is a participant of the registry room of that name. *)
Definition joined_rooms_registered (st : state) : Prop :=
  forall sid s rm,
    map_get (sockets st) sid = Some s ->
    In rm (socket_rooms s) -> rm <> VStr sid ->
    In sid (members st rm).

(** A participant record sits under the key that is its [id]. *)
Definition records_keyed_by_id (st : state) : Prop :=
  forall rm r k u,
    map_get (rooms st) rm = Some r -> In (k, u) (participants r) -> id u = k.

(** A room record sits under the key that is its name. *)
Definition rooms_named (st : state) : Prop :=
  forall rm r, map_get (rooms st) rm = Some r -> room_name r = rm.

Definition well_kept (st : state) : Prop :=
  distinct_keys st /\ joined_rooms_registered st
  /\ records_keyed_by_id st /\ rooms_named st.

(** In runs that keep room names and connection ids apart, the record of
    an open socket in the registry is in the room, and under the name, that
    the join handler noted on the socket. *)
Definition noted_on_socket (st : state) : Prop :=
  forall sid s rm r u,
    map_get (sockets st) sid = Some s ->
    map_get (rooms st) rm = Some r ->
    map_get (participants r) sid = Some u ->
    currentRoom s = rm /\ name u = userName s.

(** The socket an event comes from; the timer has none. *)
Definition sender (e : event) : option string :=
  match e with
  | Connection sid | JoinRoom sid _ | StartTalking sid _ | StopTalking sid _
  | OfferEv sid _ | AnswerEv sid _ | IceCandidateEv sid _ | LeaveRoom sid _
  | Disconnect sid => Some sid
  | SweepTick => None
  end.

Definition is_user_joined (e : emission) : Prop :=
  exists ps, msg e = UserJoined ps.

(** The participant record of [sid] in room [rm], if any. *)
Definition record_of (st : state) (sid : string) (rm : value) : option participant :=
  match map_get (rooms st) rm with
  | Some r => map_get (participants r) sid
  | None => None
  end.

(** The participant records of room [rm], in the order of the room's map. *)
Definition records (st : state) (rm : value) : list participant :=
  match map_get (rooms st) rm with
  | Some r => map_values (participants r)
  | None => []
  end.

(** ** Sample runs *)

(** In the sample runs the connection ids are the one-letter strings. *)
Definition short_ids (x : string) : bool := Nat.leb (String.length x) 1.


(** The state a run ends in; a run cut short by a throw leaves nothing. *)
Definition final (tr : list (Z * event)) : state :=
  match run init_state tr with
  | Some st => st
  | None => init_state
  end.

(** Alice and Bob in room R1, as in the scenario of the specification. *)
Definition two_in_R1 : state := Eval vm_compute in final example_trace.

(** Alice in room A, Bob and Carol in room B. *)
Definition three_sockets_trace : list (Z * event) :=
  [ (1%Z, Connection "a"); (2%Z, Connection "b"); (3%Z, Connection "c");
    (4%Z, JoinRoom "a" (obj (VStr "A") (VStr "Alice")));
    (5%Z, JoinRoom "b" (obj (VStr "B") (VStr "Bob")));
    (6%Z, JoinRoom "c" (obj (VStr "B") (VStr "Carol"))) ].

Definition a_in_A_bc_in_B : state := Eval vm_compute in final three_sockets_trace.

(** Alice and Bob joined R1, then Alice sent leave-room for R1. *)
Definition leave_trace : list (Z * event) :=
  example_trace ++ [ (5%Z, LeaveRoom "a" (room_only (VStr "R1"))) ].

Definition a_left_R1 : state := Eval vm_compute in final leave_trace.

(** Alice joined the room named by her own connection id. *)
Definition own_room_trace : list (Z * event) :=
  [ (1%Z, Connection "a");
    (2%Z, JoinRoom "a" (obj (VStr "a") (VStr "Alice"))) ].

Definition a_in_own_room : state := Eval vm_compute in final own_room_trace.

(** Carol joined the room named by Bob's connection id. *)
Definition eavesdrop_trace : list (Z * event) :=
  [ (1%Z, Connection "a"); (2%Z, Connection "b"); (3%Z, Connection "c");
    (4%Z, JoinRoom "c" (obj (VStr "b") (VStr "Carol"))) ].

Definition c_in_room_b : state := Eval vm_compute in final eavesdrop_trace.

(** Alice, then Bob, joined the room named by Alice's connection id, and
    Alice started talking. *)
Definition shared_own_room_trace : list (Z * event) :=
  [ (1%Z, Connection "a"); (2%Z, Connection "b");
    (3%Z, JoinRoom "a" (obj (VStr "a") (VStr "Alice")));
    (4%Z, JoinRoom "b" (obj (VStr "a") (VStr "Bob")));
    (5%Z, StartTalking "a" (room_only (VStr "a"))) ].

Definition ab_in_room_a : state := Eval vm_compute in final shared_own_room_trace.

(** Alice joined the room named by the empty string. *)
Definition empty_name_trace : list (Z * event) :=
  [ (1%Z, Connection "a");
    (2%Z, JoinRoom "a" (obj (VStr "") (VStr "Alice"))) ].

Definition a_in_unnamed : state := Eval vm_compute in final empty_name_trace.

(** Then Alice disconnected, and Bob connected. *)
Definition stale_trace : list (Z * event) :=
  empty_name_trace ++ [ (3%Z, Disconnect "a"); (4%Z, Connection "b") ].

Definition a_gone_b_open : state := Eval vm_compute in final stale_trace.

(** Alice, then Bob, joined the room named by Alice's connection id. *)
Definition both_in_room_a_trace : list (Z * event) :=
  [ (1%Z, Connection "a"); (2%Z, Connection "b");
    (3%Z, JoinRoom "a" (obj (VStr "a") (VStr "Alice")));
    (4%Z, JoinRoom "b" (obj (VStr "a") (VStr "Bob"))) ].

Definition both_in_room_a : state := Eval vm_compute in final both_in_room_a_trace.

(** Alice sent leave-room naming her own connection id, which takes her
    out of the socket.io room of that name; then Alice and Bob joined R1. *)
Definition left_own_room_trace : list (Z * event) :=
  [ (1%Z, Connection "a"); (2%Z, Connection "b");
    (3%Z, LeaveRoom "a" (room_only (VStr "a")));
    (4%Z, JoinRoom "a" (obj (VStr "R1") (VStr "Alice")));
    (5%Z, JoinRoom "b" (obj (VStr "R1") (VStr "Bob"))) ].

Definition a_out_of_own_room : state := Eval vm_compute in final left_own_room_trace.

(** A registry with an empty room left behind, which no run produces;
    the state the periodic sweep is meant for. *)
Definition littered : state :=
  mkState
    [ (VStr "X", mkRoom (VStr "X") [] 0);
      (VStr "R1", mkRoom (VStr "R1") [("a", mkParticipant "a" (VStr "Alice") false 3)] 3) ]
    [ ("a", mkSocket [VStr "a"; VStr "R1"] (VStr "Alice") (VStr "R1")) ]
    ["a"].

(** * Properties *)

Unset Implicit Arguments.

(** ** Laws of the map and set operations *)

Section JsMapFacts.
Context {K V : Type} `{EqDec K}.
Implicit Types (m : jsmap K V) (k : K) (v : V).

Lemma map_get_set_eq m k v : map_get (map_set m k v) k = Some v.
Proof.
  induction m as [|[k' v'] m IH]; simpl.
  - destruct (eq_dec k k); congruence.
  - destruct (eq_dec k' k) as [E|E]; simpl.
    + destruct (eq_dec k k); congruence.
    + destruct (eq_dec k' k); congruence.
Qed.

Lemma map_get_set_neq m k k' v :
  k <> k' -> map_get (map_set m k v) k' = map_get m k'.
Proof.
  intros N. induction m as [|[k0 v0] m IH]; simpl.
  - destruct (eq_dec k k'); congruence.
  - destruct (eq_dec k0 k) as [E|E]; simpl.
    + subst k0. destruct (eq_dec k k'); congruence.
    + destruct (eq_dec k0 k'); congruence.
Qed.

Lemma map_get_delete_eq m k : map_get (map_delete m k) k = None.
Proof.
  induction m as [|[k' v'] m IH]; simpl; auto.
  destruct (eq_dec k' k) as [E|E]; simpl; auto.
  destruct (eq_dec k' k); congruence.
Qed.

Lemma map_get_delete_neq m k k' :
  k <> k' -> map_get (map_delete m k) k' = map_get m k'.
Proof.
  intros N. induction m as [|[k0 v0] m IH]; simpl; auto.
  destruct (eq_dec k0 k) as [E|E]; simpl.
  - subst k0. destruct (eq_dec k k'); congruence.
  - destruct (eq_dec k0 k'); congruence.
Qed.

Lemma map_get_delete_None m k k' :
  map_get m k' = None -> map_get (map_delete m k) k' = None.
Proof.
  intros G. destruct (eq_dec k k') as [E|E].
  - subst. apply map_get_delete_eq.
  - rewrite map_get_delete_neq; auto.
Qed.

Lemma map_delete_absent m k : map_get m k = None -> map_delete m k = m.
Proof.
  induction m as [|[k' v'] m IH]; simpl; auto.
  destruct (eq_dec k' k); [discriminate|]. intros G. now rewrite IH.
Qed.

Lemma map_set_same m k v : map_get m k = Some v -> map_set m k v = m.
Proof.
  induction m as [|[k' v'] m IH]; simpl; [discriminate|].
  destruct (eq_dec k' k) as [E|E].
  - intros [= ->]. now subst.
  - intros G. now rewrite IH.
Qed.

Lemma map_get_In_keys m k v : map_get m k = Some v -> In k (map_keys m).
Proof.
  induction m as [|[k' v'] m IH]; simpl; [discriminate|].
  destruct (eq_dec k' k); auto.
Qed.

Lemma map_get_None_keys m k : map_get m k = None <-> ~ In k (map_keys m).
Proof.
  induction m as [|[k' v'] m IH]; simpl.
  - tauto.
  - destruct (eq_dec k' k) as [E|E].
    + split; [discriminate | intros N; exfalso; auto].
    + rewrite IH. tauto.
Qed.

Lemma map_has_true m k : map_has m k = true <-> In k (map_keys m).
Proof.
  unfold map_has. destruct (map_get m k) eqn:G.
  - split; auto. intros _. eapply map_get_In_keys; eauto.
  - apply map_get_None_keys in G. split; [discriminate | tauto].
Qed.

Lemma map_has_false m k : map_has m k = false <-> map_get m k = None.
Proof.
  unfold map_has. destruct (map_get m k); split; congruence.
Qed.

Lemma map_keys_set_present m k v :
  In k (map_keys m) -> map_keys (map_set m k v) = map_keys m.
Proof.
  induction m as [|[k' v'] m IH]; simpl; [tauto|].
  destruct (eq_dec k' k) as [E|E]; simpl.
  - now subst.
  - intros [?|I]; [congruence|]. now rewrite IH.
Qed.

Lemma map_keys_set_absent m k v :
  ~ In k (map_keys m) -> map_keys (map_set m k v) = map_keys m ++ [k].
Proof.
  induction m as [|[k' v'] m IH]; simpl; auto.
  destruct (eq_dec k' k) as [E|E]; simpl.
  - intros N. exfalso. auto.
  - intros N. rewrite IH; auto.
Qed.

Lemma map_keys_delete m k k' :
  In k' (map_keys (map_delete m k)) <-> k' <> k /\ In k' (map_keys m).
Proof.
  induction m as [|[k0 v0] m IH]; simpl.
  - tauto.
  - destruct (eq_dec k0 k) as [E|E]; simpl; rewrite IH.
    + subst. split; [tauto|]. intros [N [?|?]]; [congruence | tauto].
    + split; [intros [?|?]; [subst; tauto | tauto] | tauto].
Qed.

Lemma map_delete_comm m k k' :
  map_delete (map_delete m k) k' = map_delete (map_delete m k') k.
Proof.
  induction m as [|[k0 v0] m IH]; simpl; auto.
  destruct (eq_dec k0 k) as [E|E]; destruct (eq_dec k0 k') as [E'|E']; simpl;
    try rewrite IH; auto.
  - destruct (eq_dec k0 k); congruence.
  - destruct (eq_dec k0 k'); congruence.
  - destruct (eq_dec k0 k); destruct (eq_dec k0 k'); congruence.
Qed.
End JsMapFacts.

Section JsSetFacts.
Context {K : Type} `{EqDec K}.
Implicit Types (s : list K) (k : K).

Lemma set_has_true s k : set_has s k = true <-> In k s.
Proof.
  induction s as [|k' s IH]; simpl.
  - split; [discriminate | tauto].
  - destruct (eq_dec k' k) as [E|E].
    + split; auto.
    + rewrite IH. split; auto. intros [?|?]; [congruence | auto].
Qed.

Lemma set_has_add s k k' :
  set_has (set_add s k) k' = true <-> k = k' \/ set_has s k' = true.
Proof.
  unfold set_add. destruct (set_has s k) eqn:E.
  - split; auto. intros [<-|?]; auto.
  - rewrite !set_has_true, in_app_iff. simpl. tauto.
Qed.

Lemma set_has_delete s k k' :
  set_has (set_delete s k) k' = true <-> k' <> k /\ set_has s k' = true.
Proof.
  rewrite !set_has_true. induction s as [|k0 s IH]; simpl.
  - tauto.
  - destruct (eq_dec k0 k) as [E|E]; simpl; rewrite IH.
    + subst. split; [tauto|]. intros [N [?|?]]; [congruence | tauto].
    + split; [intros [?|?]; [subst; tauto | tauto] | tauto].
Qed.
End JsSetFacts.

(** ** Frame facts: what each primitive leaves alone *)

Lemma rooms_update_socket st sid f : rooms (update_socket st sid f) = rooms st.
Proof. unfold update_socket. now destruct (map_get (sockets st) sid). Qed.

Lemma issued_update_socket st sid f : issued (update_socket st sid f) = issued st.
Proof. unfold update_socket. now destruct (map_get (sockets st) sid). Qed.

Lemma sockets_update_socket_eq st sid f :
  map_get (sockets (update_socket st sid f)) sid
  = option_map f (map_get (sockets st) sid).
Proof.
  unfold update_socket. destruct (map_get (sockets st) sid) eqn:G; simpl.
  - apply map_get_set_eq.
  - assumption.
Qed.

Lemma sockets_update_socket_neq st sid sid' f :
  sid <> sid' ->
  map_get (sockets (update_socket st sid f)) sid' = map_get (sockets st) sid'.
Proof.
  intros N. unfold update_socket. destruct (map_get (sockets st) sid) eqn:G; simpl; auto.
  now apply map_get_set_neq.
Qed.

Lemma sockets_update_with_rooms st rs sid f :
  sockets (update_socket (with_rooms st rs) sid f) = sockets (update_socket st sid f).
Proof.
  unfold update_socket. cbn [with_rooms sockets].
  now destruct (map_get (sockets st) sid).
Qed.

Lemma map_delete_size_0 (ps : jsmap string participant) :
  Nat.eqb (map_size ps) 0 = true <-> ps = [].
Proof.
  unfold map_size. destruct ps; simpl; split; congruence.
Qed.

Lemma map_delete_size_pos (ps : jsmap string participant) :
  Nat.eqb (map_size ps) 0 = false <-> ps <> [].
Proof.
  unfold map_size. destruct ps; simpl; split; congruence.
Qed.

Lemma map_set_not_nil {K V} `{EqDec K} (m : jsmap K V) k v : map_set m k v <> [].
Proof. destruct m as [|[k' v'] m]; simpl; [|destruct (eq_dec k' k)]; discriminate. Qed.

(** ** The leave step on the registry *)

Lemma rooms_leave_get rs sid rm rm' :
  map_get (rooms_leave rs sid rm) rm'
  = if eq_dec rm rm' then room_without sid (map_get rs rm') else map_get rs rm'.
Proof.
  unfold rooms_leave, room_without.
  destruct (eq_dec rm rm') as [E|E].
  - subst rm'. destruct (map_get rs rm) as [r|] eqn:G; [|assumption].
    simpl. destruct (Nat.eqb _ 0).
    + apply map_get_delete_eq.
    + apply map_get_set_eq.
  - destruct (map_get rs rm) as [r|] eqn:G; [|reflexivity].
    simpl. destruct (Nat.eqb _ 0).
    + now apply map_get_delete_neq.
    + now apply map_get_set_neq.
Qed.

Lemma handleUserLeave_rooms st sid rm :
  rooms (fst (handleUserLeave st sid rm)) = rooms_leave (rooms st) sid rm.
Proof.
  unfold handleUserLeave, rooms_leave, socket_leave.
  destruct (map_get (rooms st) rm) as [r|]; cbv zeta.
  - destruct (Nat.eqb _ 0); cbn [fst]; now rewrite rooms_update_socket.
  - cbn [fst]; now rewrite rooms_update_socket.
Qed.

Lemma handleUserLeave_sockets st sid rm :
  sockets (fst (handleUserLeave st sid rm)) = sockets (socket_leave st sid rm).
Proof.
  unfold handleUserLeave, socket_leave.
  destruct (map_get (rooms st) rm) as [r|]; cbv zeta; auto.
  destruct (Nat.eqb _ 0); cbn [fst]; apply sockets_update_with_rooms.
Qed.

Lemma handleUserLeave_issued st sid rm :
  issued (fst (handleUserLeave st sid rm)) = issued st.
Proof.
  unfold handleUserLeave, socket_leave.
  destruct (map_get (rooms st) rm) as [r|]; cbv zeta.
  - destruct (Nat.eqb _ 0); cbn [fst]; now rewrite issued_update_socket.
  - cbn [fst]; now rewrite issued_update_socket.
Qed.

Lemma leave_existing_rooms sid st out rn :
  rooms (fst (leave_existing sid (st, out) rn))
  = if eq_dec rn (VStr sid) then rooms st else rooms_leave (rooms st) sid rn.
Proof.
  unfold leave_existing, rooms_leave.
  destruct (eq_dec rn (VStr sid)); [reflexivity|].
  unfold socket_leave. rewrite rooms_update_socket.
  destruct (map_get (rooms st) rn) as [r|]; cbv zeta.
  - destruct (Nat.eqb _ 0); reflexivity.
  - cbn [fst]. now rewrite rooms_update_socket.
Qed.

Lemma leave_existing_sockets sid st out rn :
  sockets (fst (leave_existing sid (st, out) rn))
  = if eq_dec rn (VStr sid) then sockets st else sockets (socket_leave st sid rn).
Proof.
  unfold leave_existing.
  destruct (eq_dec rn (VStr sid)); [reflexivity|].
  destruct (map_get _ rn) as [r|]; cbv zeta; auto.
  destruct (Nat.eqb _ 0); cbn [fst]; reflexivity.
Qed.

Lemma leave_existing_issued sid st out rn :
  issued (fst (leave_existing sid (st, out) rn)) = issued st.
Proof.
  unfold leave_existing.
  destruct (eq_dec rn (VStr sid)); [reflexivity|].
  unfold socket_leave.
  destruct (map_get _ rn) as [r|]; cbv zeta.
  - destruct (Nat.eqb _ 0); cbn [fst with_rooms issued]; now rewrite issued_update_socket.
  - cbn [fst]; now rewrite issued_update_socket.
Qed.

Lemma room_without_Some sid o r' :
  room_without sid o = Some r' ->
  exists r, o = Some r
            /\ r' = with_participants r (map_delete (participants r) sid)
            /\ map_delete (participants r) sid <> [].
Proof.
  unfold room_without. destruct o as [r|]; [|discriminate].
  cbv zeta. destruct (Nat.eqb _ 0) eqn:E; [discriminate|].
  intros [= <-]. exists r. repeat split. now apply map_delete_size_pos.
Qed.

Lemma map_get_delete_Some {K V} `{EqDec K} (m : jsmap K V) k k' v :
  map_get (map_delete m k) k' = Some v -> k <> k' /\ map_get m k' = Some v.
Proof.
  intros G. destruct (eq_dec k k') as [E|E].
  - subst. rewrite map_get_delete_eq in G. discriminate.
  - rewrite map_get_delete_neq in G; auto.
Qed.

(** ** The invariants hold along every run *)

Lemma wf_ext st st' :
  rooms st' = rooms st -> sockets st' = sockets st -> issued st' = issued st ->
  wf st -> wf st'.
Proof.
  intros Hr Hs Hi (N & S & I1 & I2).
  unfold wf, rooms_nonempty, in_sync, ids_issued. rewrite Hr, Hs, Hi. auto.
Qed.

(** Taking [sid] out of registry room [rm] and out of socket.io room [rm]
    keeps the invariants. *)
Lemma wf_leave st st' sid rm :
  rooms st' = rooms_leave (rooms st) sid rm ->
  sockets st' = sockets (socket_leave st sid rm) ->
  issued st' = issued st ->
  wf st -> wf st'.
Proof.
  intros Hr Hs Hi (N & S & I1 & I2).
  unfold wf, rooms_nonempty, in_sync, ids_issued. rewrite Hr, Hs, Hi.
  split; [|split; [|split]].
  - intros rm' r'. rewrite rooms_leave_get.
    destruct (eq_dec rm rm'); [|apply N].
    intros G. apply room_without_Some in G as (r & _ & -> & Hne). exact Hne.
  - intros sid' s' rm' r'. rewrite rooms_leave_get. unfold socket_leave.
    destruct (eq_dec rm rm') as [E|E].
    + intros Gs G. apply room_without_Some in G as (r & G & -> & _).
      cbn [with_participants participants]. intros Hin.
      apply map_keys_delete in Hin as [Hsid Hin].
      rewrite sockets_update_socket_neq in Gs by congruence.
      eapply S; eauto.
    + destruct (string_dec sid sid') as [<-|Ns].
      * rewrite sockets_update_socket_eq.
        destruct (map_get (sockets st) sid) as [s|] eqn:Gs; [|discriminate].
        intros [= <-] G Hin. cbn [socket_rooms].
        apply set_has_true, set_has_delete. split; [congruence|].
        apply set_has_true. eapply S; eauto.
      * rewrite sockets_update_socket_neq by assumption.
        intros Gs G Hin. eapply S; eauto.
  - intros sid' s'. unfold socket_leave.
    destruct (string_dec sid sid') as [<-|Ns].
    + rewrite sockets_update_socket_eq.
      destruct (map_get (sockets st) sid) as [s|] eqn:Gs; [|discriminate].
      intros _. eapply I1; eauto.
    + rewrite sockets_update_socket_neq by assumption. apply I1.
  - intros rm' r' sid'. rewrite rooms_leave_get.
    destruct (eq_dec rm rm'); [|apply I2].
    intros G. apply room_without_Some in G as (r & G & -> & _).
    cbn [with_participants participants]. intros Hin.
    apply map_keys_delete in Hin as [_ Hin]. eapply I2; eauto.
Qed.

Lemma handleUserLeave_wf st sid rm : wf st -> wf (fst (handleUserLeave st sid rm)).
Proof.
  apply wf_leave with (sid := sid) (rm := rm).
  - apply handleUserLeave_rooms.
  - apply handleUserLeave_sockets.
  - apply handleUserLeave_issued.
Qed.

Lemma leave_existing_wf sid acc rn :
  wf (fst acc) -> wf (fst (leave_existing sid acc rn)).
Proof.
  destruct acc as [st out]. cbn [fst]. intros W.
  pose proof (leave_existing_rooms sid st out rn) as Hr.
  pose proof (leave_existing_sockets sid st out rn) as Hs.
  pose proof (leave_existing_issued sid st out rn) as Hi.
  destruct (eq_dec rn (VStr sid)).
  - eapply wf_ext; eauto.
  - eapply wf_leave; eauto.
Qed.

Lemma leave_phase_wf sid l acc :
  wf (fst acc) -> wf (fst (fold_left (leave_existing sid) l acc)).
Proof.
  revert acc. induction l as [|rn l IH]; intros acc W; simpl; auto.
  apply IH. now apply leave_existing_wf.
Qed.

Lemma map_keys_set_In {K V} `{EqDec K} (m : jsmap K V) k v k' :
  In k' (map_keys (map_set m k v)) <-> k' = k \/ In k' (map_keys m).
Proof.
  destruct (in_dec eq_dec k (map_keys m)) as [I|I].
  - rewrite map_keys_set_present by assumption. split; auto.
    intros [->|?]; auto.
  - rewrite map_keys_set_absent by assumption. rewrite in_app_iff. simpl.
    split; [intros [?|[?|[]]]; auto | intros [?|?]; auto].
Qed.

(** *** The join proper *)

Lemma join_new_rooms now st1 sid rm uname :
  rooms (fst (join_new now st1 sid rm uname))
  = map_set (rooms st1) rm
      (with_participants (room_or_new now (rooms st1) rm)
         (map_set (participants (room_or_new now (rooms st1) rm)) sid
            (mkParticipant sid uname false now))).
Proof.
  unfold join_new, socket_join. cbn [fst].
  rewrite rooms_update_socket. cbn [with_rooms rooms].
  now rewrite rooms_update_socket.
Qed.

Lemma join_new_issued now st1 sid rm uname :
  issued (fst (join_new now st1 sid rm uname)) = issued st1.
Proof.
  unfold join_new, socket_join. cbn [fst].
  rewrite issued_update_socket. cbn [with_rooms issued].
  now rewrite issued_update_socket.
Qed.

Lemma join_new_socket_eq now st1 sid rm uname :
  map_get (sockets (fst (join_new now st1 sid rm uname))) sid
  = option_map (fun s1 => mkSocket (set_add (socket_rooms s1) rm) uname rm)
      (map_get (sockets st1) sid).
Proof.
  unfold join_new, socket_join. cbn [fst].
  rewrite sockets_update_socket_eq. cbn [with_rooms sockets].
  rewrite sockets_update_socket_eq.
  now destruct (map_get (sockets st1) sid).
Qed.

Lemma join_new_socket_neq now st1 sid sid' rm uname :
  sid <> sid' ->
  map_get (sockets (fst (join_new now st1 sid rm uname))) sid'
  = map_get (sockets st1) sid'.
Proof.
  intros N. unfold join_new, socket_join. cbn [fst].
  rewrite sockets_update_socket_neq by assumption. cbn [with_rooms sockets].
  now rewrite sockets_update_socket_neq by assumption.
Qed.

Lemma join_new_emission now st1 sid rm uname :
  snd (join_new now st1 sid rm uname)
  = mkEmission (io_to (fst (join_new now st1 sid rm uname)) rm)
      (UserJoined
         (map_values
            (map_set (participants (room_or_new now (rooms st1) rm)) sid
               (mkParticipant sid uname false now)))).
Proof.
  unfold join_new, socket_join. cbn [fst snd].
  now rewrite rooms_update_socket.
Qed.

Lemma room_or_new_members now rs rm :
  map_keys (participants (room_or_new now rs rm)) = opt_members (map_get rs rm).
Proof. unfold room_or_new, opt_members. now destruct (map_get rs rm). Qed.

Lemma join_new_wf now st1 sid rm uname :
  In sid (issued st1) -> wf st1 -> wf (fst (join_new now st1 sid rm uname)).
Proof.
  intros Hiss (N & S & I1 & I2).
  unfold wf, rooms_nonempty, in_sync, ids_issued.
  rewrite join_new_rooms, join_new_issued.
  split; [|split; [|split]].
  - intros rm' r'. destruct (eq_dec rm rm') as [<-|E].
    + rewrite map_get_set_eq. intros [= <-]. cbn [with_participants participants].
      apply map_set_not_nil.
    + rewrite map_get_set_neq by assumption. apply N.
  - intros sid' s' rm' r' Gs G Hin.
    assert (Hold : forall r0, map_get (rooms st1) rm' = Some r0 ->
                   In sid' (map_keys (participants r0)) -> In rm' (socket_rooms s')).
    { intros r0 G0 Hin0. destruct (string_dec sid sid') as [<-|Ns].
      - rewrite join_new_socket_eq in Gs.
        destruct (map_get (sockets st1) sid) as [s1|] eqn:Gs1; [|discriminate].
        injection Gs as <-. cbn [socket_rooms].
        apply set_has_true, set_has_add. right. apply set_has_true. eapply S; eauto.
      - rewrite join_new_socket_neq in Gs by assumption. eapply S; eauto. }
    destruct (eq_dec rm rm') as [<-|E].
    + rewrite map_get_set_eq in G. injection G as <-.
      cbn [with_participants participants] in Hin.
      apply map_keys_set_In in Hin as [->|Hin].
      * rewrite join_new_socket_eq in Gs.
        destruct (map_get (sockets st1) sid) as [s1|]; [|discriminate].
        injection Gs as <-. cbn [socket_rooms].
        apply set_has_true, set_has_add. now left.
      * rewrite room_or_new_members in Hin. unfold opt_members in Hin.
        destruct (map_get (rooms st1) rm) as [r0|] eqn:G0; [|contradiction].
        eapply Hold; eauto.
    + rewrite map_get_set_neq in G by assumption. eapply Hold; eauto.
  - intros sid' s'. destruct (string_dec sid sid') as [<-|Ns].
    + intros _. assumption.
    + rewrite join_new_socket_neq by assumption. apply I1.
  - intros rm' r' sid'. destruct (eq_dec rm rm') as [<-|E].
    + rewrite map_get_set_eq. intros [= <-]. cbn [with_participants participants].
      intros Hin. apply map_keys_set_In in Hin as [->|Hin]; [assumption|].
      rewrite room_or_new_members in Hin. unfold opt_members in Hin.
      destruct (map_get (rooms st1) rm) as [r0|] eqn:G0; [|contradiction].
      eapply I2; eauto.
    + rewrite map_get_set_neq by assumption. apply I2.
Qed.

Lemma join_room_eq now st sid s rm uname :
  join_room now st sid s rm uname
  = (fst (join_new now (fst (fold_left (leave_existing sid) (socket_rooms s) (st, [])))
                   sid rm uname),
     snd (fold_left (leave_existing sid) (socket_rooms s) (st, []))
     ++ [snd (join_new now (fst (fold_left (leave_existing sid) (socket_rooms s) (st, [])))
                       sid rm uname)]).
Proof.
  unfold join_room.
  destruct (fold_left (leave_existing sid) (socket_rooms s) (st, [])) as [st1 out1].
  cbn [fst snd]. now destruct (join_new now st1 sid rm uname).
Qed.

Lemma leave_phase_issued sid l acc :
  issued (fst (fold_left (leave_existing sid) l acc)) = issued (fst acc).
Proof.
  revert acc. induction l as [|rn l IH]; intros [st out]; simpl; auto.
  rewrite IH. apply leave_existing_issued.
Qed.

Lemma join_room_wf now st sid s rm uname :
  map_get (sockets st) sid = Some s -> wf st ->
  wf (fst (join_room now st sid s rm uname)).
Proof.
  intros Gs W. rewrite join_room_eq. cbn [fst].
  apply join_new_wf.
  - rewrite leave_phase_issued. cbn [fst]. destruct W as (_ & _ & I1 & _). eauto.
  - now apply leave_phase_wf.
Qed.

(** *** The other handlers *)

Lemma set_talking_wf b st sid s rm : wf st -> wf (fst (set_talking b st sid s rm)).
Proof.
  intros W. unfold set_talking.
  destruct (map_get (rooms st) rm) as [r|] eqn:G; [|exact W].
  destruct (map_get (participants r) sid) as [user|] eqn:Gu; [|exact W].
  cbn [fst]. destruct W as (N & S & I1 & I2).
  assert (Hk : forall p, In p (map_keys (map_set (participants r) sid
                 (mkParticipant (id user) (name user) b (joinedAt user))))
               -> In p (map_keys (participants r))).
  { intros p. rewrite map_keys_set_present; auto. eapply map_get_In_keys; eauto. }
  unfold wf, rooms_nonempty, in_sync, ids_issued. cbn [with_rooms rooms sockets issued].
  split; [|split; [|split]].
  - intros rm' r'. destruct (eq_dec rm rm') as [<-|E].
    + rewrite map_get_set_eq. intros [= <-]. apply map_set_not_nil.
    + rewrite map_get_set_neq by assumption. apply N.
  - intros sid' s' rm' r' Gs. destruct (eq_dec rm rm') as [<-|E].
    + rewrite map_get_set_eq. intros [= <-] Hin. eapply S; eauto.
    + rewrite map_get_set_neq by assumption. eapply S; eauto.
  - exact I1.
  - intros rm' r' sid'. destruct (eq_dec rm rm') as [<-|E].
    + rewrite map_get_set_eq. intros [= <-] Hin. eapply I2; eauto.
    + rewrite map_get_set_neq by assumption. apply I2.
Qed.

Lemma wf_close st sid : wf st -> wf (with_sockets st (map_delete (sockets st) sid)).
Proof.
  intros (N & S & I1 & I2).
  unfold wf, rooms_nonempty, in_sync, ids_issued. cbn [with_sockets rooms sockets issued].
  split; [exact N|split; [|split; [|exact I2]]].
  - intros sid' s' rm' r' Gs. apply map_get_delete_Some in Gs as [_ Gs]. eapply S; eauto.
  - intros sid' s' Gs. apply map_get_delete_Some in Gs as [_ Gs]. eapply I1; eauto.
Qed.

Lemma on_connection_wf st sid : wf st -> wf (on_connection st sid).
Proof.
  intros W. unfold on_connection.
  destruct (in_dec string_dec sid (issued st)) as [I|I]; [exact W|].
  destruct W as (N & S & I1 & I2).
  unfold wf, rooms_nonempty, in_sync, ids_issued. cbn [rooms sockets issued].
  split; [exact N|split; [|split]].
  - intros sid' s' rm' r'. destruct (string_dec sid sid') as [<-|Ns].
    + intros _ G Hin. exfalso. apply I. eapply I2; eauto.
    + rewrite map_get_set_neq by assumption. apply S.
  - intros sid' s'. destruct (string_dec sid sid') as [<-|Ns].
    + intros _. now left.
    + rewrite map_get_set_neq by assumption. intros Gs. right. eapply I1; eauto.
  - intros rm' r' sid' G Hin. right. eapply I2; eauto.
Qed.

Lemma fold_delete_get (l : list value) (rs : jsmap value room) rm r :
  map_get (fold_left (fun rs0 roomName => map_delete rs0 roomName) l rs) rm = Some r ->
  map_get rs rm = Some r.
Proof.
  revert rs. induction l as [|k l IH]; intros rs; simpl; auto.
  intros G. apply IH in G. now apply map_get_delete_Some in G.
Qed.

Lemma sweep_wf st : wf st -> wf (sweep st).
Proof.
  intros (N & S & I1 & I2).
  unfold wf, rooms_nonempty, in_sync, ids_issued, sweep.
  cbn [with_rooms rooms sockets issued].
  split; [|split; [|split; [exact I1|]]].
  - intros rm r G. apply fold_delete_get in G. eapply N; eauto.
  - intros sid s rm r Gs G. apply fold_delete_get in G. eapply S; eauto.
  - intros rm r sid G. apply fold_delete_get in G. eapply I2; eauto.
Qed.

Lemma init_wf : wf init_state.
Proof.
  unfold wf, rooms_nonempty, in_sync, ids_issued, init_state; simpl.
  repeat split; intros; discriminate.
Qed.

Lemma step_wf now st e st' out :
  step now st e = Returned st' out -> wf st -> wf st'.
Proof.
  intros Hstep W.
  destruct e as [sid|sid p|sid p|sid p|sid p|sid p|sid p|sid p|sid|]; cbn [step] in Hstep;
    try (unfold on_socket in Hstep;
         destruct (map_get (sockets st) sid) as [s|] eqn:Gs;
         [|injection Hstep as <- _; exact W]).
  - injection Hstep as <- _. now apply on_connection_wf.
  - unfold on_join_room in Hstep. destruct (destructure p) as [f|]; [|discriminate].
    injection Hstep as <- _. now apply join_room_wf.
  - unfold on_start_talking in Hstep. destruct (destructure p) as [f|]; [|discriminate].
    injection Hstep as <- _. now apply set_talking_wf.
  - unfold on_stop_talking in Hstep. destruct (destructure p) as [f|]; [|discriminate].
    injection Hstep as <- _. now apply set_talking_wf.
  - unfold on_offer in Hstep. destruct (destructure p) as [f|]; [|discriminate].
    injection Hstep as <- _. exact W.
  - unfold on_answer in Hstep. destruct (destructure p) as [f|]; [|discriminate].
    injection Hstep as <- _. exact W.
  - unfold on_ice_candidate in Hstep. destruct (destructure p) as [f|]; [|discriminate].
    injection Hstep as <- _. exact W.
  - unfold on_leave_room in Hstep. destruct (destructure p) as [f|]; [|discriminate].
    injection Hstep as <- _. now apply handleUserLeave_wf.
  - unfold on_disconnect in Hstep. destruct (truthy (currentRoom s)).
    + injection Hstep as <- _. apply handleUserLeave_wf. now apply wf_close.
    + injection Hstep as <- _. now apply wf_close.
  - injection Hstep as <- _. now apply sweep_wf.
Qed.

Lemma run_wf tr : forall st st', wf st -> run st tr = Some st' -> wf st'.
Proof.
  induction tr as [|[now e] tr IH]; intros st st' W R; simpl in R.
  - now injection R as <-.
  - destruct (step now st e) as [st1 out|] eqn:Hstep; [|discriminate].
    eapply IH; [|exact R]. eapply step_wf; eauto.
Qed.

Lemma reachable_wf tr st : run init_state tr = Some st -> wf st.
Proof. apply run_wf, init_wf. Qed.

(** ** What the loop of the join handler does to the registry *)

Lemma map_delete_idem {K V} `{EqDec K} (m : jsmap K V) k :
  map_delete (map_delete m k) k = map_delete m k.
Proof. apply map_delete_absent, map_get_delete_eq. Qed.

Lemma room_without_idem sid o :
  room_without sid (room_without sid o) = room_without sid o.
Proof.
  destruct o as [r|]; [|reflexivity].
  cbv beta iota zeta delta [room_without].
  destruct (Nat.eqb (map_size (map_delete (participants r) sid)) 0) eqn:E;
    [reflexivity|].
  cbn [with_participants participants room_name createdAt].
  rewrite map_delete_idem, E. reflexivity.
Qed.

Lemma leave_existing_get sid acc rn rm :
  map_get (rooms (fst (leave_existing sid acc rn))) rm
  = if left_by_join sid [rn] rm
    then room_without sid (map_get (rooms (fst acc)) rm)
    else map_get (rooms (fst acc)) rm.
Proof.
  destruct acc as [st out]. rewrite leave_existing_rooms. cbn [fst].
  unfold left_by_join. cbn [set_has].
  destruct (eq_dec rn (VStr sid)) as [E|E].
  - destruct (eq_dec rm (VStr sid)); [reflexivity|].
    destruct (eq_dec rn rm); [congruence | reflexivity].
  - rewrite rooms_leave_get.
    destruct (eq_dec rn rm) as [<-|N].
    + destruct (eq_dec rn (VStr sid)); [contradiction | reflexivity].
    + destruct (eq_dec rm (VStr sid)); reflexivity.
Qed.

Lemma leave_phase_get sid l : forall acc rm,
  map_get (rooms (fst (fold_left (leave_existing sid) l acc))) rm
  = if left_by_join sid l rm
    then room_without sid (map_get (rooms (fst acc)) rm)
    else map_get (rooms (fst acc)) rm.
Proof.
  induction l as [|rn l IH]; intros acc rm.
  - cbn [fold_left]. unfold left_by_join. cbn [set_has].
    now destruct (eq_dec rm (VStr sid)).
  - cbn [fold_left]. rewrite IH, leave_existing_get.
    unfold left_by_join. cbn [set_has].
    destruct (eq_dec rm (VStr sid)); [reflexivity|].
    destruct (eq_dec rn rm).
    + destruct (set_has l rm); [apply room_without_idem | reflexivity].
    + reflexivity.
Qed.

Lemma room_without_members sid o :
  opt_members (room_without sid o) = filter (string_neqb sid) (opt_members o).
Proof.
  destruct o as [r|]; [|reflexivity].
  unfold room_without. cbv zeta.
  assert (Hk : map_keys (map_delete (participants r) sid)
               = filter (string_neqb sid) (map_keys (participants r))).
  { induction (participants r) as [|[k v] m IH]; [reflexivity|].
    cbn [map_delete map_keys map filter fst]. unfold string_neqb at 1.
    unfold eq_dec, string_EqDec.
    destruct (string_dec k sid) as [E1|E1]; destruct (string_dec sid k) as [E2|E2];
      try congruence; cbn [map fst]; [apply IH|].
    f_equal. apply IH. }
  destruct (Nat.eqb _ 0) eqn:E; cbn [opt_members with_participants participants].
  - apply map_delete_size_0 in E. rewrite <- Hk, E. reflexivity.
  - exact Hk.
Qed.

Lemma filter_absent sid (l : list string) :
  ~ In sid l -> filter (string_neqb sid) l = l.
Proof.
  induction l as [|k l IH]; [reflexivity|]. cbn [In filter]. intros N.
  unfold string_neqb at 1. destruct (string_dec sid k); [exfalso; auto|].
  f_equal. apply IH. tauto.
Qed.

Lemma filter_single sid : filter (string_neqb sid) [sid] = [].
Proof.
  cbn [filter]. unfold string_neqb. destruct (string_dec sid sid); congruence.
Qed.

(** ** How each event reaches its handler *)

Lemma step_join now st sid s p f :
  map_get (sockets st) sid = Some s -> destructure p = Some f ->
  step now st (JoinRoom sid p)
  = returned (join_room now st sid s (f "room") (f "userName")).
Proof.
  intros Gs D. cbn [step]. unfold on_socket, on_join_room. now rewrite Gs, D.
Qed.

Lemma step_leave now st sid s p f :
  map_get (sockets st) sid = Some s -> destructure p = Some f ->
  step now st (LeaveRoom sid p) = returned (handleUserLeave st sid (f "room")).
Proof.
  intros Gs D. cbn [step]. unfold on_socket, on_leave_room. now rewrite Gs, D.
Qed.

Lemma step_disconnect now st sid s :
  map_get (sockets st) sid = Some s -> truthy (currentRoom s) = true ->
  step now st (Disconnect sid)
  = returned (handleUserLeave (with_sockets st (map_delete (sockets st) sid))
                sid (currentRoom s)).
Proof.
  intros Gs T. cbn [step]. unfold on_socket, on_disconnect. now rewrite Gs, T.
Qed.

Lemma step_talking now st sid s p f (b : bool) :
  map_get (sockets st) sid = Some s -> destructure p = Some f ->
  step now st (talking_event b sid p)
  = returned (set_talking b st sid s (f "room")).
Proof.
  intros Gs D. destruct b; cbn [step talking_event];
    unfold on_socket, on_start_talking, on_stop_talking; now rewrite Gs, D.
Qed.

Lemma members_get st rm : members st rm = opt_members (map_get (rooms st) rm).
Proof. reflexivity. Qed.

Lemma room_without_last sid o :
  opt_members o = [sid] -> room_without sid o = None.
Proof.
  intros M. pose proof (room_without_members sid o) as H.
  rewrite M, filter_single in H.
  destruct (room_without sid o) as [r'|] eqn:E; [|reflexivity].
  apply room_without_Some in E as (r & -> & -> & Hne).
  cbn [opt_members with_participants participants] in H.
  destruct (map_delete (participants r) sid); [contradiction | discriminate].
Qed.

Lemma handleUserLeave_last st sid rm :
  members st rm = [sid] ->
  handleUserLeave st sid rm
  = (socket_leave (with_rooms st (map_delete (rooms st) rm)) sid rm, []).
Proof.
  rewrite members_get. intros M. unfold handleUserLeave.
  destruct (map_get (rooms st) rm) as [r|] eqn:G; [|discriminate].
  pose proof (room_without_last sid (Some r) M) as W.
  unfold room_without in W. cbv zeta in *.
  destruct (Nat.eqb _ 0); [reflexivity | discriminate].
Qed.

(** ** C1: rooms and their last participant *)

Lemma join_creates_room now st sid s rm uname :
  map_get (rooms st) rm = None ->
  map_get (rooms (fst (join_room now st sid s rm uname))) rm
  = Some (mkRoom rm [(sid, mkParticipant sid uname false now)] now).
Proof.
  intros G. rewrite join_room_eq. cbn [fst]. rewrite join_new_rooms, map_get_set_eq.
  unfold room_or_new. rewrite leave_phase_get. cbn [fst]. rewrite G.
  destruct (left_by_join sid (socket_rooms s) rm); reflexivity.
Qed.

Lemma join_other_room_drops_last now st sid s rm rm' uname :
  in_sync st -> map_get (sockets st) sid = Some s ->
  members st rm' = [sid] -> rm' <> VStr sid -> rm <> rm' ->
  map_get (rooms (fst (join_room now st sid s rm uname))) rm' = None.
Proof.
  intros S Gs M Nown Nrm. rewrite join_room_eq. cbn [fst].
  rewrite join_new_rooms, map_get_set_neq by assumption.
  rewrite leave_phase_get. cbn [fst].
  assert (L : left_by_join sid (socket_rooms s) rm' = true).
  { unfold left_by_join. destruct (eq_dec rm' (VStr sid)); [contradiction|].
    apply set_has_true. rewrite members_get in M.
    destruct (map_get (rooms st) rm') as [r|] eqn:G; [|discriminate].
    eapply S; eauto. cbn [opt_members] in M. rewrite M. now left. }
  rewrite L. now apply room_without_last.
Qed.

(** C1.  A room can outlive its last participant.  Alice joins the room
    named by the empty string and is its only participant; when she
    disconnects, the handler's guard on [socket.currentRoom] takes the empty
    name for no room at all and skips the leave: the handler returns with
    Alice's socket closed, and the registry still has the room with Alice's
    record in it.  A lookup right after the disconnect finds the room, and
    the periodic sweep, which looks for rooms without records, does not
    remove it either. *)
Theorem room_outlives_last_participant :
  run init_state empty_name_trace = Some a_in_unnamed
  /\ members a_in_unnamed (VStr "") = ["a"]
  /\ exists st',
       step 3 a_in_unnamed (Disconnect "a") = Returned st' []
       /\ connected st' "a" = false
       /\ map_get (rooms st') (VStr "")
          = Some (mkRoom (VStr "")
                    [("a", mkParticipant "a" (VStr "Alice") false 2)] 2)
       /\ step 4 st' SweepTick = Returned st' [].
Proof.
  split; [reflexivity|]. split; [reflexivity|].
  eexists. split; [reflexivity|]. repeat split.
Qed.

(** X20.  Along every run of events whose handlers return, every room in
    the registry has at least one participant record.  A join naming a room
    the registry does not have creates it with the joiner as its only
    participant; and when the only participant of a room sends leave-room
    naming it, or disconnects while the room is its current room and has a
    truthy name, or joins another room while the room is not named by its
    own connection id, that very operation deletes the room.  After any
    operation a room without participant records is absent from the
    registry, with no need of the periodic sweep. *)
Theorem rooms_never_empty :
  forall tr st, run init_state tr = Some st ->
    (forall rm r, map_get (rooms st) rm = Some r -> 1 <= map_size (participants r))
    /\ (forall now sid s p f,
          map_get (sockets st) sid = Some s -> destructure p = Some f ->
          map_get (rooms st) (f "room") = None ->
          exists st' out,
            step now st (JoinRoom sid p) = Returned st' out
            /\ map_get (rooms st') (f "room")
               = Some (mkRoom (f "room")
                         [(sid, mkParticipant sid (f "userName") false now)] now))
    /\ (forall now sid s p f,
          map_get (sockets st) sid = Some s -> destructure p = Some f ->
          members st (f "room") = [sid] ->
          exists st',
            step now st (LeaveRoom sid p) = Returned st' []
            /\ map_get (rooms st') (f "room") = None)
    /\ (forall now sid s,
          map_get (sockets st) sid = Some s -> truthy (currentRoom s) = true ->
          members st (currentRoom s) = [sid] ->
          exists st',
            step now st (Disconnect sid) = Returned st' []
            /\ map_get (rooms st') (currentRoom s) = None)
    /\ (forall now sid s p f rm,
          map_get (sockets st) sid = Some s -> destructure p = Some f ->
          members st rm = [sid] -> rm <> VStr sid -> f "room" <> rm ->
          exists st' out,
            step now st (JoinRoom sid p) = Returned st' out
            /\ map_get (rooms st') rm = None)
    /\ (forall now e st' out rm,
          step now st e = Returned st' out ->
          members st' rm = [] -> map_get (rooms st') rm = None).
Proof.
  intros tr st R. pose proof (reachable_wf tr st R) as W.
  split; [|split; [|split; [|split; [|split]]]].
  - intros rm r G. destruct W as (N & _). specialize (N rm r G).
    unfold map_size. destruct (participants r); [congruence | simpl; lia].
  - intros now sid s p f Gs D G.
    rewrite (step_join now st sid s p f Gs D). unfold returned.
    eexists; eexists; split; [reflexivity|]. now apply join_creates_room.
  - intros now sid s p f Gs D M.
    rewrite (step_leave now st sid s p f Gs D). unfold returned.
    rewrite (handleUserLeave_last st sid (f "room") M). cbn [fst snd].
    eexists; split; [reflexivity|].
    unfold socket_leave. rewrite rooms_update_socket. apply map_get_delete_eq.
  - intros now sid s Gs T M.
    rewrite (step_disconnect now st sid s Gs T). unfold returned.
    rewrite handleUserLeave_last by exact M. cbn [fst snd].
    eexists; split; [reflexivity|].
    unfold socket_leave. rewrite rooms_update_socket. apply map_get_delete_eq.
  - intros now sid s p f rm Gs D M Nown Nrm.
    rewrite (step_join now st sid s p f Gs D). unfold returned.
    eexists; eexists; split; [reflexivity|].
    destruct W as (_ & S & _). now apply join_other_room_drops_last.
  - intros now e st' out rm Hstep M.
    pose proof (step_wf now st e st' out Hstep W) as (N & _).
    rewrite members_get in M.
    destruct (map_get (rooms st') rm) as [r|] eqn:G; [|reflexivity].
    exfalso. apply (N rm r G). cbn [opt_members] in M.
    destruct (participants r); [reflexivity | discriminate].
Qed.

Lemma rooms_never_empty_witness :
  run init_state empty_name_trace = Some a_in_unnamed
  /\ (forall rm r, map_get (rooms a_in_unnamed) rm = Some r ->
                   1 <= map_size (participants r))
  /\ (exists st',
        step 3 a_in_unnamed (LeaveRoom "a" (room_only (VStr ""))) = Returned st' []
        /\ map_get (rooms st') (VStr "") = None).
Proof.
  split; [reflexivity|].
  pose proof (rooms_never_empty empty_name_trace a_in_unnamed eq_refl)
    as (H1 & _ & H3 & _).
  split; [exact H1|].
  exact (H3 3%Z "a" (mkSocket [VStr "a"; VStr ""] (VStr "Alice") (VStr ""))
            (room_only (VStr "")) (get_field [("room", VStr "")])
            eq_refl eq_refl eq_refl).
Defined.

(** ** What a join broadcasts *)

Lemma room_members_intro st sid s rm :
  map_get (sockets st) sid = Some s -> In rm (socket_rooms s) ->
  In sid (room_members st rm).
Proof.
  unfold room_members, map_keys. intros G Hin.
  induction (sockets st) as [|[k v] m IH]; [discriminate|].
  cbn [map_get] in G. cbn [filter snd].
  destruct (eq_dec k sid) as [E|E].
  - injection G as ->. subst k.
    apply set_has_true in Hin. rewrite Hin. now left.
  - destruct (set_has (socket_rooms v) rm); [right|]; auto.
Qed.

Lemma socket_to_iff st sid q rm :
  In q (socket_to st sid rm)
  <-> In q (room_members st rm) /\ ~ In q (room_members st (VStr sid)).
Proof.
  unfold socket_to. rewrite filter_In.
  destruct (set_has (room_members st (VStr sid)) q) eqn:E; cbn [negb].
  - apply set_has_true in E. split; [intros [_ ?]; discriminate | tauto].
  - assert (N : ~ In q (room_members st (VStr sid))).
    { intros Hin. apply set_has_true in Hin. congruence. }
    tauto.
Qed.

Lemma in_own_room_member st sid :
  in_own_room st sid -> In sid (room_members st (VStr sid)).
Proof. intros (s & G & Hin). eapply room_members_intro; eauto. Qed.

Lemma socket_to_excludes_sender st sid rm :
  in_own_room st sid -> ~ In sid (socket_to st sid rm).
Proof.
  intros O Hin. apply socket_to_iff in Hin as [_ N]. apply N.
  now apply in_own_room_member.
Qed.

Lemma socket_to_intro st sid q rm :
  own_room_private st sid -> q <> sid ->
  In q (room_members st rm) -> In q (socket_to st sid rm).
Proof.
  intros Pv N Hin. apply socket_to_iff. split; [assumption|].
  intros Hq. apply N. now apply Pv.
Qed.

Lemma connected_get st sid :
  connected st sid = true <-> exists s, map_get (sockets st) sid = Some s.
Proof.
  unfold connected, map_has. destruct (map_get (sockets st) sid) as [s|].
  - split; eauto.
  - split; [discriminate | intros [s E]; discriminate].
Qed.

Lemma connected_update_socket st sid f q :
  connected (update_socket st sid f) q = connected st q.
Proof.
  unfold connected, map_has. destruct (string_dec sid q) as [<-|N].
  - rewrite sockets_update_socket_eq. now destruct (map_get (sockets st) sid).
  - now rewrite sockets_update_socket_neq.
Qed.

Lemma leave_existing_connected sid acc rn q :
  connected (fst (leave_existing sid acc rn)) q = connected (fst acc) q.
Proof.
  destruct acc as [st out]. unfold connected at 1.
  rewrite leave_existing_sockets. cbn [fst].
  destruct (eq_dec rn (VStr sid)); [reflexivity|].
  apply connected_update_socket.
Qed.

Lemma leave_phase_connected sid l : forall acc q,
  connected (fst (fold_left (leave_existing sid) l acc)) q = connected (fst acc) q.
Proof.
  induction l as [|rn l IH]; intros acc q; cbn [fold_left]; [reflexivity|].
  rewrite IH. apply leave_existing_connected.
Qed.

Lemma leave_existing_out sid acc rn :
  Forall is_user_left (snd acc) ->
  Forall is_user_left (snd (leave_existing sid acc rn)).
Proof.
  destruct acc as [st out]. cbn [snd]. intros F. unfold leave_existing.
  destruct (eq_dec rn (VStr sid)); [exact F|].
  destruct (map_get _ rn) as [r|]; cbv zeta; [|exact F].
  destruct (Nat.eqb _ 0); cbn [snd]; [exact F|].
  apply Forall_app. split; [exact F|].
  constructor; [|constructor]. now eexists.
Qed.

Lemma leave_phase_out sid l : forall acc,
  Forall is_user_left (snd acc) ->
  Forall is_user_left (snd (fold_left (leave_existing sid) l acc)).
Proof.
  induction l as [|rn l IH]; intros acc F; cbn [fold_left]; [exact F|].
  apply IH. now apply leave_existing_out.
Qed.

Lemma is_participant_members st sid rm :
  is_participant st sid rm = true <-> In sid (members st rm).
Proof.
  unfold is_participant, members. destruct (map_get (rooms st) rm) as [r|].
  - apply map_has_true.
  - split; [discriminate | contradiction].
Qed.

(** The membership of the joined room after a join, from the membership
    before it. *)
Lemma join_room_members now st sid s rm uname :
  in_sync st -> map_get (sockets st) sid = Some s ->
  members (fst (join_room now st sid s rm uname)) rm
  = if andb (if eq_dec rm (VStr sid) then true else false) (is_participant st sid rm)
    then members st rm
    else filter (string_neqb sid) (members st rm) ++ [sid].
Proof.
  intros S Gs. rewrite members_get, join_room_eq. cbn [fst].
  rewrite join_new_rooms, map_get_set_eq.
  cbn [opt_members with_participants participants].
  pose proof (room_or_new_members now
    (rooms (fst (fold_left (leave_existing sid) (socket_rooms s) (st, [])))) rm) as HM.
  rewrite leave_phase_get in HM. cbn [fst] in HM.
  destruct (left_by_join sid (socket_rooms s) rm) eqn:L.
  - rewrite room_without_members in HM. fold (members st rm) in HM.
    unfold left_by_join in L.
    destruct (eq_dec rm (VStr sid)); [discriminate|]. cbn [andb].
    rewrite map_keys_set_absent; [now rewrite HM|].
    rewrite HM. intros Hin. apply filter_In in Hin as [_ Hin].
    unfold string_neqb in Hin. destruct (string_dec sid sid); congruence.
  - fold (members st rm) in HM.
    destruct (is_participant st sid rm) eqn:P.
    + apply is_participant_members in P.
      unfold left_by_join in L.
      destruct (eq_dec rm (VStr sid)) as [E|E]; cbn [andb].
      * rewrite map_keys_set_present; [exact HM | now rewrite HM].
      * exfalso. rewrite members_get in P.
        destruct (map_get (rooms st) rm) as [r|] eqn:G; [|contradiction].
        pose proof (S sid s rm r Gs G P) as Hin.
        apply set_has_true in Hin. congruence.
    + rewrite andb_false_r.
      assert (Nin : ~ In sid (members st rm)).
      { intros Hin. apply is_participant_members in Hin. congruence. }
      rewrite map_keys_set_absent by now rewrite HM.
      rewrite HM, filter_absent by assumption. reflexivity.
Qed.

(** C5.  The list a join broadcasts can name a connection that has left.
    Alice joined the room named by the empty string and disconnected; the
    disconnect handler skipped the leave for the empty name, so her record
    stayed in the registry.  When Bob then joins that room, the one
    user-joined goes to Bob alone and lists Alice, whose connection is
    closed, before Bob. *)
Theorem join_lists_closed_connection :
  run init_state stale_trace = Some a_gone_b_open
  /\ connected a_gone_b_open "a" = false
  /\ exists st',
       step 5 a_gone_b_open (JoinRoom "b" (obj (VStr "") (VStr "Bob")))
       = Returned st'
           [mkEmission ["b"]
              (UserJoined [mkParticipant "a" (VStr "Alice") false 2;
                           mkParticipant "b" (VStr "Bob") false 5])]
       /\ members st' (VStr "") = ["a"; "b"].
Proof.
  split; [reflexivity|]. split; [reflexivity|].
  eexists. split; reflexivity.
Qed.

(** X21.  After any run, a join-room event from an open socket -- whether
    or not the registry has the named room -- returns with: the joiner stored
    in that room under a fresh record; exactly one user-joined emission, made
    last (whatever precedes it is a user-left of the loop over the old
    rooms); its list being the participant records of the room as the
    registry has them after the mutation, in the order of the room's map,
    which is the registry's membership before the event with the joiner at
    the end (a joiner that was already listed is taken out of its old place
    first, except in the room named by its own id, where it keeps its
    place); and its recipients, the members of the socket.io room of that
    name, including the joiner and every participant of the room whose
    socket is open. *)
Theorem join_broadcasts_membership :
  forall tr st, run init_state tr = Some st ->
  forall now sid s p f,
    map_get (sockets st) sid = Some s -> destructure p = Some f ->
    exists st' lefts r',
      step now st (JoinRoom sid p)
      = Returned st'
          (lefts ++ [mkEmission (io_to st' (f "room"))
                                (UserJoined (map_values (participants r')))])
      /\ Forall is_user_left lefts
      /\ map_get (rooms st') (f "room") = Some r'
      /\ map_get (participants r') sid
         = Some (mkParticipant sid (f "userName") false now)
      /\ members st' (f "room")
         = (if andb (if eq_dec (f "room") (VStr sid) then true else false)
                    (is_participant st sid (f "room"))
            then members st (f "room")
            else filter (string_neqb sid) (members st (f "room")) ++ [sid])
      /\ In sid (io_to st' (f "room"))
      /\ (forall q, In q (members st' (f "room")) -> connected st' q = true ->
                    In q (io_to st' (f "room"))).
Proof.
  intros tr st R now sid s p f Gs D.
  pose proof (reachable_wf tr st R) as W.
  pose proof (join_room_wf now st sid s (f "room") (f "userName") Gs W) as W'.
  rewrite (step_join now st sid s p f Gs D). unfold returned.
  set (st' := fst (join_room now st sid s (f "room") (f "userName"))) in *.
  assert (Hr : exists r', map_get (rooms st') (f "room") = Some r'
               /\ map_get (participants r') sid
                  = Some (mkParticipant sid (f "userName") false now)
               /\ snd (join_room now st sid s (f "room") (f "userName"))
                  = snd (fold_left (leave_existing sid) (socket_rooms s) (st, []))
                    ++ [mkEmission (io_to st' (f "room"))
                          (UserJoined (map_values (participants r')))]).
  { subst st'. rewrite join_room_eq. cbn [fst snd].
    rewrite join_new_rooms, map_get_set_eq, join_new_emission.
    eexists. split; [reflexivity|].
    cbn [with_participants participants]. split; [apply map_get_set_eq|].
    reflexivity. }
  destruct Hr as (r' & Gr & Gp & Hout).
  assert (Hc : exists s', map_get (sockets st') sid = Some s'
                          /\ In (f "room") (socket_rooms s')).
  { subst st'. rewrite join_room_eq. cbn [fst]. rewrite join_new_socket_eq.
    assert (C : connected (fst (fold_left (leave_existing sid) (socket_rooms s) (st, [])))
                  sid = true).
    { rewrite leave_phase_connected. cbn [fst]. apply connected_get. eauto. }
    apply connected_get in C as [s1 ->]. cbn [option_map].
    eexists. split; [reflexivity|]. cbn [socket_rooms].
    apply set_has_true, set_has_add. now left. }
  destruct Hc as (s' & Gs' & Hin').
  exists st', (snd (fold_left (leave_existing sid) (socket_rooms s) (st, []))), r'.
  split; [now rewrite Hout|].
  split; [apply leave_phase_out; constructor|].
  split; [exact Gr|]. split; [exact Gp|].
  split; [destruct W as (_ & S & _); now apply join_room_members|].
  split; [eapply room_members_intro; eauto|].
  intros q Hq Cq. apply connected_get in Cq as [sq Gq].
  destruct W' as (_ & S' & _). fold st' in S'.
  rewrite members_get, Gr in Hq. cbn [opt_members] in Hq.
  eapply room_members_intro; eauto.
Qed.

Lemma join_broadcasts_membership_witness :
  run init_state example_trace = Some two_in_R1
  /\ exists st' lefts r',
       step 5 two_in_R1 (JoinRoom "a" (obj (VStr "R2") (VStr "Alice")))
       = Returned st'
           (lefts ++ [mkEmission (io_to st' (VStr "R2"))
                                 (UserJoined (map_values (participants r')))])
       /\ map_get (rooms st') (VStr "R2") = Some r'.
Proof.
  split; [reflexivity|].
  destruct (join_broadcasts_membership example_trace two_in_R1 eq_refl
              5%Z "a" (mkSocket [VStr "a"; VStr "R1"] (VStr "Alice") (VStr "R1"))
              (obj (VStr "R2") (VStr "Alice"))
              (get_field [("room", VStr "R2"); ("userName", VStr "Alice")])
              eq_refl eq_refl)
    as (st' & lefts & r' & H1 & _ & H3 & _).
  exists st', lefts, r'. split; [exact H1 | exact H3].
Defined.

(** ** Start-talking and stop-talking *)

(** C6.  A user-talking does not always go to the other participants and
    to them alone.  Alice and Bob are both participants of the room named by
    Alice's connection id, with open sockets; when Alice sends start-talking
    for that room her flag is set, but the one user-talking has no recipient
    at all: [socket.to] leaves out everyone in the socket.io room named by
    the sender's id, and that is the very room the event is for.  And when
    Alice has left the socket.io room named by her id (by a leave-room naming
    it) before she and Bob joined R1, her start-talking for R1 is sent to Bob
    and to herself. *)
Theorem talking_misses_others_or_reaches_sender :
  run init_state both_in_room_a_trace = Some both_in_room_a
  /\ members both_in_room_a (VStr "a") = ["a"; "b"]
  /\ connected both_in_room_a "b" = true
  /\ (exists st',
        step 5 both_in_room_a (StartTalking "a" (room_only (VStr "a")))
        = Returned st' [mkEmission [] (UserTalking "a" (VStr "Alice") true)]
        /\ record_of st' "a" (VStr "a")
           = Some (mkParticipant "a" (VStr "Alice") true 3))
  /\ run init_state left_own_room_trace = Some a_out_of_own_room
  /\ members a_out_of_own_room (VStr "R1") = ["a"; "b"]
  /\ (exists st',
        step 6 a_out_of_own_room (StartTalking "a" (room_only (VStr "R1")))
        = Returned st' [mkEmission ["a"; "b"] (UserTalking "a" (VStr "Alice") true)]).
Proof.
  split; [reflexivity|]. split; [reflexivity|]. split; [reflexivity|].
  split; [eexists; split; reflexivity|].
  split; [reflexivity|]. split; [reflexivity|].
  eexists. reflexivity.
Qed.

(** X22.  After any run, a start-talking or stop-talking event from an
    open socket returns normally.  If the registry has the named room and the
    sender is a participant of it, the sender's record gets the new
    [isTalking] flag and nothing else in the registry or on the sockets
    changes, and one user-talking emission with the sender's id, the name
    noted on its socket and the new flag goes to the members of the socket.io
    room of that name that are not in the socket.io room named by the
    sender's id.  So the sender gets none as long as it has not left its own
    room, and every other participant whose socket is open gets it as long
    as no other socket has joined the room named by the sender's id.  If the
    room or the sender's record in it is missing, the state is unchanged and
    nothing is emitted. *)
Theorem talking_sets_flag_and_notifies :
  forall tr st, run init_state tr = Some st ->
  forall now (b : bool) sid s p f,
    map_get (sockets st) sid = Some s -> destructure p = Some f ->
    (forall r user,
        map_get (rooms st) (f "room") = Some r ->
        map_get (participants r) sid = Some user ->
        exists st' r',
          step now st (talking_event b sid p)
          = Returned st' [mkEmission (socket_to st sid (f "room"))
                                     (UserTalking sid (userName s) b)]
          /\ map_get (rooms st') (f "room") = Some r'
          /\ map_get (participants r') sid
             = Some (mkParticipant (id user) (name user) b (joinedAt user))
          /\ (forall q, q <> sid ->
                        map_get (participants r') q = map_get (participants r) q)
          /\ map_keys (participants r') = map_keys (participants r)
          /\ (forall rm, rm <> f "room" ->
                         map_get (rooms st') rm = map_get (rooms st) rm)
          /\ sockets st' = sockets st
          /\ (forall q, In q (socket_to st sid (f "room"))
                        <-> In q (room_members st (f "room"))
                            /\ ~ In q (room_members st (VStr sid)))
          /\ (in_own_room st sid -> ~ In sid (socket_to st sid (f "room")))
          /\ (own_room_private st sid ->
              forall q, In q (map_keys (participants r)) -> q <> sid ->
                        connected st q = true ->
                        In q (socket_to st sid (f "room"))))
    /\ (is_participant st sid (f "room") = false ->
        step now st (talking_event b sid p) = Returned st []).
Proof.
  intros tr st R now b sid s p f Gs D.
  pose proof (reachable_wf tr st R) as (_ & S & _).
  rewrite (step_talking now st sid s p f b Gs D). unfold returned, set_talking.
  split.
  - intros r user G Gu. rewrite G, Gu. cbn [fst snd with_rooms rooms sockets].
    eexists. eexists. split; [reflexivity|].
    split; [apply map_get_set_eq|]. cbn [with_participants participants].
    split; [apply map_get_set_eq|].
    split; [intros q N; apply map_get_set_neq; congruence|].
    split; [apply map_keys_set_present; eapply map_get_In_keys; eauto|].
    split; [intros rm N; apply map_get_set_neq; congruence|].
    split; [reflexivity|].
    split; [intros q; apply socket_to_iff|].
    split; [apply socket_to_excludes_sender|].
    intros Pv q Hq N Cq. apply connected_get in Cq as [sq Gq].
    apply socket_to_intro; [assumption|assumption|].
    eapply room_members_intro; eauto.
  - unfold is_participant. destruct (map_get (rooms st) (f "room")) as [r|]; [|reflexivity].
    intros P. apply map_has_false in P. now rewrite P.
Qed.

Lemma talking_sets_flag_and_notifies_witness :
  run init_state example_trace = Some two_in_R1
  /\ (exists st' r',
        step 5 two_in_R1 (talking_event true "a" (room_only (VStr "R1")))
        = Returned st' [mkEmission (socket_to two_in_R1 "a" (VStr "R1"))
                                   (UserTalking "a" (VStr "Alice") true)]
        /\ map_get (rooms st') (VStr "R1") = Some r'
        /\ map_get (participants r') "a"
           = Some (mkParticipant "a" (VStr "Alice") true 3))
  /\ step 5 two_in_R1 (talking_event true "a" (room_only (VStr "R9")))
     = Returned two_in_R1 [].
Proof.
  split; [reflexivity|]. split.
  - destruct (proj1 (talking_sets_flag_and_notifies example_trace two_in_R1 eq_refl
                5%Z true "a" (mkSocket [VStr "a"; VStr "R1"] (VStr "Alice") (VStr "R1"))
                (room_only (VStr "R1")) (get_field [("room", VStr "R1")])
                eq_refl eq_refl)
              (mkRoom (VStr "R1")
                 [("a", mkParticipant "a" (VStr "Alice") false 3);
                  ("b", mkParticipant "b" (VStr "Bob") false 4)] 3)
              (mkParticipant "a" (VStr "Alice") false 3) eq_refl eq_refl)
      as (st' & r' & H1 & H2 & H3 & _).
    exists st', r'. repeat split; assumption.
  - exact (proj2 (talking_sets_flag_and_notifies example_trace two_in_R1 eq_refl
                5%Z true "a" (mkSocket [VStr "a"; VStr "R1"] (VStr "Alice") (VStr "R1"))
                (room_only (VStr "R9")) (get_field [("room", VStr "R9")])
                eq_refl eq_refl) eq_refl).
Defined.

(** ** C10: the room-introspection endpoint *)

(** C10.  GET /api/rooms/:roomId never touches the registry and always
    answers with status 200: for a room id the registry does not have, with
    an empty participant list and a count of 0; for a room it has, with the
    room's participant records in the order of its map and their number. *)
Theorem api_rooms_reads_registry :
  forall st roomId,
    fst (api_rooms st roomId) = st
    /\ status (snd (api_rooms st roomId)) = 200
    /\ (map_get (rooms st) (VStr roomId) = None ->
        snd (api_rooms st roomId) = mkResponse 200 [] 0)
    /\ (forall r, map_get (rooms st) (VStr roomId) = Some r ->
        snd (api_rooms st roomId)
        = mkResponse 200 (map_values (participants r))
                     (List.length (map_values (participants r)))).
Proof.
  intros st roomId. unfold api_rooms.
  destruct (map_get (rooms st) (VStr roomId)) as [r|]; cbn [fst snd status].
  - repeat split; try discriminate. intros r0 [= <-].
    unfold map_values, map_size. now rewrite length_map.
  - repeat split. intros r0. discriminate.
Qed.

(** ** C8: malformed payloads *)



(** ** C3: a leave-room naming another room *)

(** C3 fails as stated: Alice's current room is A and she sends
    leave-room for B; she stays a participant of A, and the members of B are
    sent a user-left. *)
Lemma leave_other_room_counterexample :
  run init_state three_sockets_trace = Some a_in_A_bc_in_B
  /\ option_map currentRoom (map_get (sockets a_in_A_bc_in_B) "a") = Some (VStr "A")
  /\ step 7 a_in_A_bc_in_B (LeaveRoom "a" (room_only (VStr "B")))
     = Returned a_in_A_bc_in_B
         [mkEmission ["b"; "c"]
            (UserLeft [mkParticipant "b" (VStr "Bob") false 5;
                       mkParticipant "c" (VStr "Carol") false 6])]
  /\ is_participant a_in_A_bc_in_B "a" (VStr "A") = true.
Proof. repeat split. Qed.

Lemma with_participants_same r : with_participants r (participants r) = r.
Proof. now destruct r. Qed.

Lemma rooms_leave_stranger st sid rm :
  rooms_nonempty st -> is_participant st sid rm = false ->
  rooms_leave (rooms st) sid rm = rooms st.
Proof.
  intros N P. unfold rooms_leave, is_participant in *.
  destruct (map_get (rooms st) rm) as [r|] eqn:G; [|reflexivity].
  apply map_has_false in P. cbv zeta. rewrite (map_delete_absent _ _ P).
  pose proof (N rm r G) as Hne. apply map_delete_size_pos in Hne. rewrite Hne.
  rewrite with_participants_same. now apply map_set_same.
Qed.

(** C3, amended.  After any run, a leave-room event from an open socket
    whose recorded current room differs from the room the event names acts
    on the named room, not on the recorded one: the handler returns, the
    socket's recorded room and name stay as they were, the registry entry of
    the recorded current room -- like that of every room other than the
    named one -- is what it was, so the socket is a participant of its
    current room exactly if it was before; and if the socket is not a
    participant of the named room, the registry is not changed at all. *)
Theorem leave_room_acts_on_named_room :
  forall tr st, run init_state tr = Some st ->
  forall now sid s p f,
    map_get (sockets st) sid = Some s -> destructure p = Some f ->
    f "room" <> currentRoom s ->
    exists st' out s',
      step now st (LeaveRoom sid p) = Returned st' out
      /\ (forall rm, rm <> f "room" ->
                     map_get (rooms st') rm = map_get (rooms st) rm)
      /\ is_participant st' sid (currentRoom s) = is_participant st sid (currentRoom s)
      /\ map_get (sockets st') sid = Some s'
      /\ currentRoom s' = currentRoom s /\ userName s' = userName s
      /\ (is_participant st sid (f "room") = false -> rooms st' = rooms st).
Proof.
  intros tr st R now sid s p f Gs D Ncur.
  pose proof (reachable_wf tr st R) as (N & _).
  rewrite (step_leave now st sid s p f Gs D). unfold returned.
  assert (Hget : forall rm, rm <> f "room" ->
            map_get (rooms (fst (handleUserLeave st sid (f "room")))) rm
            = map_get (rooms st) rm).
  { intros rm Nrm. rewrite handleUserLeave_rooms, rooms_leave_get.
    destruct (eq_dec (f "room") rm); congruence. }
  eexists. eexists.
  exists (mkSocket (set_delete (socket_rooms s) (f "room")) (userName s) (currentRoom s)).
  split; [reflexivity|]. split; [exact Hget|].
  split; [unfold is_participant; rewrite Hget by congruence; reflexivity|].
  split.
  { rewrite handleUserLeave_sockets. unfold socket_leave.
    rewrite sockets_update_socket_eq, Gs. reflexivity. }
  split; [reflexivity|]. split; [reflexivity|].
  intros P. rewrite handleUserLeave_rooms. now apply rooms_leave_stranger.
Qed.

Lemma leave_room_acts_on_named_room_witness :
  run init_state three_sockets_trace = Some a_in_A_bc_in_B
  /\ exists st' out,
       step 7 a_in_A_bc_in_B (LeaveRoom "a" (room_only (VStr "B"))) = Returned st' out
       /\ is_participant st' "a" (VStr "A") = true
       /\ rooms st' = rooms a_in_A_bc_in_B.
Proof.
  split; [reflexivity|].
  destruct (leave_room_acts_on_named_room three_sockets_trace a_in_A_bc_in_B eq_refl 7%Z "a"
              (mkSocket [VStr "a"; VStr "A"] (VStr "Alice") (VStr "A"))
              (room_only (VStr "B")) (get_field [("room", VStr "B")])
              eq_refl eq_refl ltac:(discriminate))
    as (st' & out & s' & H1 & _ & H3 & _ & _ & _ & H7).
  exists st', out. split; [exact H1|]. split; [|exact (H7 eq_refl)].
  cbn [currentRoom] in H3. rewrite H3. reflexivity.
Defined.

(** ** C4: a second leave *)

(** C4 does not hold of the code.  Alice and Bob are in R1; Alice sends
    leave-room for R1, which tells Bob; her socket still records R1 as its
    current room, so when she then disconnects the handler runs the leave
    again: the registry stays as it was, but Bob is sent the same user-left
    a second time. *)
Theorem second_leave_broadcasts_again :
  run init_state example_trace = Some two_in_R1
  /\ step 5 two_in_R1 (LeaveRoom "a" (room_only (VStr "R1")))
  = Returned a_left_R1
      [mkEmission ["b"] (UserLeft [mkParticipant "b" (VStr "Bob") false 4])]
  /\ option_map currentRoom (map_get (sockets a_left_R1) "a") = Some (VStr "R1")
  /\ exists st',
       step 6 a_left_R1 (Disconnect "a")
       = Returned st'
           [mkEmission ["b"] (UserLeft [mkParticipant "b" (VStr "Bob") false 4])]
       /\ rooms st' = rooms a_left_R1.
Proof.
  split; [reflexivity|]. split; [reflexivity|]. split; [reflexivity|].
  eexists. split; reflexivity.
Qed.

(** ** C2: one room per connection *)

(** C2 does not hold of the code.  Alice is in the room named by her own
    connection id; the loop of the join handler skips that name, so when she
    joins B she is not taken out of it, nobody is told she left, and she ends
    up a participant of two rooms. *)
Theorem join_from_own_room_keeps_both :
  run init_state own_room_trace = Some a_in_own_room
  /\ rooms_of a_in_own_room "a" = [VStr "a"]
  /\ exists st',
       step 3 a_in_own_room (JoinRoom "a" (obj (VStr "B") (VStr "Alice")))
       = Returned st'
           [mkEmission ["a"] (UserJoined [mkParticipant "a" (VStr "Alice") false 3])]
       /\ rooms_of st' "a" = [VStr "a"; VStr "B"]
       /\ is_participant st' "a" (VStr "a") = true
       /\ is_participant st' "a" (VStr "B") = true.
Proof.
  split; [reflexivity|]. split; [reflexivity|]. eexists. repeat split.
Qed.

(** ** C7: relayed messages *)

(** C7 does not hold of the code.  Carol has joined the room named by
    Bob's connection id, so she sits in the socket.io room through which a
    message to Bob is sent: Alice's offer to Bob reaches Bob and Carol.  (The
    registry is left alone, and the offer, the sender and the room name are
    passed on as they came.) *)
Theorem relay_reaches_room_named_by_target :
  run init_state eavesdrop_trace = Some c_in_room_b
  /\ step 5 c_in_room_b (OfferEv "a" (offer_to (VStr "sdp") (VStr "b") (VStr "R1")))
     = Returned c_in_room_b
         [mkEmission ["b"; "c"] (Offer (VStr "sdp") "a" (VStr "R1"))].
Proof. split; reflexivity. Qed.

(** ** C9: joining the same room again *)

(** C9 does not hold of the code.  Alice and Bob are in the room named by
    Alice's connection id, Alice first, and Alice is talking.  When Alice
    joins that room again the loop skips it: she is not taken out, Bob gets
    no user-left, and her new record (not talking, joined at the new time)
    replaces the old one in place, so she stays first instead of moving
    behind Bob. *)
Theorem rejoin_own_room_keeps_place :
  run init_state shared_own_room_trace = Some ab_in_room_a
  /\ option_map (fun r => map_values (participants r))
             (map_get (rooms ab_in_room_a) (VStr "a"))
  = Some [mkParticipant "a" (VStr "Alice") true 3;
          mkParticipant "b" (VStr "Bob") false 4]
  /\ exists st',
       step 6 ab_in_room_a (JoinRoom "a" (obj (VStr "a") (VStr "Alice")))
       = Returned st'
           [mkEmission ["a"; "b"]
              (UserJoined [mkParticipant "a" (VStr "Alice") false 6;
                           mkParticipant "b" (VStr "Bob") false 4])]
       /\ members st' (VStr "a") = ["a"; "b"].
Proof.
  split; [reflexivity|]. split; [reflexivity|]. eexists. split; reflexivity.
Qed.

(** ** Runs that keep room names and connection ids apart *)

Lemma keys_update_socket st sid f :
  map_keys (sockets (update_socket st sid f)) = map_keys (sockets st).
Proof.
  unfold update_socket. destruct (map_get (sockets st) sid) as [s|] eqn:G; [|reflexivity].
  cbn [with_sockets sockets]. apply map_keys_set_present.
  eapply map_get_In_keys; eauto.
Qed.

Lemma NoDup_keys_delete {K V} `{EqDec K} (m : jsmap K V) k :
  NoDup (map_keys m) -> NoDup (map_keys (map_delete m k)).
Proof.
  induction m as [|[k' v'] m IH]; cbn [map_delete map_keys map fst]; intros N; auto.
  inversion N as [|? ? Hnin Hnd]; subst.
  destruct (eq_dec k' k); auto. cbn [map fst]. constructor; auto.
  intros Hin. apply Hnin. fold (map_keys (map_delete m k)) in Hin.
  now apply map_keys_delete in Hin.
Qed.

Lemma NoDup_keys_set {K V} `{EqDec K} (m : jsmap K V) k v :
  NoDup (map_keys m) -> NoDup (map_keys (map_set m k v)).
Proof.
  intros N. destruct (in_dec eq_dec k (map_keys m)) as [I|I].
  - now rewrite map_keys_set_present.
  - rewrite map_keys_set_absent by assumption.
    apply NoDup_app; [assumption | repeat constructor; auto |].
    intros x Hx [<-|[]]. contradiction.
Qed.

Lemma members_after_leave rs sid rm rm' :
  opt_members (map_get (rooms_leave rs sid rm) rm')
  = if eq_dec rm rm'
    then filter (string_neqb sid) (opt_members (map_get rs rm'))
    else opt_members (map_get rs rm').
Proof.
  rewrite rooms_leave_get. destruct (eq_dec rm rm'); [|reflexivity].
  apply room_without_members.
Qed.

Lemma leave_phase_members sid l acc rm :
  members (fst (fold_left (leave_existing sid) l acc)) rm
  = if left_by_join sid l rm
    then filter (string_neqb sid) (members (fst acc) rm)
    else members (fst acc) rm.
Proof.
  rewrite !members_get, leave_phase_get.
  destruct (left_by_join sid l rm); [|reflexivity].
  apply room_without_members.
Qed.

Lemma join_new_members now st1 sid rm uname rm' q :
  In q (members (fst (join_new now st1 sid rm uname)) rm')
  <-> (rm = rm' /\ q = sid) \/ In q (members st1 rm').
Proof.
  rewrite !members_get, join_new_rooms.
  destruct (eq_dec rm rm') as [<-|N].
  - rewrite map_get_set_eq. cbn [opt_members with_participants participants].
    rewrite map_keys_set_In, room_or_new_members. tauto.
  - rewrite map_get_set_neq by assumption. split; [now right|].
    intros [[E _]|?]; [contradiction | assumption].
Qed.

Lemma filter_neq_In sid q (l : list string) :
  In q (filter (string_neqb sid) l) <-> q <> sid /\ In q l.
Proof.
  rewrite filter_In. unfold string_neqb.
  destruct (string_dec sid q); split; intros [? ?]; split; congruence.
Qed.

Lemma leave_existing_keys sid acc rn :
  map_keys (sockets (fst (leave_existing sid acc rn))) = map_keys (sockets (fst acc)).
Proof.
  destruct acc as [st out]. rewrite leave_existing_sockets. cbn [fst].
  destruct (eq_dec rn (VStr sid)); [reflexivity|]. apply keys_update_socket.
Qed.

Lemma leave_phase_keys sid l : forall acc,
  map_keys (sockets (fst (fold_left (leave_existing sid) l acc)))
  = map_keys (sockets (fst acc)).
Proof.
  induction l as [|rn l IH]; intros acc; cbn [fold_left]; [reflexivity|].
  rewrite IH. apply leave_existing_keys.
Qed.

Lemma leave_phase_socket_neq sid l q : sid <> q -> forall acc,
  map_get (sockets (fst (fold_left (leave_existing sid) l acc))) q
  = map_get (sockets (fst acc)) q.
Proof.
  intros N. induction l as [|rn l IH]; intros acc; cbn [fold_left]; [reflexivity|].
  rewrite IH. destruct acc as [st out]. rewrite leave_existing_sockets. cbn [fst].
  destruct (eq_dec rn (VStr sid)); [reflexivity|].
  unfold socket_leave. now apply sockets_update_socket_neq.
Qed.

Lemma leave_phase_socket_eq sid l : forall acc,
  map_get (sockets (fst (fold_left (leave_existing sid) l acc))) sid
  = option_map (fun s0 => mkSocket (rooms_after_loop sid l (socket_rooms s0))
                                   (userName s0) (currentRoom s0))
      (map_get (sockets (fst acc)) sid).
Proof.
  unfold rooms_after_loop.
  induction l as [|rn l IH]; intros acc; cbn [fold_left].
  - destruct (map_get (sockets (fst acc)) sid) as [[l0 u c]|]; reflexivity.
  - rewrite IH. destruct acc as [st out]. rewrite leave_existing_sockets. cbn [fst].
    destruct (eq_dec rn (VStr sid)); [reflexivity|].
    unfold socket_leave. rewrite sockets_update_socket_eq.
    destruct (map_get (sockets st) sid) as [s0|]; reflexivity.
Qed.

Section ApartFacts.
Variable is_id : string -> bool.

Lemma room_like_not_id sid rm :
  is_id sid = true -> room_like is_id rm = true -> rm <> VStr sid.
Proof.
  intros I L ->. cbn [room_like] in L. rewrite I in L. discriminate.
Qed.

Lemma own_and_one_delete sid l rm :
  is_id sid = true -> room_like is_id rm = true ->
  own_and_one is_id sid l -> own_and_one is_id sid (set_delete l rm).
Proof.
  intros I L Sh. pose proof (room_like_not_id sid rm I L) as N.
  destruct Sh as [->|(rm0 & L0 & ->)]; cbn [set_delete].
  - destruct (eq_dec (VStr sid) rm); [congruence | now left].
  - destruct (eq_dec (VStr sid) rm); [congruence|].
    destruct (eq_dec rm0 rm); [now left | right; eauto].
Qed.

Lemma own_and_one_loop sid l :
  is_id sid = true -> own_and_one is_id sid l ->
  rooms_after_loop sid l l = [VStr sid].
Proof.
  intros I [->|(rm0 & L0 & ->)]; unfold rooms_after_loop; cbn [fold_left].
  - destruct (eq_dec (VStr sid) (VStr sid)); [reflexivity | congruence].
  - pose proof (room_like_not_id sid rm0 I L0) as N.
    destruct (eq_dec (VStr sid) (VStr sid)); [|congruence].
    destruct (eq_dec rm0 (VStr sid)); [contradiction|].
    cbn [set_delete].
    destruct (eq_dec (VStr sid) rm0); [congruence|].
    destruct (eq_dec rm0 rm0); [reflexivity | congruence].
Qed.

Lemma own_and_one_add sid rm :
  is_id sid = true -> room_like is_id rm = true ->
  own_and_one is_id sid (set_add [VStr sid] rm).
Proof.
  intros I L. pose proof (room_like_not_id sid rm I L) as N.
  unfold set_add. cbn [set_has].
  destruct (eq_dec (VStr sid) rm); [congruence|]. right. eauto.
Qed.

(** Taking a socket out of a room named like a room keeps things tidy. *)
Lemma tidy_leave st st' sid rm :
  room_like is_id rm = true ->
  rooms st' = rooms_leave (rooms st) sid rm ->
  sockets st' = sockets (socket_leave st sid rm) ->
  tidy is_id st -> tidy is_id st'.
Proof.
  intros L Hr Hs (ND & TS & TK & T1). unfold tidy.
  split; [|split; [|split]].
  - rewrite Hs. unfold socket_leave. now rewrite keys_update_socket.
  - intros q s'. rewrite Hs. unfold socket_leave.
    destruct (string_dec sid q) as [<-|N].
    + rewrite sockets_update_socket_eq.
      destruct (map_get (sockets st) sid) as [s|] eqn:G; [|discriminate].
      intros [= <-]. destruct (TS sid s G) as (I & C & Sh).
      cbn [socket_rooms currentRoom]. repeat split; auto.
      now apply own_and_one_delete.
    + rewrite sockets_update_socket_neq by assumption. apply TS.
  - intros rm' r'. rewrite Hr, rooms_leave_get.
    destruct (eq_dec rm rm'); [|apply TK].
    intros G. apply room_without_Some in G as (r & G & _). eapply TK; eauto.
  - assert (Sh : forall q rm', is_participant st' q rm' = true ->
                               is_participant st q rm' = true).
    { intros q rm'. rewrite !is_participant_members, !members_get, Hr.
      rewrite members_after_leave. destruct (eq_dec rm rm'); auto.
      intros Hin. now apply filter_neq_In in Hin. }
    intros q rm1 rm2 H1 H2. eapply T1; eauto.
Qed.

Lemma tidy_close st sid :
  tidy is_id st -> tidy is_id (with_sockets st (map_delete (sockets st) sid)).
Proof.
  intros (ND & TS & TK & T1). unfold tidy. cbn [with_sockets sockets rooms].
  split; [now apply NoDup_keys_delete|].
  split; [|split; [exact TK | exact T1]].
  intros q s' G. apply map_get_delete_Some in G as [_ G]. now apply TS.
Qed.

Lemma tidy_connection st sid :
  is_id sid = true -> tidy is_id st -> tidy is_id (on_connection st sid).
Proof.
  intros I T. unfold on_connection.
  destruct (in_dec string_dec sid (issued st)); [exact T|].
  destruct T as (ND & TS & TK & T1). unfold tidy. cbn [sockets rooms].
  split; [now apply NoDup_keys_set|].
  split; [|split; [exact TK | exact T1]].
  intros q s'. destruct (string_dec sid q) as [<-|N].
  - rewrite map_get_set_eq. intros [= <-]. cbn [currentRoom socket_rooms room_like].
    repeat split; auto. now left.
  - rewrite map_get_set_neq by assumption. apply TS.
Qed.

Lemma set_talking_members b st sid s rm rm' :
  members (fst (set_talking b st sid s rm)) rm' = members st rm'.
Proof.
  unfold set_talking.
  destruct (map_get (rooms st) rm) as [r|] eqn:G; [|reflexivity].
  destruct (map_get (participants r) sid) as [user|] eqn:Gu; [|reflexivity].
  cbn [fst]. rewrite !members_get. cbn [with_rooms rooms].
  destruct (eq_dec rm rm') as [<-|N].
  - rewrite map_get_set_eq, G. cbn [opt_members with_participants participants].
    apply map_keys_set_present. eapply map_get_In_keys; eauto.
  - now rewrite map_get_set_neq.
Qed.

Lemma set_talking_sockets b st sid s rm :
  sockets (fst (set_talking b st sid s rm)) = sockets st.
Proof.
  unfold set_talking.
  destruct (map_get (rooms st) rm) as [r|]; [|reflexivity].
  destruct (map_get (participants r) sid); reflexivity.
Qed.

Lemma set_talking_keys b st sid s rm rm' r' :
  map_get (rooms (fst (set_talking b st sid s rm))) rm' = Some r' ->
  exists r, map_get (rooms st) rm' = Some r.
Proof.
  unfold set_talking.
  destruct (map_get (rooms st) rm) as [r|] eqn:G; [|eauto].
  destruct (map_get (participants r) sid) as [user|] eqn:Gu; [|eauto].
  cbn [fst with_rooms rooms].
  destruct (eq_dec rm rm') as [<-|N].
  - eauto.
  - rewrite map_get_set_neq by assumption. eauto.
Qed.

Lemma tidy_talking b st sid s rm :
  tidy is_id st -> tidy is_id (fst (set_talking b st sid s rm)).
Proof.
  intros (ND & TS & TK & T1). unfold tidy.
  rewrite set_talking_sockets.
  split; [exact ND|]. split; [exact TS|]. split.
  - intros rm' r' G. apply set_talking_keys in G as [r G]. eapply TK; eauto.
  - intros q rm1 rm2. rewrite !is_participant_members, !set_talking_members.
    rewrite <- !is_participant_members. apply T1.
Qed.

Lemma tidy_sweep st : tidy is_id st -> tidy is_id (sweep st).
Proof.
  intros (ND & TS & TK & T1). unfold tidy, sweep. cbn [with_rooms sockets rooms].
  split; [exact ND|]. split; [exact TS|]. split.
  - intros rm r G. apply fold_delete_get in G. eapply TK; eauto.
  - assert (Sh : forall q rm,
              is_participant (sweep st) q rm = true -> is_participant st q rm = true).
    { intros q rm. unfold is_participant, sweep. cbn [with_rooms rooms].
      destruct (map_get (fold_left _ _ _) rm) as [r|] eqn:G; [|discriminate].
      apply fold_delete_get in G. now rewrite G. }
    intros q rm1 rm2 H1 H2. eapply T1; eauto.
Qed.
End ApartFacts.

Section ApartRuns.
Variable is_id : string -> bool.

(** After the loop of its join handler, a socket is in no registry room. *)
Lemma leave_phase_clears st sid s rm' :
  in_sync st -> tidy is_id st -> map_get (sockets st) sid = Some s ->
  ~ In sid (members (fst (fold_left (leave_existing sid) (socket_rooms s) (st, []))) rm').
Proof.
  intros S (_ & TS & TK & _) Gs.
  rewrite leave_phase_members. cbn [fst].
  destruct (left_by_join sid (socket_rooms s) rm') eqn:L.
  - intros Hin. now apply filter_neq_In in Hin.
  - intros Hin. rewrite members_get in Hin.
    destruct (map_get (rooms st) rm') as [r|] eqn:G; [|contradiction].
    pose proof (S sid s rm' r Gs G Hin) as Hl. apply set_has_true in Hl.
    unfold left_by_join in L. destruct (eq_dec rm' (VStr sid)) as [->|N]; [|congruence].
    destruct (TS sid s Gs) as (I & _). pose proof (TK _ _ G) as K.
    cbn [room_like] in K. rewrite I in K. discriminate.
Qed.

Lemma leave_phase_shrinks sid l acc q rm' :
  In q (members (fst (fold_left (leave_existing sid) l acc)) rm') ->
  In q (members (fst acc) rm').
Proof.
  rewrite leave_phase_members.
  destruct (left_by_join sid l rm'); [|auto].
  intros Hin. now apply filter_neq_In in Hin.
Qed.

Lemma tidy_join now st sid s rm uname :
  wf st -> tidy is_id st -> map_get (sockets st) sid = Some s ->
  room_like is_id rm = true ->
  tidy is_id (fst (join_room now st sid s rm uname)).
Proof.
  intros (_ & S & _) T Gs L.
  pose proof (leave_phase_clears st sid s) as Clr.
  specialize (fun rm' => Clr rm' S T Gs).
  destruct T as (ND & TS & TK & T1).
  destruct (TS sid s Gs) as (I & C & Sh).
  rewrite join_room_eq. cbn [fst]. unfold tidy.
  split; [|split; [|split]].
  - unfold join_new, socket_join. cbn [fst].
    rewrite keys_update_socket. cbn [with_rooms sockets].
    now rewrite keys_update_socket, leave_phase_keys.
  - intros q s'. destruct (string_dec sid q) as [<-|N].
    + rewrite join_new_socket_eq, leave_phase_socket_eq. cbn [fst]. rewrite Gs.
      cbn [option_map socket_rooms]. intros [= <-].
      cbn [socket_rooms currentRoom]. repeat split; auto.
      rewrite own_and_one_loop with (is_id := is_id) by assumption.
      now apply own_and_one_add.
    + rewrite join_new_socket_neq, leave_phase_socket_neq by assumption.
      cbn [fst]. apply TS.
  - intros rm' r'. rewrite join_new_rooms.
    destruct (eq_dec rm rm') as [<-|N]; [auto|].
    rewrite map_get_set_neq, leave_phase_get by assumption. cbn [fst].
    destruct (left_by_join sid (socket_rooms s) rm'); [|apply TK].
    intros G. apply room_without_Some in G as (r & G & _). eapply TK; eauto.
  - intros q rm1 rm2. rewrite !is_participant_members, !join_new_members.
    intros [[<- ->]|H1] [[<- E2]|H2]; auto.
    + exfalso. eapply Clr; eauto.
    + subst q. exfalso. eapply Clr; eauto.
    + apply leave_phase_shrinks in H1, H2. cbn [fst] in *.
      apply (T1 q); now apply is_participant_members.
Qed.

Lemma step_tidy now st e st' out :
  apart_event is_id e = true ->
  step now st e = Returned st' out -> wf st -> tidy is_id st -> tidy is_id st'.
Proof.
  intros A Hstep W T.
  destruct e as [sid|sid p|sid p|sid p|sid p|sid p|sid p|sid p|sid|];
    cbn [step apart_event] in *;
    try (unfold on_socket in Hstep;
         destruct (map_get (sockets st) sid) as [s|] eqn:Gs;
         [|injection Hstep as <- _; exact T]).
  - injection Hstep as <- _. now apply tidy_connection.
  - unfold on_join_room in Hstep. destruct (destructure p) as [f|]; [|discriminate].
    injection Hstep as <- _. now apply tidy_join.
  - unfold on_start_talking in Hstep. destruct (destructure p) as [f|]; [|discriminate].
    injection Hstep as <- _. now apply tidy_talking.
  - unfold on_stop_talking in Hstep. destruct (destructure p) as [f|]; [|discriminate].
    injection Hstep as <- _. now apply tidy_talking.
  - unfold on_offer in Hstep. destruct (destructure p) as [f|]; [|discriminate].
    injection Hstep as <- _. exact T.
  - unfold on_answer in Hstep. destruct (destructure p) as [f|]; [|discriminate].
    injection Hstep as <- _. exact T.
  - unfold on_ice_candidate in Hstep. destruct (destructure p) as [f|]; [|discriminate].
    injection Hstep as <- _. exact T.
  - unfold on_leave_room in Hstep. destruct (destructure p) as [f|]; [|discriminate].
    injection Hstep as <- _.
    eapply tidy_leave; eauto using handleUserLeave_rooms, handleUserLeave_sockets.
  - unfold on_disconnect in Hstep.
    assert (C : room_like is_id (currentRoom s) = true).
    { destruct T as (_ & TS & _). now destruct (TS sid s Gs) as (_ & C & _). }
    destruct (truthy (currentRoom s)).
    + injection Hstep as <- _.
      eapply tidy_leave; eauto using handleUserLeave_rooms, handleUserLeave_sockets.
      now apply tidy_close.
    + injection Hstep as <- _. now apply tidy_close.
  - injection Hstep as <- _. now apply tidy_sweep.
Qed.

Lemma run_tidy tr : forall st st',
  apart is_id tr = true -> wf st -> tidy is_id st ->
  run st tr = Some st' -> tidy is_id st'.
Proof.
  induction tr as [|[now e] tr IH]; intros st st' A W T R; cbn [run] in R.
  - now injection R as <-.
  - cbn [apart forallb snd] in A. apply andb_true_iff in A as [Ae A].
    destruct (step now st e) as [st1 out|] eqn:Hstep; [|discriminate].
    apply (IH st1 st' A); [| |exact R].
    + eapply step_wf; eauto.
    + eapply step_tidy; eauto.
Qed.

Lemma init_tidy : tidy is_id init_state.
Proof.
  unfold tidy, init_state; cbn. repeat split; try constructor; intros; discriminate.
Qed.

Lemma reachable_tidy tr st :
  apart is_id tr = true -> run init_state tr = Some st -> tidy is_id st.
Proof.
  intros A R. eapply run_tidy; eauto using init_wf, init_tidy.
Qed.
End ApartRuns.

Lemma NoDup_In_get {K V} `{EqDec K} (m : jsmap K V) k v :
  NoDup (map_keys m) -> In (k, v) m -> map_get m k = Some v.
Proof.
  induction m as [|[k' v'] m IH]; cbn [map_keys map fst In map_get]; [tauto|].
  intros N Hin. inversion N as [|? ? Hnin Hnd]; subst.
  destruct Hin as [[= -> ->]|Hin].
  - destruct (eq_dec k k); congruence.
  - destruct (eq_dec k' k) as [->|E]; [|auto].
    exfalso. apply Hnin. change (In k (map fst m)). apply in_map_iff.
    exists (k, v). auto.
Qed.

Lemma filter_only {K V} `{EqDec K} (P : K * V -> bool) (m : jsmap K V) t v :
  NoDup (map_keys m) -> map_get m t = Some v ->
  (forall k x, In (k, x) m -> (P (k, x) = true <-> k = t)) ->
  filter P m = [(t, v)].
Proof.
  induction m as [|[k' v'] m IH]; cbn [map_keys map fst map_get filter];
    [discriminate|].
  intros N G HP. inversion N as [|? ? Hnin Hnd]; subst.
  assert (HP' : forall k x, In (k, x) m -> (P (k, x) = true <-> k = t)).
  { intros k x Hin. apply HP. now right. }
  destruct (eq_dec k' t) as [->|E].
  - injection G as ->.
    assert (Pt : P (t, v) = true) by (apply HP; [now left | reflexivity]).
    rewrite Pt. f_equal.
    assert (Hnone : forall e, In e m -> P e = false).
    { intros [k x] Hin. destruct (P (k, x)) eqn:Pk; [|reflexivity].
      apply HP' in Pk; [|assumption]. subst k. exfalso. apply Hnin.
      change (In t (map fst m)). apply in_map_iff. exists (t, x). auto. }
    clear -Hnone. induction m as [|e m IH]; [reflexivity|].
    cbn [filter]. rewrite (Hnone e) by now left.
    apply IH. intros e' Hin. apply Hnone. now right.
  - destruct (P (k', v')) eqn:Pk.
    + apply HP in Pk; [contradiction | now left].
    + now apply IH.
Qed.

Section ApartTheorems.
Variable is_id : string -> bool.

(** In a tidy state the socket.io room named by an open socket's id has
    that socket as its only member. *)
Lemma own_room_members st t s :
  tidy is_id st -> map_get (sockets st) t = Some s ->
  room_members st (VStr t) = [t].
Proof.
  intros (ND & TS & _) G. unfold room_members.
  rewrite (filter_only _ (sockets st) t s ND G); [reflexivity|].
  intros q x Hin. cbn [snd].
  pose proof (NoDup_In_get _ _ _ ND Hin) as Gq.
  destruct (TS q x Gq) as (Iq & _ & Sh).
  destruct (TS t s G) as (It & _).
  rewrite set_has_true.
  destruct Sh as [->|(rm0 & L0 & ->)]; cbn [In]; split.
  - intros [[= ->]|[]]. reflexivity.
  - intros ->. now left.
  - intros [[= ->]|[->|[]]]; [reflexivity|].
    cbn [room_like] in L0. rewrite It in L0. discriminate.
  - intros ->. now left.
Qed.

(** So in a tidy state [socket.to(r)] from an open socket reaches the
    members of [r] other than the sender. *)
Lemma tidy_socket_to st sid s rm :
  tidy is_id st -> map_get (sockets st) sid = Some s ->
  socket_to st sid rm = filter (string_neqb sid) (room_members st rm).
Proof.
  intros T G. unfold socket_to. rewrite (own_room_members st sid s T G).
  apply filter_ext. intros q. cbn [set_has]. unfold string_neqb.
  destruct (eq_dec sid q) as [E|E]; destruct (string_dec sid q); cbn [orb negb];
    congruence.
Qed.

Lemma tidy_in_own_room st sid s :
  tidy is_id st -> map_get (sockets st) sid = Some s -> in_own_room st sid.
Proof.
  intros (_ & TS & _) G. exists s. split; [assumption|].
  destruct (TS sid s G) as (_ & _ & [->|(rm0 & _ & ->)]); now left.
Qed.

Lemma tidy_own_room_private st sid s :
  tidy is_id st -> map_get (sockets st) sid = Some s -> own_room_private st sid.
Proof.
  intros T G q Hin. rewrite (own_room_members st sid s T G) in Hin.
  destruct Hin as [<-|[]]. reflexivity.
Qed.
End ApartTheorems.

Lemma leave_existing_out_eq sid st out A r :
  A <> VStr sid -> map_get (rooms st) A = Some r ->
  snd (leave_existing sid (st, out) A)
  = out ++ (if Nat.eqb (map_size (map_delete (participants r) sid)) 0 then []
            else [mkEmission (socket_to (socket_leave st sid A) sid A)
                    (UserLeft (map_values (map_delete (participants r) sid)))]).
Proof.
  intros N G. unfold leave_existing.
  destruct (eq_dec A (VStr sid)); [contradiction|].
  unfold socket_leave at 1. rewrite rooms_update_socket, G. cbv zeta.
  destruct (Nat.eqb _ 0); cbn [snd]; [now rewrite app_nil_r | reflexivity].
Qed.

Lemma leave_phase_own_and sid st A :
  fold_left (leave_existing sid) [VStr sid; A] (st, [])
  = leave_existing sid (st, []) A.
Proof.
  cbn [fold_left]. unfold leave_existing at 2.
  destruct (eq_dec (VStr sid) (VStr sid)); [reflexivity | congruence].
Qed.

(** ** What holds when room names and connection ids are kept apart *)

(** Nearby C2.  Along every run in which connections get ids from some
    set of strings and no join-room or leave-room names a room by one of
    those strings, nobody is a participant of two rooms of the registry. *)
Theorem one_room_when_names_apart :
  forall is_id tr st,
    apart is_id tr = true -> run init_state tr = Some st ->
    forall sid rm rm',
      is_participant st sid rm = true -> is_participant st sid rm' = true ->
      rm = rm'.
Proof.
  intros is_id tr st A R.
  now destruct (reachable_tidy is_id tr st A R) as (_ & _ & _ & T1).
Qed.

Lemma one_room_when_names_apart_witness :
  apart short_ids example_trace = true
  /\ run init_state example_trace = Some two_in_R1
  /\ forall rm, is_participant two_in_R1 "a" rm = true -> VStr "R1" = rm.
Proof.
  split; [reflexivity|]. split; [reflexivity|].
  intros rm.
  exact (one_room_when_names_apart short_ids example_trace two_in_R1 eq_refl eq_refl
           "a" (VStr "R1") rm eq_refl).
Defined.

(** Nearby C2 and C9.  In such a run, let an open socket that is a
    participant of room A join a room named like a room (A itself, or
    another).  The handler first takes the socket out of A: if other
    participants remain it sends them -- every one whose socket is open, and
    not the joiner -- a user-left with the remaining records, and if none
    remain it deletes A and sends nothing; only then does it send the
    user-joined.  Afterwards the socket is a participant of the joined room
    and of no other, A (when it is not the joined room) keeps exactly its
    other participants, and the joined room lists its former other
    participants in their order followed by the joiner. *)
Theorem join_leaves_previous_room_first :
  forall is_id tr st,
    apart is_id tr = true -> run init_state tr = Some st ->
    forall now sid s p f A r,
      map_get (sockets st) sid = Some s -> destructure p = Some f ->
      room_like is_id (f "room") = true ->
      map_get (rooms st) A = Some r -> map_has (participants r) sid = true ->
      exists st' joined,
        step now st (JoinRoom sid p)
        = Returned st'
            ((if Nat.eqb (map_size (map_delete (participants r) sid)) 0 then []
              else [mkEmission (socket_to (socket_leave st sid A) sid A)
                      (UserLeft (map_values (map_delete (participants r) sid)))])
             ++ [joined])
        /\ (exists ps, msg joined = UserJoined ps)
        /\ (forall rm, is_participant st' sid rm = true <-> rm = f "room")
        /\ (A <> f "room" ->
            members st' A = filter (string_neqb sid) (members st A))
        /\ members st' (f "room")
           = filter (string_neqb sid) (members st (f "room")) ++ [sid]
        /\ ~ In sid (socket_to (socket_leave st sid A) sid A)
        /\ (forall q, In q (map_keys (participants r)) -> q <> sid ->
                      connected st q = true ->
                      In q (socket_to (socket_leave st sid A) sid A)).
Proof.
  intros is_id tr st Ap R now sid s p f A r Gs D L G P.
  pose proof (reachable_wf tr st R) as W.
  pose proof (reachable_tidy is_id tr st Ap R) as T.
  pose proof (tidy_join is_id now st sid s (f "room") (f "userName") W T Gs L) as T'.
  destruct W as (_ & S & _).
  assert (TL : tidy is_id (with_rooms (socket_leave st sid A)
                                      (rooms_leave (rooms st) sid A))).
  { pose proof T as (_ & _ & TK & _).
    exact (tidy_leave is_id st
             (with_rooms (socket_leave st sid A) (rooms_leave (rooms st) sid A))
             sid A (TK A r G) eq_refl eq_refl T). }
  assert (GL : exists sl, map_get (sockets (with_rooms (socket_leave st sid A)
                                             (rooms_leave (rooms st) sid A))) sid
                          = Some sl).
  { cbn [with_rooms sockets]. unfold socket_leave.
    rewrite sockets_update_socket_eq, Gs. cbn [option_map]. eauto. }
  destruct GL as [sl GL].
  destruct T as (ND & TS & TK & T1).
  destruct (TS sid s Gs) as (I & _ & Sh).
  apply map_has_true in P.
  pose proof (S sid s A r Gs G P) as HA.
  pose proof (room_like_not_id is_id sid A I (TK A r G)) as NA.
  pose proof (room_like_not_id is_id sid (f "room") I L) as NR.
  assert (Hl : socket_rooms s = [VStr sid; A]).
  { destruct Sh as [E|(rm0 & _ & E)]; rewrite E in HA; cbn [In] in HA.
    - destruct HA as [?|[]]. congruence.
    - destruct HA as [?|[?|[]]]; congruence. }
  rewrite (step_join now st sid s p f Gs D). unfold returned.
  set (st' := fst (join_room now st sid s (f "room") (f "userName"))) in *.
  assert (Hout : snd (join_room now st sid s (f "room") (f "userName"))
                 = (if Nat.eqb (map_size (map_delete (participants r) sid)) 0 then []
                    else [mkEmission (socket_to (socket_leave st sid A) sid A)
                            (UserLeft (map_values (map_delete (participants r) sid)))])
                   ++ [snd (join_new now
                              (fst (fold_left (leave_existing sid) (socket_rooms s) (st, [])))
                              sid (f "room") (f "userName"))]).
  { rewrite join_room_eq. cbn [snd]. f_equal.
    rewrite Hl, leave_phase_own_and.
    now rewrite (leave_existing_out_eq sid st [] A r NA G). }
  assert (Hin : In sid (members st' (f "room"))).
  { subst st'. rewrite join_room_eq. cbn [fst]. apply join_new_members. now left. }
  eexists. eexists. split; [now rewrite Hout|].
  split; [rewrite join_new_emission; cbn [msg]; eauto|].
  split.
  { intros rm. split.
    - intros Hp. destruct T' as (_ & _ & _ & T1'). fold st' in T1'.
      apply (T1' sid); [assumption | now apply is_participant_members].
    - intros ->. now apply is_participant_members. }
  split.
  { intros NAR. subst st'. rewrite join_room_eq. cbn [fst].
    rewrite members_get, join_new_rooms, map_get_set_neq by congruence.
    rewrite <- members_get, leave_phase_members. cbn [fst].
    unfold left_by_join. destruct (eq_dec A (VStr sid)); [contradiction|].
    apply set_has_true in HA. now rewrite HA. }
  split.
  { subst st'. rewrite (join_room_members now st sid s (f "room") (f "userName") S Gs).
    destruct (eq_dec (f "room") (VStr sid)); [contradiction | reflexivity]. }
  split.
  { apply (socket_to_excludes_sender
             (with_rooms (socket_leave st sid A) (rooms_leave (rooms st) sid A))).
    exact (tidy_in_own_room is_id _ sid sl TL GL). }
  intros q Hq Nq Cq. apply connected_get in Cq as [sq Gq].
  apply (socket_to_intro
           (with_rooms (socket_leave st sid A) (rooms_leave (rooms st) sid A)));
    [exact (tidy_own_room_private is_id _ sid sl TL GL) | assumption |].
  apply room_members_intro with (s := sq).
  - cbn [with_rooms sockets]. unfold socket_leave.
    rewrite sockets_update_socket_neq; auto.
  - eapply S; eauto.
Qed.

Lemma join_leaves_previous_room_first_witness :
  apart short_ids example_trace = true
  /\ run init_state example_trace = Some two_in_R1
  /\ exists st' joined,
       step 5 two_in_R1 (JoinRoom "a" (obj (VStr "R1") (VStr "Alice")))
       = Returned st'
           ([mkEmission ["b"] (UserLeft [mkParticipant "b" (VStr "Bob") false 4])]
            ++ [joined])
       /\ members st' (VStr "R1") = ["b"; "a"].
Proof.
  split; [reflexivity|]. split; [reflexivity|].
  destruct (join_leaves_previous_room_first short_ids example_trace two_in_R1
              eq_refl eq_refl 5%Z "a"
              (mkSocket [VStr "a"; VStr "R1"] (VStr "Alice") (VStr "R1"))
              (obj (VStr "R1") (VStr "Alice"))
              (get_field [("room", VStr "R1"); ("userName", VStr "Alice")])
              (VStr "R1")
              (mkRoom (VStr "R1")
                 [("a", mkParticipant "a" (VStr "Alice") false 3);
                  ("b", mkParticipant "b" (VStr "Bob") false 4)] 3)
              eq_refl eq_refl eq_refl eq_refl eq_refl)
    as (st' & joined & H1 & _ & _ & _ & H5 & _).
  exists st', joined. split; [exact H1 | exact H5].
Defined.

(** Nearby C7.  In such a run, an offer, answer or ice-candidate from an
    open socket to the id of another open socket is one emission, received
    by that socket alone, carrying the payload field, the sender's id and
    the room name as they came; the state is unchanged. *)
Theorem relay_reaches_only_target :
  forall is_id tr st,
    apart is_id tr = true -> run init_state tr = Some st ->
    forall now sid s t s_t p f,
      map_get (sockets st) sid = Some s -> map_get (sockets st) t = Some s_t ->
      t <> sid -> destructure p = Some f -> f "to" = VStr t ->
      step now st (OfferEv sid p)
      = Returned st [mkEmission [t] (Offer (f "offer") sid (f "room"))]
      /\ step now st (AnswerEv sid p)
         = Returned st [mkEmission [t] (Answer (f "answer") sid (f "room"))]
      /\ step now st (IceCandidateEv sid p)
         = Returned st [mkEmission [t] (IceCandidate (f "candidate") sid (f "room"))].
Proof.
  intros is_id tr st Ap R now sid s t s_t p f Gs Gt N D Hto.
  pose proof (reachable_tidy is_id tr st Ap R) as T.
  assert (Hr : socket_to st sid (f "to") = [t]).
  { rewrite Hto, (tidy_socket_to is_id st sid s (VStr t) T Gs).
    rewrite (own_room_members is_id st t s_t T Gt).
    cbn [filter]. unfold string_neqb. destruct (string_dec sid t); congruence. }
  cbn [step]. unfold on_socket, on_offer, on_answer, on_ice_candidate.
  rewrite Gs, D, Hr. repeat split.
Qed.

Lemma relay_reaches_only_target_witness :
  apart short_ids example_trace = true
  /\ run init_state example_trace = Some two_in_R1
  /\ step 5 two_in_R1 (OfferEv "a" (offer_to (VStr "sdp") (VStr "b") (VStr "R1")))
     = Returned two_in_R1 [mkEmission ["b"] (Offer (VStr "sdp") "a" (VStr "R1"))].
Proof.
  split; [reflexivity|]. split; [reflexivity|].
  exact (proj1 (relay_reaches_only_target short_ids example_trace two_in_R1
                  eq_refl eq_refl 5%Z "a" _ "b" _
                  (offer_to (VStr "sdp") (VStr "b") (VStr "R1"))
                  (get_field [("offer", VStr "sdp"); ("to", VStr "b"); ("room", VStr "R1")])
                  eq_refl eq_refl ltac:(discriminate) eq_refl eq_refl)).
Defined.

(** ** The registry after a second leave *)

Lemma handleUserLeave_not_participant st sid rm :
  is_participant (fst (handleUserLeave st sid rm)) sid rm = false.
Proof.
  destruct (is_participant _ sid rm) eqn:P; [|reflexivity].
  apply is_participant_members in P.
  rewrite members_get, handleUserLeave_rooms, members_after_leave in P.
  destruct (eq_dec rm rm); [|congruence].
  apply filter_neq_In in P. tauto.
Qed.

Lemma handleUserLeave_absent_out st sid rm :
  map_get (rooms st) rm = None -> snd (handleUserLeave st sid rm) = [].
Proof. intros G. unfold handleUserLeave. now rewrite G. Qed.

(** Nearby C4.  After any run, when an open socket has sent leave-room
    for a room, it is no participant of that room; a second leave for the
    same room -- another leave-room, or the disconnect of the socket when it
    records that room as current -- returns and leaves the registry exactly
    as the first leave left it, and emits nothing if the room is gone from
    the registry. *)
Theorem second_leave_keeps_registry :
  forall tr st, run init_state tr = Some st ->
  forall now sid s p f,
    map_get (sockets st) sid = Some s -> destructure p = Some f ->
    exists st1 out1,
      step now st (LeaveRoom sid p) = Returned st1 out1
      /\ is_participant st1 sid (f "room") = false
      /\ (forall now2, exists st2 out2,
            step now2 st1 (LeaveRoom sid p) = Returned st2 out2
            /\ rooms st2 = rooms st1
            /\ (map_get (rooms st1) (f "room") = None -> out2 = []))
      /\ (currentRoom s = f "room" -> truthy (f "room") = true ->
          forall now2, exists st2 out2,
            step now2 st1 (Disconnect sid) = Returned st2 out2
            /\ rooms st2 = rooms st1
            /\ (map_get (rooms st1) (f "room") = None -> out2 = [])).
Proof.
  intros tr st R now sid s p f Gs D.
  pose proof (reachable_wf tr st R) as W.
  rewrite (step_leave now st sid s p f Gs D). unfold returned.
  set (st1 := fst (handleUserLeave st sid (f "room"))).
  pose proof (handleUserLeave_wf st sid (f "room") W) as (N1 & _). fold st1 in N1.
  pose proof (handleUserLeave_not_participant st sid (f "room")) as P1. fold st1 in P1.
  assert (Gs1 : map_get (sockets st1) sid
                = Some (mkSocket (set_delete (socket_rooms s) (f "room"))
                                 (userName s) (currentRoom s))).
  { subst st1. rewrite handleUserLeave_sockets. unfold socket_leave.
    now rewrite sockets_update_socket_eq, Gs. }
  exists st1, (snd (handleUserLeave st sid (f "room"))).
  split; [reflexivity|]. split; [exact P1|]. split.
  - intros now2. rewrite (step_leave now2 st1 sid _ p f Gs1 D). unfold returned.
    eexists. eexists. split; [reflexivity|]. split.
    + rewrite handleUserLeave_rooms. now apply rooms_leave_stranger.
    + apply handleUserLeave_absent_out.
  - intros C T now2.
    rewrite (step_disconnect now2 st1 sid _ Gs1) by (cbn [currentRoom]; congruence).
    cbn [currentRoom]. rewrite C. unfold returned.
    eexists. eexists. split; [reflexivity|]. split.
    + rewrite handleUserLeave_rooms.
      apply (rooms_leave_stranger (with_sockets st1 (map_delete (sockets st1) sid)));
        [exact N1 | exact P1].
    + apply (handleUserLeave_absent_out (with_sockets st1 (map_delete (sockets st1) sid))).
Qed.

Lemma second_leave_keeps_registry_witness :
  run init_state example_trace = Some two_in_R1
  /\ exists st1 out1,
       step 5 two_in_R1 (LeaveRoom "a" (room_only (VStr "R1"))) = Returned st1 out1
       /\ is_participant st1 "a" (VStr "R1") = false.
Proof.
  split; [reflexivity|].
  destruct (second_leave_keeps_registry example_trace two_in_R1 eq_refl 5%Z "a"
              (mkSocket [VStr "a"; VStr "R1"] (VStr "Alice") (VStr "R1"))
              (room_only (VStr "R1")) (get_field [("room", VStr "R1")])
              eq_refl eq_refl)
    as (st1 & out1 & H1 & H2 & _).
  exists st1, out1. split; [exact H1 | exact H2].
Defined.

(** * Further properties of the handlers *)

(** ** More laws of the map operations *)

Lemma In_map_delete {K V} `{EqDec K} (m : jsmap K V) k k' v :
  In (k', v) (map_delete m k) -> k' <> k /\ In (k', v) m.
Proof.
  induction m as [|[k0 v0] m IH]; cbn [map_delete In]; [tauto|].
  destruct (eq_dec k0 k) as [E|E].
  - intros Hin. apply IH in Hin. tauto.
  - cbn [In]. intros [[= -> ->]|Hin]; [auto|]. apply IH in Hin. tauto.
Qed.

Lemma In_map_set {K V} `{EqDec K} (m : jsmap K V) k v k' v' :
  In (k', v') (map_set m k v) -> (k', v') = (k, v) \/ In (k', v') m.
Proof.
  induction m as [|[k0 v0] m IH]; cbn [map_set In].
  - intros [?|[]]. now left.
  - destruct (eq_dec k0 k) as [E|E]; cbn [In].
    + intros [?|?]; auto.
    + intros [?|Hin]; auto. apply IH in Hin. tauto.
Qed.

Lemma map_get_In {K V} `{EqDec K} (m : jsmap K V) k v :
  map_get m k = Some v -> In (k, v) m.
Proof.
  induction m as [|[k0 v0] m IH]; cbn [map_get In]; [discriminate|].
  destruct (eq_dec k0 k) as [->|E]; [intros [= ->]; now left | auto].
Qed.

Lemma map_set_set {K V} `{EqDec K} (m : jsmap K V) k v v' :
  map_set (map_set m k v) k v' = map_set m k v'.
Proof.
  induction m as [|[k0 v0] m IH]; cbn [map_set].
  - destruct (eq_dec k k); congruence.
  - destruct (eq_dec k0 k) as [E|E]; cbn [map_set].
    + destruct (eq_dec k k); congruence.
    + destruct (eq_dec k0 k); [contradiction|]. now rewrite IH.
Qed.

Lemma filter_none {A} (P : A -> bool) (l : list A) :
  (forall x, In x l -> P x = false) -> filter P l = [].
Proof.
  induction l as [|x l IH]; [reflexivity|]. intros Hn. cbn [filter].
  rewrite (Hn x) by now left. apply IH. intros y Hy. apply Hn. now right.
Qed.

Lemma room_members_elim st q rm :
  NoDup (map_keys (sockets st)) -> In q (room_members st rm) ->
  exists s, map_get (sockets st) q = Some s /\ In rm (socket_rooms s).
Proof.
  intros ND Hin. unfold room_members, map_keys in Hin.
  apply in_map_iff in Hin as ([q' s] & E & Hin). cbn [fst] in E. subst q'.
  apply filter_In in Hin as [Hin Hs]. cbn [snd] in Hs.
  exists s. split; [now apply NoDup_In_get | now apply set_has_true].
Qed.

Lemma room_members_connected st q rm :
  In q (room_members st rm) -> connected st q = true.
Proof.
  unfold room_members, map_keys, connected. intros Hin.
  apply in_map_iff in Hin as ([q' s] & E & Hin). cbn [fst] in E. subst q'.
  apply filter_In in Hin as [Hin _]. apply map_has_true.
  unfold map_keys. apply in_map_iff. exists (q, s). auto.
Qed.

Lemma socket_to_elim st sid q rm :
  In q (socket_to st sid rm) ->
  In q (room_members st rm) /\ ~ In q (room_members st (VStr sid)).
Proof. apply socket_to_iff. Qed.

(** ** The further invariants hold along every run *)

Lemma well_kept_ext st st' :
  rooms st' = rooms st -> sockets st' = sockets st ->
  well_kept st -> well_kept st'.
Proof.
  intros Hr Hs K.
  unfold well_kept, distinct_keys, joined_rooms_registered, records_keyed_by_id,
    rooms_named, members in *. rewrite Hr, Hs. exact K.
Qed.

Lemma well_kept_leave st st' sid rm :
  rooms st' = rooms_leave (rooms st) sid rm ->
  sockets st' = sockets (socket_leave st sid rm) ->
  well_kept st -> well_kept st'.
Proof.
  intros Hr Hs ((NDr & NDs & NDp) & J & RK & RN).
  split; [split; [|split]|split; [|split]].
  - rewrite Hr. unfold rooms_leave.
    destruct (map_get (rooms st) rm) as [r|]; [|assumption].
    cbv zeta. destruct (Nat.eqb _ 0);
      [now apply NoDup_keys_delete | now apply NoDup_keys_set].
  - rewrite Hs. unfold socket_leave. now rewrite keys_update_socket.
  - intros rm' r'. rewrite Hr, rooms_leave_get.
    destruct (eq_dec rm rm'); [|apply NDp].
    intros G. apply room_without_Some in G as (r & G & -> & _).
    cbn [with_participants participants]. apply NoDup_keys_delete. eapply NDp; eauto.
  - intros q s' rm' Gs Hin Nown. rewrite members_get, Hr, members_after_leave.
    rewrite Hs in Gs. unfold socket_leave in Gs.
    destruct (string_dec sid q) as [<-|Nq].
    + rewrite sockets_update_socket_eq in Gs.
      destruct (map_get (sockets st) sid) as [s|] eqn:G0; [|discriminate].
      injection Gs as <-. cbn [socket_rooms] in Hin.
      apply set_has_true, set_has_delete in Hin as [Nrm Hin].
      apply set_has_true in Hin.
      destruct (eq_dec rm rm'); [congruence|]. eapply J; eauto.
    + rewrite sockets_update_socket_neq in Gs by assumption.
      pose proof (J q s' rm' Gs Hin Nown) as Hm.
      destruct (eq_dec rm rm'); [|exact Hm].
      apply filter_neq_In. split; [congruence | exact Hm].
  - intros rm' r' k u. rewrite Hr, rooms_leave_get.
    destruct (eq_dec rm rm'); [|apply RK].
    intros G. apply room_without_Some in G as (r & G & -> & _).
    cbn [with_participants participants]. intros Hin.
    apply In_map_delete in Hin as [_ Hin]. eapply RK; eauto.
  - intros rm' r'. rewrite Hr, rooms_leave_get.
    destruct (eq_dec rm rm'); [|apply RN].
    intros G. apply room_without_Some in G as (r & G & -> & _).
    cbn [with_participants room_name]. eapply RN; eauto.
Qed.

Lemma handleUserLeave_well_kept st sid rm :
  well_kept st -> well_kept (fst (handleUserLeave st sid rm)).
Proof.
  apply well_kept_leave with (sid := sid) (rm := rm).
  - apply handleUserLeave_rooms.
  - apply handleUserLeave_sockets.
Qed.

Lemma leave_phase_well_kept sid l : forall acc,
  well_kept (fst acc) -> well_kept (fst (fold_left (leave_existing sid) l acc)).
Proof.
  induction l as [|rn l IH]; intros acc K; cbn [fold_left]; [exact K|].
  apply IH. destruct acc as [st out]. cbn [fst] in K.
  pose proof (leave_existing_rooms sid st out rn) as Hr.
  pose proof (leave_existing_sockets sid st out rn) as Hs.
  destruct (eq_dec rn (VStr sid)).
  - eapply well_kept_ext; eauto.
  - eapply well_kept_leave; eauto.
Qed.

Lemma room_or_new_cases now rs rm :
  (exists r, map_get rs rm = Some r /\ room_or_new now rs rm = r)
  \/ (map_get rs rm = None /\ room_or_new now rs rm = mkRoom rm [] now).
Proof. unfold room_or_new. destruct (map_get rs rm); eauto. Qed.

Lemma join_new_well_kept now st1 sid rm uname :
  well_kept st1 -> well_kept (fst (join_new now st1 sid rm uname)).
Proof.
  intros ((NDr & NDs & NDp) & J & RK & RN).
  split; [split; [|split]|split; [|split]].
  - rewrite join_new_rooms. now apply NoDup_keys_set.
  - unfold join_new, socket_join. cbn [fst].
    rewrite keys_update_socket. cbn [with_rooms sockets].
    now rewrite keys_update_socket.
  - intros rm' r'. rewrite join_new_rooms.
    destruct (eq_dec rm rm') as [<-|N].
    + rewrite map_get_set_eq. intros [= <-]. cbn [with_participants participants].
      apply NoDup_keys_set.
      destruct (room_or_new_cases now (rooms st1) rm) as [(r & G & ->)|(_ & ->)].
      * eapply NDp; eauto.
      * constructor.
    + rewrite map_get_set_neq by assumption. apply NDp.
  - intros q s' rm' Gs Hin Nown. apply join_new_members.
    destruct (string_dec sid q) as [<-|Nq].
    + rewrite join_new_socket_eq in Gs.
      destruct (map_get (sockets st1) sid) as [s1|] eqn:G1; [|discriminate].
      injection Gs as <-. cbn [socket_rooms] in Hin.
      apply set_has_true, set_has_add in Hin as [->|Hin]; [now left|].
      right. apply set_has_true in Hin. eapply J; eauto.
    + rewrite join_new_socket_neq in Gs by assumption. right. eapply J; eauto.
  - intros rm' r' k u. rewrite join_new_rooms.
    destruct (eq_dec rm rm') as [<-|N].
    + rewrite map_get_set_eq. intros [= <-]. cbn [with_participants participants].
      intros Hin. apply In_map_set in Hin as [[= -> ->]|Hin]; [reflexivity|].
      destruct (room_or_new_cases now (rooms st1) rm) as [(r & G & E)|(_ & E)];
        rewrite E in Hin.
      * eapply RK; eauto.
      * contradiction.
    + rewrite map_get_set_neq by assumption. apply RK.
  - intros rm' r'. rewrite join_new_rooms.
    destruct (eq_dec rm rm') as [<-|N].
    + rewrite map_get_set_eq. intros [= <-]. cbn [with_participants room_name].
      destruct (room_or_new_cases now (rooms st1) rm) as [(r & G & ->)|(_ & ->)].
      * eapply RN; eauto.
      * reflexivity.
    + rewrite map_get_set_neq by assumption. apply RN.
Qed.

Lemma join_room_well_kept now st sid s rm uname :
  well_kept st -> well_kept (fst (join_room now st sid s rm uname)).
Proof.
  intros K. rewrite join_room_eq. cbn [fst].
  apply join_new_well_kept. now apply leave_phase_well_kept.
Qed.

Lemma set_talking_well_kept b st sid s rm :
  well_kept st -> well_kept (fst (set_talking b st sid s rm)).
Proof.
  intros K. pose proof K as ((NDr & NDs & NDp) & J & RK & RN).
  unfold set_talking.
  destruct (map_get (rooms st) rm) as [r|] eqn:G; [|exact K].
  destruct (map_get (participants r) sid) as [user|] eqn:Gu; [|exact K].
  cbn [fst].
  split; [split; [|split]|split; [|split]]; cbn [with_rooms rooms sockets].
  - now apply NoDup_keys_set.
  - exact NDs.
  - intros rm' r'. destruct (eq_dec rm rm') as [<-|N].
    + rewrite map_get_set_eq. intros [= <-]. cbn [with_participants participants].
      apply NoDup_keys_set. eapply NDp; eauto.
    + rewrite map_get_set_neq by assumption. apply NDp.
  - intros q s' rm' Gs Hin Nown.
    pose proof (set_talking_members b st sid s rm rm') as E.
    unfold set_talking in E. rewrite G, Gu in E. cbn [fst] in E. rewrite E.
    eapply J; eauto.
  - intros rm' r' k u. cbn [with_rooms rooms]. destruct (eq_dec rm rm') as [<-|N].
    + rewrite map_get_set_eq. intros [= <-]. cbn [with_participants participants].
      intros Hin. apply In_map_set in Hin as [[= -> ->]|Hin].
      * cbn [id]. eapply RK; eauto. now apply map_get_In.
      * eapply RK; eauto.
    + rewrite map_get_set_neq by assumption. apply RK.
  - intros rm' r'. cbn [with_rooms rooms]. destruct (eq_dec rm rm') as [<-|N].
    + rewrite map_get_set_eq. intros [= <-]. cbn [with_participants room_name].
      eapply RN; eauto.
    + rewrite map_get_set_neq by assumption. apply RN.
Qed.

Lemma well_kept_close st sid :
  well_kept st -> well_kept (with_sockets st (map_delete (sockets st) sid)).
Proof.
  intros ((NDr & NDs & NDp) & J & RK & RN).
  split; [split; [|split]|split; [|split]]; cbn [with_sockets rooms sockets]; auto.
  - now apply NoDup_keys_delete.
  - intros q s' rm' Gs. apply map_get_delete_Some in Gs as [_ Gs]. apply (J q s' rm' Gs).
Qed.

Lemma on_connection_well_kept st sid : well_kept st -> well_kept (on_connection st sid).
Proof.
  intros K. unfold on_connection.
  destruct (in_dec string_dec sid (issued st)); [exact K|].
  destruct K as ((NDr & NDs & NDp) & J & RK & RN).
  split; [split; [|split]|split; [|split]]; cbn [rooms sockets]; auto.
  - now apply NoDup_keys_set.
  - intros q s' rm'. cbn [sockets]. destruct (string_dec sid q) as [<-|Nq].
    + rewrite map_get_set_eq. intros [= <-]. cbn [socket_rooms In].
      intros [<-|[]] N. congruence.
    + rewrite map_get_set_neq by assumption. apply J.
Qed.

(** On a state without empty rooms the sweep finds nothing to delete. *)
Lemma sweep_nothing st :
  rooms_nonempty st -> NoDup (map_keys (rooms st)) -> sweep st = st.
Proof.
  intros N ND. unfold sweep. rewrite filter_none.
  - cbn [map_keys map fold_left]. now destruct st.
  - intros [rm r] Hin. cbn [snd].
    apply map_delete_size_pos. apply (N rm). now apply NoDup_In_get.
Qed.

Lemma step_well_kept now st e st' out :
  step now st e = Returned st' out -> wf st -> well_kept st -> well_kept st'.
Proof.
  intros Hstep W K.
  destruct e as [sid|sid p|sid p|sid p|sid p|sid p|sid p|sid p|sid|]; cbn [step] in Hstep;
    try (unfold on_socket in Hstep;
         destruct (map_get (sockets st) sid) as [s|] eqn:Gs;
         [|injection Hstep as <- _; exact K]).
  - injection Hstep as <- _. now apply on_connection_well_kept.
  - unfold on_join_room in Hstep. destruct (destructure p) as [f|]; [|discriminate].
    injection Hstep as <- _. now apply join_room_well_kept.
  - unfold on_start_talking in Hstep. destruct (destructure p) as [f|]; [|discriminate].
    injection Hstep as <- _. now apply set_talking_well_kept.
  - unfold on_stop_talking in Hstep. destruct (destructure p) as [f|]; [|discriminate].
    injection Hstep as <- _. now apply set_talking_well_kept.
  - unfold on_offer in Hstep. destruct (destructure p) as [f|]; [|discriminate].
    injection Hstep as <- _. exact K.
  - unfold on_answer in Hstep. destruct (destructure p) as [f|]; [|discriminate].
    injection Hstep as <- _. exact K.
  - unfold on_ice_candidate in Hstep. destruct (destructure p) as [f|]; [|discriminate].
    injection Hstep as <- _. exact K.
  - unfold on_leave_room in Hstep. destruct (destructure p) as [f|]; [|discriminate].
    injection Hstep as <- _. now apply handleUserLeave_well_kept.
  - unfold on_disconnect in Hstep. destruct (truthy (currentRoom s)).
    + injection Hstep as <- _. apply handleUserLeave_well_kept. now apply well_kept_close.
    + injection Hstep as <- _. now apply well_kept_close.
  - injection Hstep as <- _. rewrite sweep_nothing; [exact K | apply W | apply K].
Qed.

Lemma init_well_kept : well_kept init_state.
Proof.
  unfold well_kept, distinct_keys, joined_rooms_registered, records_keyed_by_id,
    rooms_named, init_state; cbn.
  repeat split; try constructor; intros; discriminate.
Qed.

Lemma run_well_kept tr : forall st st',
  wf st -> well_kept st -> run st tr = Some st' -> well_kept st'.
Proof.
  induction tr as [|[now e] tr IH]; intros st st' W K R; cbn [run] in R.
  - now injection R as <-.
  - destruct (step now st e) as [st1 out|] eqn:Hstep; [|discriminate].
    apply (IH st1 st'); [| |exact R].
    + eapply step_wf; eauto.
    + eapply step_well_kept; eauto.
Qed.

Lemma reachable_well_kept tr st : run init_state tr = Some st -> well_kept st.
Proof. apply run_well_kept; [apply init_wf | apply init_well_kept]. Qed.

(** ** socket.io rooms against the registry *)

Lemma room_members_sound tr st :
  run init_state tr = Some st ->
  forall q rm, In q (room_members st rm) ->
               connected st q = true
               /\ (is_participant st q rm = true \/ rm = VStr q).
Proof.
  intros R q rm Hin.
  pose proof (reachable_well_kept tr st R) as ((_ & NDs & _) & J & _).
  split; [eapply room_members_connected; eauto|].
  apply room_members_elim in Hin as (s & Gs & Hrm); [|assumption].
  destruct (eq_dec rm (VStr q)) as [E|N]; [now right|].
  left. apply is_participant_members. eapply J; eauto.
Qed.

(** X5.  After any run, for an open socket and any room name other than the
    socket's own id, the socket is in the socket.io room of that name exactly
    if it is a participant of the registry room of that name; so an open
    participant of a room is among the members of its socket.io room, and a
    member of a socket.io room is a participant of the registry room or the
    socket the room is named after. *)
Theorem socket_rooms_agree_with_registry :
  forall tr st, run init_state tr = Some st ->
    (forall sid s rm,
        map_get (sockets st) sid = Some s -> rm <> VStr sid ->
        (In rm (socket_rooms s) <-> is_participant st sid rm = true))
    /\ (forall q rm, is_participant st q rm = true -> connected st q = true ->
                     In q (room_members st rm))
    /\ (forall q rm, In q (room_members st rm) ->
                     connected st q = true
                     /\ (is_participant st q rm = true \/ rm = VStr q)).
Proof.
  intros tr st R.
  pose proof (reachable_wf tr st R) as (_ & S & _).
  pose proof (reachable_well_kept tr st R) as ((_ & NDs & _) & J & _).
  split; [|split].
  - intros sid s rm Gs N. rewrite is_participant_members. split.
    + intros Hin. eapply J; eauto.
    + intros Hin. rewrite members_get in Hin.
      destruct (map_get (rooms st) rm) as [r|] eqn:G; [|contradiction].
      eapply S; eauto.
  - intros q rm P C. apply connected_get in C as [s Gs].
    apply is_participant_members in P. rewrite members_get in P.
    destruct (map_get (rooms st) rm) as [r|] eqn:G; [|contradiction].
    eapply room_members_intro; eauto.
  - apply (room_members_sound tr st R).
Qed.

Lemma socket_rooms_agree_with_registry_witness :
  run init_state example_trace = Some two_in_R1
  /\ (In (VStr "R1") [VStr "a"; VStr "R1"]
      <-> is_participant two_in_R1 "a" (VStr "R1") = true).
Proof.
  split; [reflexivity|].
  exact (proj1 (socket_rooms_agree_with_registry example_trace two_in_R1 eq_refl)
           "a" (mkSocket [VStr "a"; VStr "R1"] (VStr "Alice") (VStr "R1"))
           (VStr "R1") eq_refl ltac:(discriminate)).
Defined.

Lemma join_room_out now st sid s rm uname :
  exists lefts,
    snd (join_room now st sid s rm uname)
    = lefts ++ [mkEmission (io_to (fst (join_room now st sid s rm uname)) rm)
                  (UserJoined (records (fst (join_room now st sid s rm uname)) rm))]
    /\ Forall is_user_left lefts.
Proof.
  exists (snd (fold_left (leave_existing sid) (socket_rooms s) (st, []))).
  split; [|apply leave_phase_out; constructor].
  rewrite join_room_eq. cbn [fst snd]. rewrite join_new_emission. unfold records.
  rewrite join_new_rooms, map_get_set_eq. reflexivity.
Qed.

Lemma user_left_not_joined em : is_user_left em -> ~ is_user_joined em.
Proof. intros [ps E] [ps' E']. congruence. Qed.

(** ** Malformed payloads, handler by handler *)



Lemma handleUserLeave_out st sid rm em :
  In em (snd (handleUserLeave st sid rm)) ->
  recipients em = socket_to st sid rm /\ is_user_left em.
Proof.
  unfold handleUserLeave.
  destruct (map_get (rooms st) rm) as [r|]; cbv zeta; [|contradiction].
  destruct (Nat.eqb _ 0); cbn [snd In]; [contradiction|].
  intros [<-|[]]. split; [reflexivity | now eexists].
Qed.

Lemma leave_keeps_others st sid rm q :
  q <> sid ->
  is_participant (fst (handleUserLeave st sid rm)) q rm = is_participant st q rm.
Proof.
  intros N.
  destruct (is_participant st q rm) eqn:P.
  - apply is_participant_members. apply is_participant_members in P.
    rewrite members_get, handleUserLeave_rooms, members_after_leave.
    destruct (eq_dec rm rm); [|congruence]. apply filter_neq_In. auto.
  - destruct (is_participant (fst (handleUserLeave st sid rm)) q rm) eqn:P';
      [|reflexivity].
    apply is_participant_members in P'.
    rewrite members_get, handleUserLeave_rooms, members_after_leave in P'.
    destruct (eq_dec rm rm); [|congruence]. apply filter_neq_In in P' as [_ P'].
    apply is_participant_members in P'. congruence.
Qed.

(** X6.  After any run, the room events stay in the room.  Every recipient of
    the user-joined of a join-room is, once the event is handled, a
    participant of the room the event names -- or the socket whose connection
    id that room name is.  Every recipient of the user-left of a leave-room
    was such a socket before the event and, unless it is the leaver, still is
    one after it; every recipient of the user-talking of a start- or
    stop-talking is one after it.  No recipient of a user-left or
    user-talking sits in the socket.io room named by the sender's id, so the
    sender is not among them as long as it has not left that room. *)
Theorem room_events_stay_in_room :
  forall tr st, run init_state tr = Some st ->
  forall now sid s p f,
    map_get (sockets st) sid = Some s -> destructure p = Some f ->
    (forall st' out em q,
        step now st (JoinRoom sid p) = Returned st' out ->
        In em out -> is_user_joined em -> In q (recipients em) ->
        is_participant st' q (f "room") = true \/ f "room" = VStr q)
    /\ (forall st' out em q,
        step now st (LeaveRoom sid p) = Returned st' out ->
        In em out -> In q (recipients em) ->
        (is_participant st q (f "room") = true \/ f "room" = VStr q)
        /\ (q <> sid ->
            is_participant st' q (f "room") = true \/ f "room" = VStr q)
        /\ ~ In q (room_members st (VStr sid))
        /\ (in_own_room st sid -> q <> sid))
    /\ (forall (b : bool) st' out em q,
        step now st (talking_event b sid p) = Returned st' out ->
        In em out -> In q (recipients em) ->
        (is_participant st' q (f "room") = true \/ f "room" = VStr q)
        /\ ~ In q (room_members st (VStr sid))
        /\ (in_own_room st sid -> q <> sid)).
Proof.
  intros tr st R now sid s p f Gs D.
  pose proof (room_members_sound tr st R) as M.
  split; [|split].
  - intros st' out em q Hstep Hem Hj Hq.
    assert (R' : run init_state (tr ++ [(now, JoinRoom sid p)]) = Some st').
    { clear -R Hstep. revert R. generalize init_state.
      induction tr as [|[n e] tr IH]; intros st0 R; cbn [run app] in *.
      - injection R as ->. now rewrite Hstep.
      - destruct (step n st0 e); [now apply IH | discriminate]. }
    pose proof (room_members_sound _ st' R') as M'.
    rewrite (step_join now st sid s p f Gs D) in Hstep. unfold returned in Hstep.
    injection Hstep as <- <-.
    destruct (join_room_out now st sid s (f "room") (f "userName")) as (lefts & E & Fl).
    rewrite E in Hem. apply in_app_iff in Hem as [Hem|[<-|[]]].
    + exfalso. rewrite Forall_forall in Fl. eapply user_left_not_joined; eauto.
    + cbn [recipients] in Hq. now apply M' in Hq.
  - intros st' out em q Hstep Hem Hq.
    rewrite (step_leave now st sid s p f Gs D) in Hstep. unfold returned in Hstep.
    injection Hstep as <- <-.
    apply handleUserLeave_out in Hem as [E _]. rewrite E in Hq.
    apply socket_to_elim in Hq as [Hq Nq].
    apply M in Hq as [_ Hq].
    split; [assumption|].
    split.
    { intros N. destruct Hq as [P|P]; [left | now right].
      now rewrite leave_keeps_others. }
    split; [assumption|].
    intros O ->. apply Nq. now apply in_own_room_member.
  - intros b st' out em q Hstep Hem Hq.
    rewrite (step_talking now st sid s p f b Gs D) in Hstep. unfold returned in Hstep.
    injection Hstep as <- <-.
    assert (E : recipients em = socket_to st sid (f "room")).
    { unfold set_talking in Hem.
      destruct (map_get (rooms st) (f "room")) as [r|]; [|contradiction].
      destruct (map_get (participants r) sid); [|contradiction].
      cbn [snd In] in Hem. destruct Hem as [<-|[]]. reflexivity. }
    rewrite E in Hq. apply socket_to_elim in Hq as [Hq Nq].
    split.
    { apply M in Hq as [_ [P|P]]; [left | now right].
      apply is_participant_members. rewrite set_talking_members.
      now apply is_participant_members. }
    split; [assumption|].
    intros O ->. apply Nq. now apply in_own_room_member.
Qed.

Lemma room_events_stay_in_room_witness :
  run init_state example_trace = Some two_in_R1
  /\ forall q,
       In q (recipients (mkEmission ["b"] (UserTalking "a" (VStr "Alice") true))) ->
       (is_participant
          (final (example_trace ++ [(5%Z, StartTalking "a" (room_only (VStr "R1")))]))
          q (VStr "R1") = true
        \/ VStr "R1" = VStr q)
       /\ ~ In q (room_members two_in_R1 (VStr "a"))
       /\ (in_own_room two_in_R1 "a" -> q <> "a").
Proof.
  split; [reflexivity|].
  intros q.
  exact (proj2 (proj2 (room_events_stay_in_room example_trace two_in_R1 eq_refl
           5%Z "a" (mkSocket [VStr "a"; VStr "R1"] (VStr "Alice") (VStr "R1"))
           (room_only (VStr "R1")) (get_field [("room", VStr "R1")])
           eq_refl eq_refl))
         true _ _ (mkEmission ["b"] (UserTalking "a" (VStr "Alice") true)) q
         eq_refl (or_introl eq_refl)).
Defined.

Lemma run_snoc tr : forall st0 st now e st' out,
  run st0 tr = Some st -> step now st e = Returned st' out ->
  run st0 (tr ++ [(now, e)]) = Some st'.
Proof.
  induction tr as [|[n e0] tr IH]; intros st0 st now e st' out R Hstep;
    cbn [run app] in *.
  - injection R as ->. now rewrite Hstep.
  - destruct (step n st0 e0); [eapply IH; eauto | discriminate].
Qed.

(** ** Leaving a room *)

Lemma record_of_after_leave st sid rm q :
  q <> sid ->
  record_of (fst (handleUserLeave st sid rm)) q rm = record_of st q rm.
Proof.
  intros N. unfold record_of. rewrite handleUserLeave_rooms, rooms_leave_get.
  destruct (eq_dec rm rm); [|congruence].
  unfold room_without. destruct (map_get (rooms st) rm) as [r|]; [|reflexivity].
  cbv zeta. destruct (Nat.eqb _ 0) eqn:E.
  - apply map_delete_size_0 in E.
    rewrite <- (map_get_delete_neq (participants r) sid q) by congruence.
    now rewrite E.
  - cbn [with_participants participants]. apply map_get_delete_neq. congruence.
Qed.

Lemma only_member_iff (ps : jsmap string participant) sid :
  NoDup (map_keys ps) -> map_get ps sid <> None ->
  (map_delete ps sid = [] <-> map_keys ps = [sid]).
Proof.
  intros ND G. split.
  - intros E. destruct ps as [|[k v] ps]; [cbn in G; congruence|].
    cbn [map_delete] in E. destruct (eq_dec k sid) as [->|N]; [|discriminate].
    cbn [map_keys map fst]. f_equal.
    inversion ND as [|? ? Hnin _]; subst.
    rewrite map_delete_absent in E; [now rewrite E|].
    now apply map_get_None_keys.
  - intros E. destruct ps as [|[k v] [|e ps]]; try discriminate.
    cbn in E. injection E as ->. cbn [map_delete].
    destruct (eq_dec sid sid); [reflexivity | congruence].
Qed.

(** X7.  After any run, a leave-room event from an open socket that is a
    participant of the named room returns with the socket taken out of the
    room and out of the socket.io room, and the other records and their
    order untouched.  If other participants remain, one user-left with the
    remaining records goes to the members of the socket.io room of that name
    that are not in the socket.io room named by the leaver's id: not to the
    leaver as long as it has not left its own room, and to every other
    participant whose socket is open as long as no other socket has joined
    the room named by the leaver's id.  If the leaver was the only
    participant, the room is deleted and nothing is emitted.  No other room
    changes, and the socket keeps the room noted as its current room. *)
Theorem leave_room_removes_and_notifies :
  forall tr st, run init_state tr = Some st ->
  forall now sid s p f r u,
    map_get (sockets st) sid = Some s -> destructure p = Some f ->
    map_get (rooms st) (f "room") = Some r ->
    map_get (participants r) sid = Some u ->
    exists st',
      step now st (LeaveRoom sid p)
      = Returned st'
          (if Nat.eqb (map_size (map_delete (participants r) sid)) 0 then []
           else [mkEmission (socket_to st sid (f "room"))
                   (UserLeft (map_values (map_delete (participants r) sid)))])
      /\ is_participant st' sid (f "room") = false
      /\ members st' (f "room") = filter (string_neqb sid) (members st (f "room"))
      /\ (forall q, q <> sid -> record_of st' q (f "room") = record_of st q (f "room"))
      /\ (map_delete (participants r) sid = [] <-> members st (f "room") = [sid])
      /\ (members st (f "room") = [sid] -> map_get (rooms st') (f "room") = None)
      /\ (forall rm, rm <> f "room" -> map_get (rooms st') rm = map_get (rooms st) rm)
      /\ map_get (sockets st') sid
         = Some (mkSocket (set_delete (socket_rooms s) (f "room"))
                          (userName s) (currentRoom s))
      /\ (forall q, In q (socket_to st sid (f "room"))
                    <-> In q (room_members st (f "room"))
                        /\ ~ In q (room_members st (VStr sid)))
      /\ (in_own_room st sid -> ~ In sid (socket_to st sid (f "room")))
      /\ (own_room_private st sid ->
          forall q, In q (members st (f "room")) -> q <> sid ->
                    connected st q = true -> In q (socket_to st sid (f "room"))).
Proof.
  intros tr st R now sid s p f r u Gs D G Gu.
  pose proof (reachable_wf tr st R) as (_ & S & _).
  pose proof (reachable_well_kept tr st R) as ((_ & _ & NDp) & _).
  rewrite (step_leave now st sid s p f Gs D). unfold returned.
  exists (fst (handleUserLeave st sid (f "room"))).
  split.
  { f_equal. unfold handleUserLeave. rewrite G. cbv zeta.
    destruct (Nat.eqb _ 0); reflexivity. }
  split; [apply handleUserLeave_not_participant|].
  split.
  { rewrite members_get, handleUserLeave_rooms, members_after_leave.
    destruct (eq_dec (f "room") (f "room")); [reflexivity | congruence]. }
  split; [intros q N; now apply record_of_after_leave|].
  split.
  { rewrite members_get, G. cbn [opt_members].
    apply only_member_iff; [eapply NDp; eauto | congruence]. }
  split.
  { intros M. rewrite (handleUserLeave_last st sid (f "room") M). cbn [fst].
    unfold socket_leave. rewrite rooms_update_socket. apply map_get_delete_eq. }
  split.
  { intros rm N. rewrite handleUserLeave_rooms, rooms_leave_get.
    destruct (eq_dec (f "room") rm); congruence. }
  split.
  { rewrite handleUserLeave_sockets. unfold socket_leave.
    now rewrite sockets_update_socket_eq, Gs. }
  split; [intros q; apply socket_to_iff|].
  split; [apply socket_to_excludes_sender|].
  intros Pv q Hq N C. apply connected_get in C as [sq Gq].
  apply socket_to_intro; [assumption|assumption|].
  rewrite members_get, G in Hq. eapply room_members_intro; eauto.
Qed.

Lemma leave_room_removes_and_notifies_witness :
  run init_state example_trace = Some two_in_R1
  /\ exists st',
       step 5 two_in_R1 (LeaveRoom "a" (room_only (VStr "R1")))
       = Returned st'
           [mkEmission ["b"] (UserLeft [mkParticipant "b" (VStr "Bob") false 4])]
       /\ members st' (VStr "R1") = ["b"].
Proof.
  split; [reflexivity|].
  destruct (leave_room_removes_and_notifies example_trace two_in_R1 eq_refl 5%Z "a"
              (mkSocket [VStr "a"; VStr "R1"] (VStr "Alice") (VStr "R1"))
              (room_only (VStr "R1")) (get_field [("room", VStr "R1")])
              (mkRoom (VStr "R1")
                 [("a", mkParticipant "a" (VStr "Alice") false 3);
                  ("b", mkParticipant "b" (VStr "Bob") false 4)] 3)
              (mkParticipant "a" (VStr "Alice") false 3)
              eq_refl eq_refl eq_refl eq_refl)
    as (st' & H1 & _ & H3 & _).
  exists st'. split; [exact H1 | exact H3].
Defined.

(** ** Disconnecting from a room whose name is falsy *)

Lemma join_room_socket now st sid s rm uname :
  map_get (sockets st) sid = Some s ->
  exists l, map_get (sockets (fst (join_room now st sid s rm uname))) sid
            = Some (mkSocket l uname rm) /\ In rm l.
Proof.
  intros Gs. rewrite join_room_eq. cbn [fst]. rewrite join_new_socket_eq.
  assert (C : connected (fst (fold_left (leave_existing sid) (socket_rooms s) (st, [])))
                sid = true).
  { rewrite leave_phase_connected. cbn [fst]. apply connected_get. eauto. }
  apply connected_get in C as [s1 ->]. cbn [option_map].
  eexists. split; [reflexivity|]. apply set_has_true, set_has_add. now left.
Qed.

Lemma join_room_joins now st sid s rm uname :
  is_participant (fst (join_room now st sid s rm uname)) sid rm = true.
Proof.
  apply is_participant_members. rewrite join_room_eq. cbn [fst].
  apply join_new_members. now left.
Qed.

(** X8.  After any run, when an open socket joins a room whose name is falsy
    in JavaScript (the empty string, 0, false, null, or a missing room
    field) and then disconnects, the disconnect handler skips the leave: it
    returns with nothing emitted and the registry as it was, so the closed
    connection is still listed as a participant of that room, and the
    periodic sweep, finding the room non-empty, leaves it there. *)
Theorem disconnect_skips_falsy_room :
  forall tr st, run init_state tr = Some st ->
  forall now now2 sid s p f,
    map_get (sockets st) sid = Some s -> destructure p = Some f ->
    truthy (f "room") = false ->
    exists st1 out1 st2,
      step now st (JoinRoom sid p) = Returned st1 out1
      /\ step now2 st1 (Disconnect sid) = Returned st2 []
      /\ rooms st2 = rooms st1
      /\ connected st2 sid = false
      /\ is_participant st2 sid (f "room") = true
      /\ (forall now3, step now3 st2 SweepTick = Returned st2 []).
Proof.
  intros tr st R now now2 sid s p f Gs D T.
  pose proof (step_join now st sid s p f Gs D) as H1. unfold returned in H1.
  set (st1 := fst (join_room now st sid s (f "room") (f "userName"))) in *.
  destruct (join_room_socket now st sid s (f "room") (f "userName") Gs) as (l & Gs1 & _).
  fold st1 in Gs1.
  assert (H2 : step now2 st1 (Disconnect sid)
               = Returned (with_sockets st1 (map_delete (sockets st1) sid)) []).
  { cbn [step]. unfold on_socket, on_disconnect. rewrite Gs1. cbn [currentRoom].
    now rewrite T. }
  eexists. eexists. eexists.
  split; [exact H1|]. split; [exact H2|]. split; [reflexivity|].
  split.
  { unfold connected, map_has. cbn [with_sockets sockets].
    now rewrite map_get_delete_eq. }
  split; [apply (join_room_joins now st sid s (f "room") (f "userName"))|].
  intros now3. cbn [step]. f_equal.
  pose proof (run_snoc _ _ _ _ _ _ _ (run_snoc _ _ _ _ _ _ _ R H1) H2) as R2.
  apply sweep_nothing.
  - apply (reachable_wf _ _ R2).
  - apply (reachable_well_kept _ _ R2).
Qed.

Lemma disconnect_skips_falsy_room_witness :
  run init_state example_trace = Some two_in_R1
  /\ exists st1 out1 st2,
       step 5 two_in_R1 (JoinRoom "a" (obj (VStr "") (VStr "Alice"))) = Returned st1 out1
       /\ step 6 st1 (Disconnect "a") = Returned st2 []
       /\ is_participant st2 "a" (VStr "") = true.
Proof.
  split; [reflexivity|].
  destruct (disconnect_skips_falsy_room example_trace two_in_R1 eq_refl 5%Z 6%Z "a"
              (mkSocket [VStr "a"; VStr "R1"] (VStr "Alice") (VStr "R1"))
              (obj (VStr "") (VStr "Alice"))
              (get_field [("room", VStr ""); ("userName", VStr "Alice")])
              eq_refl eq_refl eq_refl)
    as (st1 & out1 & st2 & H1 & H2 & _ & _ & H5 & _).
  exists st1, out1, st2. repeat split; assumption.
Defined.

(** ** The periodic sweep *)

Lemma fold_delete_get_eq (l : list value) : forall (rs : jsmap value room) rm,
  map_get (fold_left (fun rs0 roomName => map_delete rs0 roomName) l rs) rm
  = if set_has l rm then None else map_get rs rm.
Proof.
  induction l as [|k l IH]; intros rs rm; cbn [fold_left set_has]; [reflexivity|].
  rewrite IH. destruct (eq_dec k rm) as [->|N].
  - rewrite map_get_delete_eq. now destruct (set_has l rm).
  - now rewrite map_get_delete_neq.
Qed.

Lemma fold_delete_keys (l : list value) : forall (rs : jsmap value room),
  NoDup (map_keys rs) ->
  NoDup (map_keys (fold_left (fun rs0 roomName => map_delete rs0 roomName) l rs)).
Proof.
  induction l as [|k l IH]; intros rs ND; cbn [fold_left]; [exact ND|].
  apply IH. now apply NoDup_keys_delete.
Qed.

Lemma empty_rooms_listed (rs : jsmap value room) rm :
  NoDup (map_keys rs) ->
  set_has (map_keys (filter (fun e => Nat.eqb (map_size (participants (snd e))) 0) rs)) rm
  = match map_get rs rm with
    | Some r => Nat.eqb (map_size (participants r)) 0
    | None => false
    end.
Proof.
  intros ND.
  destruct (map_get rs rm) as [r|] eqn:G.
  - destruct (Nat.eqb (map_size (participants r)) 0) eqn:E.
    + apply set_has_true. unfold map_keys. apply in_map_iff. exists (rm, r).
      split; [reflexivity|]. apply filter_In. split; [now apply map_get_In | exact E].
    + destruct (set_has _ rm) eqn:Hs; [|reflexivity].
      apply set_has_true in Hs. unfold map_keys in Hs.
      apply in_map_iff in Hs as ([k r'] & Ek & Hin). cbn [fst] in Ek. subst k.
      apply filter_In in Hin as [Hin E']. cbn [snd] in E'.
      pose proof (NoDup_In_get _ _ _ ND Hin) as G'. congruence.
  - destruct (set_has _ rm) eqn:Hs; [|reflexivity].
    apply set_has_true in Hs. unfold map_keys in Hs.
    apply in_map_iff in Hs as ([k r'] & Ek & Hin). cbn [fst] in Ek. subst k.
    apply filter_In in Hin as [Hin _].
    pose proof (NoDup_In_get _ _ _ ND Hin) as G'. congruence.
Qed.

(** X9.  On any registry with distinct keys, reachable or not, the periodic
    sweep deletes exactly the rooms without participants: afterwards a room
    name is bound to what it was bound to if that room has a participant, and
    to nothing otherwise; the sockets are not touched; and a second sweep
    right after changes nothing. *)
Theorem sweep_deletes_exactly_empty_rooms :
  forall st, NoDup (map_keys (rooms st)) ->
    (forall rm,
        map_get (rooms (sweep st)) rm
        = match map_get (rooms st) rm with
          | Some r => if Nat.eqb (map_size (participants r)) 0 then None else Some r
          | None => None
          end)
    /\ sockets (sweep st) = sockets st
    /\ sweep (sweep st) = sweep st.
Proof.
  intros st ND.
  assert (Hget : forall rm,
            map_get (rooms (sweep st)) rm
            = match map_get (rooms st) rm with
              | Some r => if Nat.eqb (map_size (participants r)) 0 then None else Some r
              | None => None
              end).
  { intros rm. unfold sweep. cbn [with_rooms rooms].
    rewrite fold_delete_get_eq, empty_rooms_listed by assumption.
    destruct (map_get (rooms st) rm) as [r|]; [|reflexivity].
    now destruct (Nat.eqb _ 0). }
  split; [exact Hget|]. split; [reflexivity|].
  apply sweep_nothing.
  - intros rm r G. rewrite Hget in G.
    destruct (map_get (rooms st) rm) as [r0|]; [|discriminate].
    destruct (Nat.eqb (map_size (participants r0)) 0) eqn:E; [discriminate|].
    injection G as <-. now apply map_delete_size_pos.
  - unfold sweep. cbn [with_rooms rooms]. now apply fold_delete_keys.
Qed.

Lemma sweep_deletes_exactly_empty_rooms_witness :
  NoDup (map_keys (rooms littered))
  /\ map_get (rooms (sweep littered)) (VStr "X") = None
  /\ map_get (rooms (sweep littered)) (VStr "R1") = map_get (rooms littered) (VStr "R1").
Proof.
  assert (ND : NoDup (map_keys (rooms littered))).
  { cbn. repeat constructor; cbn; intuition discriminate. }
  split; [exact ND|].
  pose proof (proj1 (sweep_deletes_exactly_empty_rooms littered ND)) as H.
  split; [exact (H (VStr "X")) | exact (H (VStr "R1"))].
Defined.

(** X10.  Along every run the periodic sweep finds no room to delete: a tick of
    the timer leaves the whole state as it is. *)
Theorem sweep_finds_nothing_in_runs :
  forall tr st, run init_state tr = Some st ->
  forall now, step now st SweepTick = Returned st [].
Proof.
  intros tr st R now. cbn [step]. f_equal. apply sweep_nothing.
  - apply (reachable_wf _ _ R).
  - apply (reachable_well_kept _ _ R).
Qed.

Lemma sweep_finds_nothing_in_runs_witness :
  run init_state example_trace = Some two_in_R1
  /\ step 30000 two_in_R1 SweepTick = Returned two_in_R1 [].
Proof.
  split; [reflexivity|].
  exact (sweep_finds_nothing_in_runs example_trace two_in_R1 eq_refl 30000%Z).
Defined.

(** ** The endpoint after events *)

Lemma ids_of_values (ps : jsmap string participant) :
  (forall k u, In (k, u) ps -> id u = k) -> map id (map_values ps) = map_keys ps.
Proof.
  induction ps as [|[k u] ps IH]; intros Hk; [reflexivity|].
  cbn [map_values map_keys map fst snd]. rewrite (Hk k u) by now left.
  f_equal. apply IH. intros k' u' Hin. apply Hk. now right.
Qed.

Lemma records_ids st rm :
  records_keyed_by_id st -> map id (records st rm) = members st rm.
Proof.
  intros RK. unfold records, members.
  destruct (map_get (rooms st) rm) as [r|] eqn:G; [|reflexivity].
  apply ids_of_values. intros k u. now apply (RK rm r).
Qed.

Lemma api_rooms_body st roomId :
  body_participants (snd (api_rooms st roomId)) = records st (VStr roomId)
  /\ participantCount (snd (api_rooms st roomId))
     = List.length (members st (VStr roomId)).
Proof.
  unfold api_rooms, records, members.
  destruct (map_get (rooms st) (VStr roomId)) as [r|]; cbn [snd body_participants
    participantCount]; split; try reflexivity.
  unfold map_size, map_keys. now rewrite length_map.
Qed.

(** X11.  After any run, GET /api/rooms/:roomId reports a count of 0 exactly
    for the room ids the registry does not have; the ids of the records it
    returns are the room's connection ids in order, and the count is their
    number.  Right after a join-room naming that id it returns the very list
    the user-joined carried, with the joiner in it; right after the only
    participant's leave-room it returns the empty list and 0. *)
Theorem api_rooms_follows_events :
  forall tr st, run init_state tr = Some st ->
  forall roomId,
    (participantCount (snd (api_rooms st roomId)) = 0
     <-> map_get (rooms st) (VStr roomId) = None)
    /\ map id (body_participants (snd (api_rooms st roomId))) = members st (VStr roomId)
    /\ participantCount (snd (api_rooms st roomId))
       = List.length (body_participants (snd (api_rooms st roomId)))
    /\ (forall now sid s p f,
          map_get (sockets st) sid = Some s -> destructure p = Some f ->
          f "room" = VStr roomId ->
          exists st' lefts,
            step now st (JoinRoom sid p)
            = Returned st'
                (lefts ++ [mkEmission (io_to st' (VStr roomId))
                             (UserJoined (body_participants (snd (api_rooms st' roomId))))])
            /\ In sid (map id (body_participants (snd (api_rooms st' roomId))))
            /\ 1 <= participantCount (snd (api_rooms st' roomId)))
    /\ (forall now sid s p f,
          map_get (sockets st) sid = Some s -> destructure p = Some f ->
          f "room" = VStr roomId -> members st (VStr roomId) = [sid] ->
          exists st',
            step now st (LeaveRoom sid p) = Returned st' []
            /\ snd (api_rooms st' roomId) = mkResponse 200 [] 0).
Proof.
  intros tr st R roomId.
  pose proof (reachable_wf tr st R) as (N & _).
  pose proof (reachable_well_kept tr st R) as (_ & _ & RK & _).
  destruct (api_rooms_body st roomId) as [Hb Hc].
  split; [|split; [|split; [|split]]].
  - rewrite Hc, members_get.
    destruct (map_get (rooms st) (VStr roomId)) as [r|] eqn:G; cbn [opt_members].
    + split; [|discriminate]. intros L. exfalso. apply (N _ _ G).
      unfold map_keys in L. rewrite length_map in L.
      now destruct (participants r).
    + split; reflexivity.
  - rewrite Hb. now apply records_ids.
  - rewrite Hc, Hb, <- (records_ids st (VStr roomId) RK). now rewrite length_map.
  - intros now sid s p f Gs D E.
    pose proof (step_join now st sid s p f Gs D) as H1. unfold returned in H1.
    rewrite E in H1.
    set (st' := fst (join_room now st sid s (VStr roomId) (f "userName"))) in *.
    pose proof (run_snoc _ _ _ _ _ _ _ R H1) as R'.
    pose proof (reachable_well_kept _ _ R') as (_ & _ & RK' & _).
    destruct (join_room_out now st sid s (VStr roomId) (f "userName")) as (lefts & Eo & _).
    fold st' in Eo.
    destruct (api_rooms_body st' roomId) as [Hb' Hc'].
    assert (Hin : In sid (members st' (VStr roomId))).
    { apply is_participant_members. apply join_room_joins. }
    exists st', lefts. split; [|split].
    + rewrite H1, Eo, Hb'. reflexivity.
    + rewrite Hb', records_ids by assumption. exact Hin.
    + rewrite Hc'. destruct (members st' (VStr roomId)); [contradiction | cbn; lia].
  - intros now sid s p f Gs D E M.
    rewrite (step_leave now st sid s p f Gs D), E. unfold returned.
    rewrite (handleUserLeave_last st sid (VStr roomId) M). cbn [fst snd].
    eexists. split; [reflexivity|].
    unfold api_rooms, socket_leave. rewrite rooms_update_socket.
    cbn [with_rooms rooms]. now rewrite map_get_delete_eq.
Qed.

Lemma api_rooms_follows_events_witness :
  run init_state example_trace = Some two_in_R1
  /\ map id (body_participants (snd (api_rooms two_in_R1 "R1"))) = ["a"; "b"]
  /\ (participantCount (snd (api_rooms two_in_R1 "R9")) = 0
      <-> map_get (rooms two_in_R1) (VStr "R9") = None).
Proof.
  split; [reflexivity|].
  pose proof (api_rooms_follows_events example_trace two_in_R1 eq_refl) as H.
  split; [exact (proj1 (proj2 (H "R1"))) | exact (proj1 (H "R9"))].
Defined.

(** ** Talking events in a row *)

Lemma set_talking_twice b1 b2 st sid s rm :
  fst (set_talking b2 (fst (set_talking b1 st sid s rm)) sid s rm)
  = fst (set_talking b2 st sid s rm).
Proof.
  unfold set_talking.
  destruct (map_get (rooms st) rm) as [r|] eqn:G; cbn [fst]; [|now rewrite G].
  destruct (map_get (participants r) sid) as [user|] eqn:Gu; cbn [fst];
    [|now rewrite G, Gu].
  cbn [with_rooms rooms]. rewrite map_get_set_eq.
  cbn [with_participants participants]. rewrite map_get_set_eq. cbn [fst].
  unfold with_rooms. cbn [rooms sockets issued id name joinedAt room_name createdAt].
  now rewrite !map_set_set.
Qed.

Lemma set_talking_to b st sid s rm :
  socket_to (fst (set_talking b st sid s rm)) sid rm = socket_to st sid rm.
Proof. unfold socket_to, room_members. now rewrite set_talking_sockets. Qed.

Lemma set_talking_out b b1 st sid s rm :
  snd (set_talking b (fst (set_talking b1 st sid s rm)) sid s rm)
  = snd (set_talking b st sid s rm).
Proof.
  pose proof (set_talking_to b1 st sid s rm) as Ht.
  unfold set_talking in *.
  destruct (map_get (rooms st) rm) as [r|] eqn:G; cbn [fst]; [|now rewrite G].
  destruct (map_get (participants r) sid) as [user|] eqn:Gu; cbn [fst];
    [|now rewrite G, Gu].
  cbn [fst] in Ht. cbn [with_rooms rooms]. rewrite map_get_set_eq.
  cbn [with_participants participants]. rewrite map_get_set_eq. cbn [snd].
  now rewrite Ht.
Qed.

(** X12.  In any state, for start-talking and stop-talking events of one open
    socket naming one room: the state after two such events in a row is the
    state after the second alone, which also emits what it would have emitted
    alone; and an event that asks for the flag the sender's record already
    has leaves the state exactly as it is but still emits its user-talking,
    to the recipients [socket.to] gives for the room. *)
Theorem talking_last_event_wins :
  forall now1 now2 st sid s p f (b1 b2 : bool),
    map_get (sockets st) sid = Some s -> destructure p = Some f ->
    (exists st1 out1 st2 out2,
        step now1 st (talking_event b1 sid p) = Returned st1 out1
        /\ step now2 st1 (talking_event b2 sid p) = Returned st2 out2
        /\ step now2 st (talking_event b2 sid p) = Returned st2 out2)
    /\ (forall u, record_of st sid (f "room") = Some u -> isTalking u = b1 ->
        step now1 st (talking_event b1 sid p)
        = Returned st [mkEmission (socket_to st sid (f "room"))
                                  (UserTalking sid (userName s) b1)]).
Proof.
  intros now1 now2 st sid s p f b1 b2 Gs D. split.
  - pose proof (step_talking now1 st sid s p f b1 Gs D) as H1.
    assert (Gs1 : map_get (sockets (fst (set_talking b1 st sid s (f "room")))) sid
                  = Some s) by now rewrite set_talking_sockets.
    pose proof (step_talking now2 _ sid s p f b2 Gs1 D) as H2.
    pose proof (step_talking now2 st sid s p f b2 Gs D) as H3.
    unfold returned in *. rewrite set_talking_twice, set_talking_out in H2.
    eexists. eexists. eexists. eexists. split; [exact H1|]. split; [exact H2 | exact H3].
  - intros u Hu Hb. rewrite (step_talking now1 st sid s p f b1 Gs D).
    unfold returned, set_talking. unfold record_of in Hu.
    destruct (map_get (rooms st) (f "room")) as [r|] eqn:G; [|discriminate].
    rewrite Hu. cbn [fst snd]. f_equal.
    assert (Eu : mkParticipant (id u) (name u) b1 (joinedAt u) = u)
      by (destruct u; cbn in *; congruence).
    rewrite Eu, (map_set_same _ _ _ Hu), with_participants_same, (map_set_same _ _ _ G).
    now destruct st.
Qed.

Lemma talking_last_event_wins_witness :
  map_get (sockets two_in_R1) "a"
  = Some (mkSocket [VStr "a"; VStr "R1"] (VStr "Alice") (VStr "R1"))
  /\ step 5 two_in_R1 (talking_event false "a" (room_only (VStr "R1")))
     = Returned two_in_R1 [mkEmission ["b"] (UserTalking "a" (VStr "Alice") false)].
Proof.
  split; [reflexivity|].
  exact (proj2 (talking_last_event_wins 5%Z 6%Z two_in_R1 "a" _
                  (room_only (VStr "R1")) (get_field [("room", VStr "R1")])
                  false true eq_refl eq_refl)
           (mkParticipant "a" (VStr "Alice") false 3) eq_refl eq_refl).
Defined.

(** ** Who can receive an emission *)

Lemma update_socket_with_rooms_connected st rs sid f q :
  connected (update_socket (with_rooms st rs) sid f) q = connected st q.
Proof. now rewrite connected_update_socket. Qed.

Lemma join_new_connected now st1 sid rm uname q :
  connected (fst (join_new now st1 sid rm uname)) q = connected st1 q.
Proof.
  unfold join_new, socket_join. cbn [fst].
  rewrite connected_update_socket. unfold connected. cbn [with_rooms sockets].
  apply connected_update_socket.
Qed.

Lemma join_room_connected now st sid s rm uname q :
  connected (fst (join_room now st sid s rm uname)) q = connected st q.
Proof.
  rewrite join_room_eq. cbn [fst].
  now rewrite join_new_connected, leave_phase_connected.
Qed.

Lemma socket_leave_in_own_room st sid rn :
  rn <> VStr sid -> in_own_room st sid -> in_own_room (socket_leave st sid rn) sid.
Proof.
  intros N (s & G & Hin). unfold in_own_room, socket_leave.
  rewrite sockets_update_socket_eq, G. cbn [option_map].
  eexists. split; [reflexivity|]. cbn [socket_rooms].
  apply set_has_true. apply set_has_delete. split; [congruence|].
  now apply set_has_true.
Qed.

Lemma leave_existing_in_own_room sid acc rn :
  in_own_room (fst acc) sid -> in_own_room (fst (leave_existing sid acc rn)) sid.
Proof.
  destruct acc as [st out]. cbn [fst]. intros O.
  unfold in_own_room. rewrite leave_existing_sockets.
  destruct (eq_dec rn (VStr sid)); [exact O|].
  now apply socket_leave_in_own_room.
Qed.

(** The user-left emissions of the leaving loop reach only sockets open in
    [st0], and not [sid] when it sits in its own room. *)
Lemma leave_phase_reaches st0 sid l : forall acc,
  (forall q, connected (fst acc) q = connected st0 q) ->
  (in_own_room st0 sid -> in_own_room (fst acc) sid) ->
  Forall (fun em => forall q, In q (recipients em) ->
                    connected st0 q = true /\ (in_own_room st0 sid -> q <> sid))
         (snd acc) ->
  Forall (fun em => forall q, In q (recipients em) ->
                    connected st0 q = true /\ (in_own_room st0 sid -> q <> sid))
         (snd (fold_left (leave_existing sid) l acc)).
Proof.
  induction l as [|rn l IH]; intros acc C O F; cbn [fold_left]; [exact F|].
  apply IH.
  - intros q. now rewrite leave_existing_connected.
  - intros O0. apply leave_existing_in_own_room. auto.
  - destruct acc as [st out]. cbn [fst snd] in *. unfold leave_existing.
    destruct (eq_dec rn (VStr sid)) as [|N]; [exact F|].
    destruct (map_get _ rn) as [r|]; cbv zeta; [|exact F].
    destruct (Nat.eqb _ 0); cbn [snd]; [exact F|].
    apply Forall_app. split; [exact F|]. constructor; [|constructor].
    cbn [recipients]. intros q Hq. split.
    + apply socket_to_elim in Hq as [Hq _]. apply room_members_connected in Hq.
      unfold socket_leave in Hq. rewrite connected_update_socket in Hq.
      now rewrite <- C.
    + intros O0 ->. revert Hq. apply socket_to_excludes_sender.
      apply socket_leave_in_own_room; auto.
Qed.

Lemma connected_after_close st sid q :
  connected (with_sockets st (map_delete (sockets st) sid)) q = true ->
  connected st q = true.
Proof.
  unfold connected, map_has. cbn [with_sockets sockets].
  destruct (map_get (map_delete (sockets st) sid) q) eqn:G; [|discriminate].
  apply map_get_delete_Some in G as [_ G]. now rewrite G.
Qed.

Lemma closed_not_connected st sid :
  connected (with_sockets st (map_delete (sockets st) sid)) sid = false.
Proof.
  unfold connected, map_has. cbn [with_sockets sockets].
  now rewrite map_get_delete_eq.
Qed.

Lemma handleUserLeave_connected st sid rm q :
  connected (fst (handleUserLeave st sid rm)) q = connected st q.
Proof.
  unfold connected at 1. rewrite handleUserLeave_sockets.
  unfold socket_leave. apply connected_update_socket.
Qed.

Lemma set_talking_recipients b st sid s rm em :
  In em (snd (set_talking b st sid s rm)) -> recipients em = socket_to st sid rm.
Proof.
  unfold set_talking.
  destruct (map_get (rooms st) rm) as [r|]; [|contradiction].
  destruct (map_get (participants r) sid); [|contradiction].
  intros [<-|[]]. reflexivity.
Qed.

Lemma socket_to_reaches st sid rm q :
  In q (socket_to st sid rm) ->
  connected st q = true /\ (in_own_room st sid -> q <> sid).
Proof.
  intros Hq. split.
  - apply socket_to_elim in Hq as [Hq _]. eapply room_members_connected; eauto.
  - intros O ->. revert Hq. now apply socket_to_excludes_sender.
Qed.

(** X13.  In any state and for any event whose handler returns, every emission
    reaches only sockets that are open when the event arrives and still open
    once it is handled; a socket that is disconnecting receives nothing of
    its own departure; and a sender that has not left the socket.io room
    named by its id receives none of the emissions except the user-joined of
    its own join. *)
Theorem emissions_reach_open_sockets_only :
  forall now st e st' out,
    step now st e = Returned st' out ->
    forall em, In em out ->
      (forall q, In q (recipients em) ->
                 connected st q = true /\ connected st' q = true)
      /\ (forall sid, sender e = Some sid -> in_own_room st sid ->
                      In sid (recipients em) -> is_user_joined em)
      /\ (forall sid, e = Disconnect sid -> ~ In sid (recipients em)).
Proof.
  intros now st e st' out Hstep em Hem.
  assert (Relay : forall sid rm,
             st' = st -> recipients em = socket_to st sid rm -> sender e = Some sid ->
             (forall sid', e <> Disconnect sid') ->
             (forall q, In q (recipients em) ->
                        connected st q = true /\ connected st' q = true)
             /\ (forall sid', sender e = Some sid' -> in_own_room st sid' ->
                              In sid' (recipients em) -> is_user_joined em)
             /\ (forall sid', e = Disconnect sid' -> ~ In sid' (recipients em))).
  { intros sid rm -> E Es Nd. rewrite E. split; [|split].
    - intros q Hq. apply socket_to_reaches in Hq as [C _]. auto.
    - intros sid' Es' O Hq. rewrite Es in Es'. injection Es' as <-.
      apply socket_to_reaches in Hq as [_ N]. now destruct (N O).
    - intros sid' Ed. now destruct (Nd sid'). }
  destruct e as [sid|sid p|sid p|sid p|sid p|sid p|sid p|sid p|sid|];
    cbn [step sender] in *;
    try (unfold on_socket in Hstep;
         destruct (map_get (sockets st) sid) as [s|] eqn:Gs;
         [|injection Hstep as <- <-; contradiction]).
  - injection Hstep as <- <-. contradiction.
  - unfold on_join_room in Hstep. destruct (destructure p) as [f|]; [|discriminate].
    injection Hstep as <- <-.
    split; [|split; [|discriminate]].
    + intros q Hq. rewrite join_room_connected.
      rewrite join_room_eq in Hem. cbn [snd] in Hem.
      apply in_app_iff in Hem as [Hem|[<-|[]]].
      * pose proof (leave_phase_reaches st sid (socket_rooms s) (st, [])
                      (fun q => eq_refl) (fun O => O) (Forall_nil _)) as F.
        rewrite Forall_forall in F. destruct (F em Hem q Hq) as [C _]. auto.
      * rewrite join_new_emission in Hq. cbn [recipients] in Hq.
        apply room_members_connected in Hq.
        rewrite join_new_connected, leave_phase_connected in Hq. auto.
    + intros sid' [= <-] O Hq.
      rewrite join_room_eq in Hem. cbn [snd] in Hem.
      apply in_app_iff in Hem as [Hem|[<-|[]]].
      * pose proof (leave_phase_reaches st sid (socket_rooms s) (st, [])
                      (fun q => eq_refl) (fun O => O) (Forall_nil _)) as F.
        rewrite Forall_forall in F. destruct (F em Hem sid Hq) as [_ N].
        now destruct (N O).
      * rewrite join_new_emission. now eexists.
  - unfold on_start_talking in Hstep. destruct (destructure p) as [f|]; [|discriminate].
    injection Hstep as <- <-.
    apply set_talking_recipients in Hem. rewrite Hem. split; [|split; [|discriminate]].
    + intros q Hq. apply socket_to_reaches in Hq as [C _]. split; [assumption|].
      unfold connected. now rewrite set_talking_sockets.
    + intros sid' [= <-] O Hq. apply socket_to_reaches in Hq as [_ N].
      now destruct (N O).
  - unfold on_stop_talking in Hstep. destruct (destructure p) as [f|]; [|discriminate].
    injection Hstep as <- <-.
    apply set_talking_recipients in Hem. rewrite Hem. split; [|split; [|discriminate]].
    + intros q Hq. apply socket_to_reaches in Hq as [C _]. split; [assumption|].
      unfold connected. now rewrite set_talking_sockets.
    + intros sid' [= <-] O Hq. apply socket_to_reaches in Hq as [_ N].
      now destruct (N O).
  - unfold on_offer in Hstep. destruct (destructure p) as [f|]; [|discriminate].
    injection Hstep as <- <-. destruct Hem as [<-|[]].
    apply (Relay sid (f "to")); [reflexivity..|discriminate].
  - unfold on_answer in Hstep. destruct (destructure p) as [f|]; [|discriminate].
    injection Hstep as <- <-. destruct Hem as [<-|[]].
    apply (Relay sid (f "to")); [reflexivity..|discriminate].
  - unfold on_ice_candidate in Hstep. destruct (destructure p) as [f|]; [|discriminate].
    injection Hstep as <- <-. destruct Hem as [<-|[]].
    apply (Relay sid (f "to")); [reflexivity..|discriminate].
  - unfold on_leave_room in Hstep. destruct (destructure p) as [f|]; [|discriminate].
    injection Hstep as <- <-. apply handleUserLeave_out in Hem as [E _]. rewrite E.
    split; [|split; [|discriminate]].
    + intros q Hq. apply socket_to_reaches in Hq as [C _].
      now rewrite handleUserLeave_connected.
    + intros sid' [= <-] O Hq. apply socket_to_reaches in Hq as [_ N].
      now destruct (N O).
  - unfold on_disconnect in Hstep. destruct (truthy (currentRoom s)).
    + injection Hstep as <- <-. apply handleUserLeave_out in Hem as [E _]. rewrite E.
      assert (Cl : forall q, In q (socket_to (with_sockets st (map_delete (sockets st) sid))
                                     sid (currentRoom s)) ->
                             connected (with_sockets st (map_delete (sockets st) sid)) q
                             = true).
      { intros q Hq. now apply socket_to_reaches in Hq as [C _]. }
      assert (Ns : ~ In sid (socket_to (with_sockets st (map_delete (sockets st) sid))
                               sid (currentRoom s))).
      { intros Hq. apply Cl in Hq. rewrite closed_not_connected in Hq. discriminate. }
      split; [|split].
      * intros q Hq. apply Cl in Hq. rewrite handleUserLeave_connected.
        split; [now apply connected_after_close in Hq | assumption].
      * intros sid' [= <-] _ Hq. now destruct (Ns Hq).
      * intros sid' [= <-]. exact Ns.
    + injection Hstep as <- <-. contradiction.
  - injection Hstep as <- <-. contradiction.
Qed.

Lemma emissions_reach_open_sockets_only_witness :
  step 5 two_in_R1 (LeaveRoom "a" (room_only (VStr "R1")))
  = Returned a_left_R1
      [mkEmission ["b"] (UserLeft [mkParticipant "b" (VStr "Bob") false 4])]
  /\ forall q, In q ["b"] ->
                connected two_in_R1 q = true /\ connected a_left_R1 q = true.
Proof.
  split; [reflexivity|].
  exact (proj1 (emissions_reach_open_sockets_only 5%Z two_in_R1
                  (LeaveRoom "a" (room_only (VStr "R1"))) a_left_R1 _ eq_refl
                  (mkEmission ["b"] (UserLeft [mkParticipant "b" (VStr "Bob") false 4]))
                  (or_introl eq_refl))).
Defined.

(** ** More on runs that keep room names and connection ids apart *)

Section ApartMore.
Variable is_id : string -> bool.

Lemma closed_room_empty st t :
  tidy is_id st -> is_id t = true -> connected st t = false ->
  room_members st (VStr t) = [].
Proof.
  intros (ND & TS & _) It C. unfold room_members. rewrite filter_none; [reflexivity|].
  intros [q x] Hin. cbn [snd].
  pose proof (NoDup_In_get _ _ _ ND Hin) as Gq.
  destruct (TS q x Gq) as (_ & _ & Sh).
  destruct (set_has (socket_rooms x) (VStr t)) eqn:Hs; [|reflexivity].
  exfalso. apply set_has_true in Hs.
  assert (Nq : q <> t).
  { intros ->. unfold connected, map_has in C. now rewrite Gq in C. }
  destruct Sh as [E|(rm0 & L0 & E)]; rewrite E in Hs; cbn [In] in Hs.
  - destruct Hs as [[= ->]|[]]. congruence.
  - destruct Hs as [[= ->]|[->|[]]]; [congruence|].
    cbn [room_like] in L0. rewrite It in L0. discriminate.
Qed.

Lemma noted_ext st st' :
  rooms st' = rooms st -> sockets st' = sockets st ->
  noted_on_socket st -> noted_on_socket st'.
Proof. intros Hr Hs Nt. unfold noted_on_socket. rewrite Hr, Hs. exact Nt. Qed.

Lemma noted_leave st st' sid rm :
  rooms st' = rooms_leave (rooms st) sid rm ->
  sockets st' = sockets (socket_leave st sid rm) ->
  noted_on_socket st -> noted_on_socket st'.
Proof.
  intros Hr Hs Nt q s' rm' r' u. rewrite Hr, Hs, rooms_leave_get. unfold socket_leave.
  destruct (eq_dec rm rm') as [<-|N].
  - intros Gs G Gu. apply room_without_Some in G as (r & G & -> & _).
    cbn [with_participants participants] in Gu.
    apply map_get_delete_Some in Gu as [Nq Gu].
    rewrite sockets_update_socket_neq in Gs by assumption. eapply Nt; eauto.
  - destruct (string_dec sid q) as [<-|Nq].
    + rewrite sockets_update_socket_eq.
      destruct (map_get (sockets st) sid) as [s|] eqn:G0; [|discriminate].
      intros [= <-] G Gu. cbn [currentRoom userName]. eapply Nt; eauto.
    + rewrite sockets_update_socket_neq by assumption. apply Nt.
Qed.

Lemma leave_phase_noted sid l : forall acc,
  noted_on_socket (fst acc) ->
  noted_on_socket (fst (fold_left (leave_existing sid) l acc)).
Proof.
  induction l as [|rn l IH]; intros acc Nt; cbn [fold_left]; [exact Nt|].
  apply IH. destruct acc as [st out]. cbn [fst] in Nt.
  pose proof (leave_existing_rooms sid st out rn) as Hr.
  pose proof (leave_existing_sockets sid st out rn) as Hs.
  destruct (eq_dec rn (VStr sid)).
  - eapply noted_ext; eauto.
  - eapply noted_leave; eauto.
Qed.

Lemma noted_join now st sid s rm uname :
  in_sync st -> tidy is_id st -> map_get (sockets st) sid = Some s ->
  noted_on_socket st ->
  noted_on_socket (fst (join_room now st sid s rm uname)).
Proof.
  intros S T Gs Nt.
  pose proof (leave_phase_clears is_id st sid s) as Clr.
  specialize (fun rm' => Clr rm' S T Gs).
  pose proof (leave_phase_noted sid (socket_rooms s) (st, []) Nt) as Nt1.
  rewrite join_room_eq. cbn [fst].
  set (st1 := fst (fold_left (leave_existing sid) (socket_rooms s) (st, []))) in *.
  intros q s' rm' r' u Gs' G Gu. rewrite join_new_rooms in G.
  destruct (string_dec sid q) as [<-|Nq].
  - rewrite join_new_socket_eq in Gs'.
    destruct (map_get (sockets st1) sid) as [s1|]; [|discriminate].
    injection Gs' as <-. cbn [currentRoom userName].
    destruct (eq_dec rm rm') as [<-|N].
    + rewrite map_get_set_eq in G. injection G as <-.
      cbn [with_participants participants] in Gu. rewrite map_get_set_eq in Gu.
      injection Gu as <-. split; reflexivity.
    + rewrite map_get_set_neq in G by assumption.
      exfalso. apply (Clr rm'). rewrite members_get, G. cbn [opt_members].
      eapply map_get_In_keys; eauto.
  - rewrite join_new_socket_neq in Gs' by assumption.
    destruct (eq_dec rm rm') as [<-|N].
    + rewrite map_get_set_eq in G. injection G as <-.
      cbn [with_participants participants] in Gu.
      rewrite map_get_set_neq in Gu by assumption.
      destruct (room_or_new_cases now (rooms st1) rm) as [(r1 & G1 & E)|(_ & E)];
        rewrite E in Gu.
      * eapply Nt1; eauto.
      * discriminate.
    + rewrite map_get_set_neq in G by assumption. eapply Nt1; eauto.
Qed.

Lemma noted_talking b st sid s rm :
  noted_on_socket st -> noted_on_socket (fst (set_talking b st sid s rm)).
Proof.
  intros Nt. unfold set_talking.
  destruct (map_get (rooms st) rm) as [r|] eqn:G; [|exact Nt].
  destruct (map_get (participants r) sid) as [user|] eqn:Gu; [|exact Nt].
  cbn [fst]. intros q s' rm' r' u. cbn [with_rooms rooms sockets].
  destruct (eq_dec rm rm') as [<-|N].
  - rewrite map_get_set_eq. intros Gs [= <-]. cbn [with_participants participants].
    destruct (string_dec sid q) as [<-|Nq].
    + rewrite map_get_set_eq. intros [= <-]. cbn [name]. eapply Nt; eauto.
    + rewrite map_get_set_neq by assumption. intros Gq. eapply Nt; eauto.
  - rewrite map_get_set_neq by assumption. apply Nt.
Qed.

Lemma noted_close st sid :
  noted_on_socket st ->
  noted_on_socket (with_sockets st (map_delete (sockets st) sid)).
Proof.
  intros Nt q s' rm' r' u Gs. cbn [with_sockets sockets rooms] in *.
  apply map_get_delete_Some in Gs as [_ Gs]. now apply Nt.
Qed.

Lemma noted_connection st sid :
  ids_issued st -> noted_on_socket st -> noted_on_socket (on_connection st sid).
Proof.
  intros (_ & I2) Nt. unfold on_connection.
  destruct (in_dec string_dec sid (issued st)) as [I|I]; [exact Nt|].
  intros q s' rm' r' u. cbn [rooms sockets].
  destruct (string_dec sid q) as [<-|Nq].
  - intros _ G Gu. exfalso. apply I. eapply I2; eauto. eapply map_get_In_keys; eauto.
  - rewrite map_get_set_neq by assumption. apply Nt.
Qed.

Lemma step_noted now st e st' out :
  apart_event is_id e = true ->
  step now st e = Returned st' out ->
  wf st -> well_kept st -> tidy is_id st ->
  noted_on_socket st -> noted_on_socket st'.
Proof.
  intros A Hstep W K T Nt.
  destruct e as [sid|sid p|sid p|sid p|sid p|sid p|sid p|sid p|sid|];
    cbn [step apart_event] in *;
    try (unfold on_socket in Hstep;
         destruct (map_get (sockets st) sid) as [s|] eqn:Gs;
         [|injection Hstep as <- _; exact Nt]).
  - injection Hstep as <- _. apply noted_connection; [apply W | exact Nt].
  - unfold on_join_room in Hstep. destruct (destructure p) as [f|]; [|discriminate].
    injection Hstep as <- _. apply noted_join; auto. apply W.
  - unfold on_start_talking in Hstep. destruct (destructure p) as [f|]; [|discriminate].
    injection Hstep as <- _. now apply noted_talking.
  - unfold on_stop_talking in Hstep. destruct (destructure p) as [f|]; [|discriminate].
    injection Hstep as <- _. now apply noted_talking.
  - unfold on_offer in Hstep. destruct (destructure p) as [f|]; [|discriminate].
    injection Hstep as <- _. exact Nt.
  - unfold on_answer in Hstep. destruct (destructure p) as [f|]; [|discriminate].
    injection Hstep as <- _. exact Nt.
  - unfold on_ice_candidate in Hstep. destruct (destructure p) as [f|]; [|discriminate].
    injection Hstep as <- _. exact Nt.
  - unfold on_leave_room in Hstep. destruct (destructure p) as [f|]; [|discriminate].
    injection Hstep as <- _.
    eapply noted_leave; eauto using handleUserLeave_rooms, handleUserLeave_sockets.
  - unfold on_disconnect in Hstep. destruct (truthy (currentRoom s)).
    + injection Hstep as <- _.
      eapply noted_leave; eauto using handleUserLeave_rooms, handleUserLeave_sockets.
      now apply noted_close.
    + injection Hstep as <- _. now apply noted_close.
  - injection Hstep as <- _. rewrite sweep_nothing; [exact Nt | apply W | apply K].
Qed.

Lemma run_noted tr : forall st st',
  apart is_id tr = true -> wf st -> well_kept st -> tidy is_id st ->
  noted_on_socket st -> run st tr = Some st' -> noted_on_socket st'.
Proof.
  induction tr as [|[now e] tr IH]; intros st st' A W K T Nt R; cbn [run] in R.
  - now injection R as <-.
  - cbn [apart forallb snd] in A. apply andb_true_iff in A as [Ae A].
    destruct (step now st e) as [st1 out|] eqn:Hstep; [|discriminate].
    apply (IH st1 st' A); [| | | |exact R].
    + eapply step_wf; eauto.
    + eapply step_well_kept; eauto.
    + eapply step_tidy; eauto.
    + eapply step_noted; eauto.
Qed.

Lemma reachable_noted tr st :
  apart is_id tr = true -> run init_state tr = Some st -> noted_on_socket st.
Proof.
  intros A R. eapply run_noted; eauto using init_wf, init_well_kept, init_tidy.
  intros q s rm r u G. discriminate.
Qed.
End ApartMore.

(** X14.  In a run that keeps room names and connection ids apart, an offer,
    answer or ice-candidate addressed to a connection id that is not an open
    socket other than the sender -- a closed socket, an id never handed out,
    or the sender's own id -- is dropped without a trace: the one emission
    has no recipient, the state is unchanged, and the sender is told
    nothing. *)
Theorem relay_to_absent_target_is_dropped :
  forall is_id tr st,
    apart is_id tr = true -> run init_state tr = Some st ->
    forall now sid s t p f,
      map_get (sockets st) sid = Some s -> is_id t = true ->
      connected st t = false \/ t = sid ->
      destructure p = Some f -> f "to" = VStr t ->
      step now st (OfferEv sid p)
      = Returned st [mkEmission [] (Offer (f "offer") sid (f "room"))]
      /\ step now st (AnswerEv sid p)
         = Returned st [mkEmission [] (Answer (f "answer") sid (f "room"))]
      /\ step now st (IceCandidateEv sid p)
         = Returned st [mkEmission [] (IceCandidate (f "candidate") sid (f "room"))].
Proof.
  intros is_id tr st Ap R now sid s t p f Gs It Ht D Hto.
  pose proof (reachable_tidy is_id tr st Ap R) as T.
  assert (Hr : socket_to st sid (f "to") = []).
  { rewrite Hto, (tidy_socket_to is_id st sid s (VStr t) T Gs).
    destruct Ht as [C| ->].
    - now rewrite (closed_room_empty is_id st t T It C).
    - rewrite (own_room_members is_id st sid s T Gs). apply filter_single. }
  cbn [step]. unfold on_socket, on_offer, on_answer, on_ice_candidate.
  rewrite Gs, D, Hr. repeat split.
Qed.

Lemma relay_to_absent_target_is_dropped_witness :
  apart short_ids example_trace = true
  /\ run init_state example_trace = Some two_in_R1
  /\ step 5 two_in_R1 (OfferEv "a" (offer_to (VStr "sdp") (VStr "z") (VStr "R1")))
     = Returned two_in_R1 [mkEmission [] (Offer (VStr "sdp") "a" (VStr "R1"))].
Proof.
  split; [reflexivity|]. split; [reflexivity|].
  exact (proj1 (relay_to_absent_target_is_dropped short_ids example_trace two_in_R1
                  eq_refl eq_refl 5%Z "a" _ "z"
                  (offer_to (VStr "sdp") (VStr "z") (VStr "R1"))
                  (get_field [("offer", VStr "sdp"); ("to", VStr "z"); ("room", VStr "R1")])
                  eq_refl eq_refl (or_introl eq_refl) eq_refl eq_refl)).
Defined.

(** X15.  In a run that keeps room names and connection ids apart, the record
    an open socket has in a room of the registry carries the socket's id and
    the name noted on the socket, and that room is the one the socket records
    as current; so the user-talking the socket sends for that room names the
    sender exactly as the participant lists do. *)
Theorem participant_record_matches_socket :
  forall is_id tr st,
    apart is_id tr = true -> run init_state tr = Some st ->
    forall sid s rm u,
      map_get (sockets st) sid = Some s -> record_of st sid rm = Some u ->
      id u = sid /\ name u = userName s /\ currentRoom s = rm
      /\ In rm (socket_rooms s)
      /\ (forall now (b : bool) p f,
             destructure p = Some f -> f "room" = rm ->
             exists st',
               step now st (talking_event b sid p)
               = Returned st' [mkEmission (socket_to st sid rm)
                                          (UserTalking (id u) (name u) b)]).
Proof.
  intros is_id tr st Ap R sid s rm u Gs Hu.
  pose proof (reachable_noted is_id tr st Ap R) as Nt.
  pose proof (reachable_wf tr st R) as (_ & S & _).
  pose proof (reachable_well_kept tr st R) as (_ & _ & RK & _).
  unfold record_of in Hu.
  destruct (map_get (rooms st) rm) as [r|] eqn:G; [|discriminate].
  destruct (Nt sid s rm r u Gs G Hu) as [C Nm].
  assert (Hid : id u = sid) by (eapply RK; eauto; now apply map_get_In).
  split; [exact Hid|]. split; [exact Nm|]. split; [exact C|].
  split; [eapply S; eauto; eapply map_get_In_keys; eauto|].
  intros now b p f D E.
  rewrite (step_talking now st sid s p f b Gs D), E. unfold returned, set_talking.
  rewrite G, Hu. cbn [fst snd]. rewrite Hid, Nm. eauto.
Qed.

Lemma participant_record_matches_socket_witness :
  apart short_ids example_trace = true
  /\ run init_state example_trace = Some two_in_R1
  /\ name (mkParticipant "b" (VStr "Bob") false 4)
     = userName (mkSocket [VStr "b"; VStr "R1"] (VStr "Bob") (VStr "R1")).
Proof.
  split; [reflexivity|]. split; [reflexivity|].
  exact (proj1 (proj2 (participant_record_matches_socket short_ids example_trace
           two_in_R1 eq_refl eq_refl "b"
           (mkSocket [VStr "b"; VStr "R1"] (VStr "Bob") (VStr "R1")) (VStr "R1")
           (mkParticipant "b" (VStr "Bob") false 4) eq_refl eq_refl))).
Defined.

(** X16.  In a run that keeps room names and connection ids apart, when an open
    socket that is a participant of a room with a truthy name disconnects,
    the handler returns with the socket closed and a participant of no room
    at all; the room keeps exactly its other participants in order, every
    other room is untouched, and if anyone remains one user-left with the
    remaining records goes to every other participant whose socket is open,
    while if nobody remains the room is deleted and nothing is emitted. *)
Theorem disconnect_leaves_every_room :
  forall is_id tr st,
    apart is_id tr = true -> run init_state tr = Some st ->
    forall now sid s rm r,
      map_get (sockets st) sid = Some s ->
      map_get (rooms st) rm = Some r -> map_has (participants r) sid = true ->
      truthy rm = true ->
      exists st',
        step now st (Disconnect sid)
        = Returned st'
            (if Nat.eqb (map_size (map_delete (participants r) sid)) 0 then []
             else [mkEmission
                     (socket_to (with_sockets st (map_delete (sockets st) sid)) sid rm)
                     (UserLeft (map_values (map_delete (participants r) sid)))])
        /\ connected st' sid = false
        /\ (forall rm', is_participant st' sid rm' = false)
        /\ members st' rm = filter (string_neqb sid) (members st rm)
        /\ (forall rm', rm' <> rm -> map_get (rooms st') rm' = map_get (rooms st) rm')
        /\ (forall q, In q (members st rm) -> q <> sid -> connected st q = true ->
                      In q (socket_to (with_sockets st (map_delete (sockets st) sid))
                                      sid rm)).
Proof.
  intros is_id tr st Ap R now sid s rm r Gs G P T.
  pose proof (reachable_noted is_id tr st Ap R) as Nt.
  pose proof (reachable_tidy is_id tr st Ap R) as Td.
  pose proof Td as (_ & TS & _ & T1).
  pose proof (reachable_wf tr st R) as (_ & S & _).
  assert (Hu : exists u, map_get (participants r) sid = Some u).
  { unfold map_has in P. destruct (map_get (participants r) sid); [eauto | discriminate]. }
  destruct Hu as [u Gu].
  destruct (Nt sid s rm r u Gs G Gu) as [C _].
  rewrite (step_disconnect now st sid s Gs) by now rewrite C.
  rewrite C. unfold returned.
  set (st0 := with_sockets st (map_delete (sockets st) sid)).
  exists (fst (handleUserLeave st0 sid rm)).
  split.
  { f_equal. unfold handleUserLeave. cbn [st0 with_sockets rooms]. rewrite G. cbv zeta.
    destruct (Nat.eqb _ 0); reflexivity. }
  split.
  { unfold connected. rewrite handleUserLeave_sockets. unfold socket_leave.
    fold (connected (update_socket st0 sid
      (fun s0 => mkSocket (set_delete (socket_rooms s0) rm) (userName s0) (currentRoom s0)))
      sid).
    rewrite connected_update_socket. unfold connected, map_has.
    cbn [st0 with_sockets sockets]. now rewrite map_get_delete_eq. }
  assert (Hother : forall rm', rm' <> rm ->
            map_get (rooms (fst (handleUserLeave st0 sid rm))) rm'
            = map_get (rooms st) rm').
  { intros rm' N. rewrite handleUserLeave_rooms, rooms_leave_get.
    destruct (eq_dec rm rm'); [congruence | reflexivity]. }
  split.
  { intros rm'. destruct (eq_dec rm' rm) as [->|N].
    - apply handleUserLeave_not_participant.
    - destruct (is_participant _ sid rm') eqn:P'; [|reflexivity].
      exfalso. apply N. apply (T1 sid).
      + unfold is_participant in *. now rewrite Hother in P'.
      + unfold is_participant. now rewrite G. }
  split.
  { rewrite members_get, handleUserLeave_rooms, members_after_leave.
    destruct (eq_dec rm rm); [reflexivity | congruence]. }
  split; [exact Hother|].
  intros q Hq N Cq. apply connected_get in Cq as [sq Gq].
  apply socket_to_intro; [|assumption|].
  { intros q' Hq'. destruct (TS sid s Gs) as (It & _).
    rewrite (closed_room_empty is_id st0 sid (tidy_close is_id st sid Td) It
               (closed_not_connected st sid)) in Hq'.
    destruct Hq'. }
  apply room_members_intro with (s := sq).
  - cbn [st0 with_sockets sockets]. rewrite map_get_delete_neq; auto.
  - rewrite members_get, G in Hq. eapply S; eauto.
Qed.

Lemma disconnect_leaves_every_room_witness :
  apart short_ids example_trace = true
  /\ run init_state example_trace = Some two_in_R1
  /\ exists st',
       step 5 two_in_R1 (Disconnect "a")
       = Returned st'
           [mkEmission ["b"] (UserLeft [mkParticipant "b" (VStr "Bob") false 4])]
       /\ members st' (VStr "R1") = ["b"].
Proof.
  split; [reflexivity|]. split; [reflexivity|].
  destruct (disconnect_leaves_every_room short_ids example_trace two_in_R1
              eq_refl eq_refl 5%Z "a"
              (mkSocket [VStr "a"; VStr "R1"] (VStr "Alice") (VStr "R1"))
              (VStr "R1")
              (mkRoom (VStr "R1")
                 [("a", mkParticipant "a" (VStr "Alice") false 3);
                  ("b", mkParticipant "b" (VStr "Bob") false 4)] 3)
              eq_refl eq_refl eq_refl eq_refl)
    as (st' & H1 & _ & _ & H4 & _).
  exists st'. split; [exact H1 | exact H4].
Defined.

(** ** What an event does to the other connections *)

Lemma room_without_record sid o q :
  q <> sid ->
  match room_without sid o with
  | Some r => map_get (participants r) q
  | None => None
  end
  = match o with
    | Some r => map_get (participants r) q
    | None => None
    end.
Proof.
  intros N. unfold room_without. destruct o as [r|]; [|reflexivity].
  cbv zeta. destruct (Nat.eqb _ 0) eqn:E.
  - apply map_delete_size_0 in E.
    rewrite <- (map_get_delete_neq (participants r) sid q) by congruence.
    now rewrite E.
  - cbn [with_participants participants]. apply map_get_delete_neq. congruence.
Qed.

Lemma filter_filter {A} (P : A -> bool) (l : list A) :
  filter P (filter P l) = filter P l.
Proof.
  induction l as [|x l IH]; [reflexivity|]. cbn [filter].
  destruct (P x) eqn:E; cbn [filter]; [rewrite E; f_equal|]; exact IH.
Qed.

Lemma filter_app_single sid (l : list string) :
  filter (string_neqb sid) (l ++ [sid]) = filter (string_neqb sid) l.
Proof. now rewrite filter_app, filter_single, app_nil_r. Qed.

Lemma handleUserLeave_others st sid rm q rm' :
  q <> sid ->
  record_of (fst (handleUserLeave st sid rm)) q rm' = record_of st q rm'
  /\ map_get (sockets (fst (handleUserLeave st sid rm))) q = map_get (sockets st) q.
Proof.
  intros N. split.
  - unfold record_of. rewrite handleUserLeave_rooms, rooms_leave_get.
    destruct (eq_dec rm rm'); [now apply room_without_record | reflexivity].
  - rewrite handleUserLeave_sockets. unfold socket_leave.
    apply sockets_update_socket_neq. congruence.
Qed.

Lemma handleUserLeave_order st sid rm rm' :
  filter (string_neqb sid) (members (fst (handleUserLeave st sid rm)) rm')
  = filter (string_neqb sid) (members st rm').
Proof.
  rewrite !members_get, handleUserLeave_rooms, members_after_leave.
  destruct (eq_dec rm rm'); [apply filter_filter | reflexivity].
Qed.

Lemma join_room_others now st sid s rm uname q rm' :
  q <> sid ->
  record_of (fst (join_room now st sid s rm uname)) q rm' = record_of st q rm'
  /\ map_get (sockets (fst (join_room now st sid s rm uname))) q = map_get (sockets st) q.
Proof.
  intros N. rewrite join_room_eq. cbn [fst].
  set (st1 := fst (fold_left (leave_existing sid) (socket_rooms s) (st, []))).
  assert (H1 : record_of st1 q rm' = record_of st q rm').
  { unfold record_of, st1. rewrite leave_phase_get. cbn [fst].
    destruct (left_by_join sid (socket_rooms s) rm');
      [now apply room_without_record | reflexivity]. }
  split.
  - rewrite <- H1. unfold record_of. rewrite join_new_rooms.
    destruct (eq_dec rm rm') as [<-|Nr].
    + rewrite map_get_set_eq. cbn [with_participants participants].
      rewrite map_get_set_neq by congruence.
      unfold room_or_new. now destruct (map_get (rooms st1) rm).
    + now rewrite map_get_set_neq.
  - rewrite join_new_socket_neq by congruence.
    apply leave_phase_socket_neq. congruence.
Qed.

Lemma join_room_order now st sid s rm uname rm' :
  filter (string_neqb sid) (members (fst (join_room now st sid s rm uname)) rm')
  = filter (string_neqb sid) (members st rm').
Proof.
  rewrite join_room_eq. cbn [fst].
  set (st1 := fst (fold_left (leave_existing sid) (socket_rooms s) (st, []))).
  assert (H2 : filter (string_neqb sid) (members st1 rm')
               = filter (string_neqb sid) (members st rm')).
  { unfold st1. rewrite leave_phase_members. cbn [fst].
    destruct (left_by_join sid (socket_rooms s) rm'); [apply filter_filter | reflexivity]. }
  rewrite <- H2. rewrite !members_get, join_new_rooms.
  destruct (eq_dec rm rm') as [<-|Nr].
  - rewrite map_get_set_eq. cbn [opt_members with_participants participants].
    rewrite <- room_or_new_members with (now := now).
    destruct (in_dec string_dec sid (map_keys (participants (room_or_new now (rooms st1) rm))))
      as [I|I].
    + now rewrite map_keys_set_present.
    + rewrite map_keys_set_absent by assumption. apply filter_app_single.
  - now rewrite map_get_set_neq.
Qed.

Lemma set_talking_others b st sid s rm q rm' :
  q <> sid ->
  record_of (fst (set_talking b st sid s rm)) q rm' = record_of st q rm'.
Proof.
  intros N. unfold set_talking, record_of.
  destruct (map_get (rooms st) rm) as [r|] eqn:G; [|reflexivity].
  destruct (map_get (participants r) sid) as [user|] eqn:Gu; [|reflexivity].
  cbn [fst with_rooms rooms].
  destruct (eq_dec rm rm') as [<-|Nr].
  - rewrite map_get_set_eq, G. cbn [with_participants participants].
    apply map_get_set_neq. congruence.
  - now rewrite map_get_set_neq.
Qed.

(** X17.  After any run, an event leaves the other connections alone.  For
    every connection other than the one the event comes from, and every room:
    its participant record there -- presence, name, talking flag, join time
    -- is what it was, its socket -- socket.io rooms, noted name and room --
    is what it was, and the order of the other participants of the room is
    what it was.  A tick of the sweep timer changes nothing for anybody. *)
Theorem events_leave_others_alone :
  forall tr st, run init_state tr = Some st ->
  forall now e st' out,
    step now st e = Returned st' out ->
    (forall q rm, sender e <> Some q ->
        record_of st' q rm = record_of st q rm
        /\ map_get (sockets st') q = map_get (sockets st) q)
    /\ (forall sid rm, sender e = Some sid ->
        filter (string_neqb sid) (members st' rm)
        = filter (string_neqb sid) (members st rm))
    /\ (sender e = None -> st' = st).
Proof.
  intros tr st R now e st' out Hstep.
  pose proof (reachable_wf tr st R) as W.
  pose proof (reachable_well_kept tr st R) as K.
  destruct e as [sid|sid p|sid p|sid p|sid p|sid p|sid p|sid p|sid|];
    cbn [step sender] in *;
    try (unfold on_socket in Hstep;
         destruct (map_get (sockets st) sid) as [s|] eqn:Gs;
         [|injection Hstep as <- _;
           split; [intros; split; reflexivity|split; [reflexivity | discriminate]]]).
  - injection Hstep as <- _. unfold on_connection.
    destruct (in_dec string_dec sid (issued st));
      (split; [|split; [reflexivity | discriminate]]).
    + intros; split; reflexivity.
    + intros q rm N. split; [reflexivity|]. cbn [sockets].
      apply map_get_set_neq. congruence.
  - unfold on_join_room in Hstep. destruct (destructure p) as [f|]; [|discriminate].
    injection Hstep as <- _. split; [|split; [|discriminate]].
    + intros q rm N. apply join_room_others. congruence.
    + intros sid' rm [= <-]. apply join_room_order.
  - unfold on_start_talking in Hstep. destruct (destructure p) as [f|]; [|discriminate].
    injection Hstep as <- _. split; [|split; [|discriminate]].
    + intros q rm N. split; [apply set_talking_others; congruence|].
      now rewrite set_talking_sockets.
    + intros sid' rm _. now rewrite set_talking_members.
  - unfold on_stop_talking in Hstep. destruct (destructure p) as [f|]; [|discriminate].
    injection Hstep as <- _. split; [|split; [|discriminate]].
    + intros q rm N. split; [apply set_talking_others; congruence|].
      now rewrite set_talking_sockets.
    + intros sid' rm _. now rewrite set_talking_members.
  - unfold on_offer in Hstep. destruct (destructure p) as [f|]; [|discriminate].
    injection Hstep as <- _.
    split; [intros; split; reflexivity|split; [reflexivity | discriminate]].
  - unfold on_answer in Hstep. destruct (destructure p) as [f|]; [|discriminate].
    injection Hstep as <- _.
    split; [intros; split; reflexivity|split; [reflexivity | discriminate]].
  - unfold on_ice_candidate in Hstep. destruct (destructure p) as [f|]; [|discriminate].
    injection Hstep as <- _.
    split; [intros; split; reflexivity|split; [reflexivity | discriminate]].
  - unfold on_leave_room in Hstep. destruct (destructure p) as [f|]; [|discriminate].
    injection Hstep as <- _. split; [|split; [|discriminate]].
    + intros q rm N. apply handleUserLeave_others. congruence.
    + intros sid' rm [= <-]. apply handleUserLeave_order.
  - unfold on_disconnect in Hstep.
    set (st0 := with_sockets st (map_delete (sockets st) sid)) in *.
    assert (H0 : forall q, q <> sid -> map_get (sockets st0) q = map_get (sockets st) q).
    { intros q N. cbn [st0 with_sockets sockets]. apply map_get_delete_neq. congruence. }
    destruct (truthy (currentRoom s)).
    + injection Hstep as <- _. split; [|split; [|discriminate]].
      * intros q rm N. assert (Nq : q <> sid) by congruence.
        destruct (handleUserLeave_others st0 sid (currentRoom s) q rm Nq) as (A & B).
        split; [exact A|]. now rewrite B, H0.
      * intros sid' rm [= <-]. apply (handleUserLeave_order st0).
    + injection Hstep as <- _. split; [|split; [reflexivity | discriminate]].
      intros q rm N. split; [reflexivity|]. apply H0. congruence.
  - injection Hstep as <- _. rewrite sweep_nothing by (apply W || apply K).
    split; [intros; split; reflexivity|split; [reflexivity | reflexivity]].
Qed.

Lemma events_leave_others_alone_witness :
  run init_state example_trace = Some two_in_R1
  /\ step 5 two_in_R1 (LeaveRoom "a" (room_only (VStr "R1")))
     = Returned a_left_R1
         [mkEmission ["b"] (UserLeft [mkParticipant "b" (VStr "Bob") false 4])]
  /\ record_of a_left_R1 "b" (VStr "R1") = record_of two_in_R1 "b" (VStr "R1").
Proof.
  split; [reflexivity|]. split; [reflexivity|].
  exact (proj1 (proj1 (events_leave_others_alone example_trace two_in_R1 eq_refl
                         5%Z (LeaveRoom "a" (room_only (VStr "R1"))) a_left_R1 _ eq_refl)
                      "b" (VStr "R1") ltac:(discriminate))).
Defined.

(** ** The life of a room record *)

Lemma room_without_fields sid o r' :
  room_without sid o = Some r' ->
  exists r, o = Some r /\ createdAt r' = createdAt r /\ room_name r' = room_name r.
Proof.
  intros G. apply room_without_Some in G as (r & -> & -> & _). eauto.
Qed.

Lemma rooms_leave_fields rs sid rm0 rm r' :
  map_get (rooms_leave rs sid rm0) rm = Some r' ->
  exists r, map_get rs rm = Some r
            /\ createdAt r' = createdAt r /\ room_name r' = room_name r.
Proof.
  rewrite rooms_leave_get. destruct (eq_dec rm0 rm); [apply room_without_fields | eauto].
Qed.

Lemma leave_phase_fields sid l acc rm r' :
  map_get (rooms (fst (fold_left (leave_existing sid) l acc))) rm = Some r' ->
  exists r, map_get (rooms (fst acc)) rm = Some r
            /\ createdAt r' = createdAt r /\ room_name r' = room_name r.
Proof.
  rewrite leave_phase_get.
  destruct (left_by_join sid l rm); [apply room_without_fields | eauto].
Qed.

Lemma set_talking_fields b st sid s rm0 rm r' :
  map_get (rooms (fst (set_talking b st sid s rm0))) rm = Some r' ->
  exists r, map_get (rooms st) rm = Some r
            /\ createdAt r' = createdAt r /\ room_name r' = room_name r.
Proof.
  unfold set_talking.
  destruct (map_get (rooms st) rm0) as [r0|] eqn:G; [|eauto].
  destruct (map_get (participants r0) sid) as [user|]; [|eauto].
  cbn [fst with_rooms rooms]. destruct (eq_dec rm0 rm) as [<-|N].
  - rewrite map_get_set_eq. intros [= <-]. eauto.
  - rewrite map_get_set_neq by assumption. eauto.
Qed.

Lemma emptied_by sid (ps : jsmap string participant) :
  NoDup (map_keys ps) -> ps <> [] -> map_delete ps sid = [] -> map_keys ps = [sid].
Proof.
  intros ND Hne E. apply (only_member_iff ps sid ND); [|exact E].
  intros G. rewrite (map_delete_absent _ _ G) in E. contradiction.
Qed.

(** X18.  After any run, a room record keeps its name and its creation time
    for as long as the room stays in the registry, whatever the events, with
    one exception: when the only participant of a room joins that same room
    again, the room is deleted and created anew within the join, so its
    creation time becomes the time of that join.  And a room that was not in
    the registry appears only through a join-room naming it, created at the
    time of that join. *)
Theorem room_record_is_stable :
  forall tr st, run init_state tr = Some st ->
  forall now e st' out,
    step now st e = Returned st' out ->
    forall rm r',
      map_get (rooms st') rm = Some r' ->
      room_name r' = rm
      /\ (forall r, map_get (rooms st) rm = Some r ->
            createdAt r' = createdAt r
            \/ (createdAt r' = now
                /\ exists sid p f,
                     e = JoinRoom sid p /\ destructure p = Some f
                     /\ f "room" = rm /\ members st rm = [sid]))
      /\ (map_get (rooms st) rm = None ->
            createdAt r' = now
            /\ exists sid p f,
                 e = JoinRoom sid p /\ destructure p = Some f /\ f "room" = rm).
Proof.
  intros tr st R now e st' out Hstep rm r' G'.
  pose proof (reachable_wf tr st R) as W.
  pose proof (reachable_well_kept tr st R) as K.
  pose proof (step_well_kept now st e st' out Hstep W K) as (_ & _ & _ & RN').
  split; [now apply RN'|].
  assert (Same : forall st1,
            (forall r1, map_get (rooms st1) rm = Some r1 ->
               exists r, map_get (rooms st) rm = Some r
                         /\ createdAt r1 = createdAt r /\ room_name r1 = room_name r) ->
            map_get (rooms st1) rm = Some r' ->
            (forall r, map_get (rooms st) rm = Some r -> createdAt r' = createdAt r)
            /\ map_get (rooms st) rm <> None).
  { intros st1 H1 G1. destruct (H1 r' G1) as (r0 & G0 & C & _).
    split; [intros r Gr; congruence | congruence]. }
  assert (Done : forall st1,
            (forall r1, map_get (rooms st1) rm = Some r1 ->
               exists r, map_get (rooms st) rm = Some r
                         /\ createdAt r1 = createdAt r /\ room_name r1 = room_name r) ->
            map_get (rooms st1) rm = Some r' ->
            (forall r, map_get (rooms st) rm = Some r ->
               createdAt r' = createdAt r
               \/ (createdAt r' = now
                   /\ exists sid p f,
                        e = JoinRoom sid p /\ destructure p = Some f
                        /\ f "room" = rm /\ members st rm = [sid]))
            /\ (map_get (rooms st) rm = None ->
                  createdAt r' = now
                  /\ exists sid p f,
                       e = JoinRoom sid p /\ destructure p = Some f /\ f "room" = rm)).
  { intros st1 H1 G1. destruct (Same st1 H1 G1) as [A B].
    split; [intros r Gr; left; auto | intros; contradiction]. }
  destruct e as [sid|sid p|sid p|sid p|sid p|sid p|sid p|sid p|sid|];
    cbn [step] in Hstep;
    try (lazymatch type of Hstep with context [on_socket] => idtac end;
         unfold on_socket in Hstep;
         destruct (map_get (sockets st) sid) as [s|] eqn:Gs;
         [|injection Hstep as <- _; solve [apply (Done st); eauto]]).
  - injection Hstep as <- _. apply (Done (on_connection st sid)); [|exact G'].
    unfold on_connection. destruct (in_dec string_dec sid (issued st)); cbn [rooms]; eauto.
  - unfold on_join_room in Hstep. destruct (destructure p) as [f|] eqn:D; [|discriminate].
    injection Hstep as <- _.
    rewrite join_room_eq in G'. cbn [fst] in G'. rewrite join_new_rooms in G'.
    set (st1 := fst (fold_left (leave_existing sid) (socket_rooms s) (st, []))) in *.
    destruct (eq_dec (f "room") rm) as [E|N].
    + rewrite E, map_get_set_eq in G'. injection G' as <-.
      cbn [with_participants createdAt].
      destruct (room_or_new_cases now (rooms st1) rm) as [(r1 & G1 & ->)|(G1 & ->)].
      * destruct (leave_phase_fields sid (socket_rooms s) (st, []) rm r1 G1)
          as (r0 & G0 & C & _). cbn [fst] in G0.
        split; [intros r Gr; left; congruence | intros; congruence].
      * cbn [createdAt]. split.
        -- intros r Gr. right. split; [reflexivity|].
           exists sid, p, f. repeat split; auto.
           unfold st1 in G1. rewrite leave_phase_get in G1. cbn [fst] in G1.
           destruct (left_by_join sid (socket_rooms s) rm); [|congruence].
           rewrite Gr in G1. unfold room_without in G1. cbv zeta in G1.
           destruct (Nat.eqb _ 0) eqn:Ez; [|discriminate].
           apply map_delete_size_0 in Ez. rewrite members_get, Gr. cbn [opt_members].
           apply emptied_by; [|apply (proj1 W rm r Gr)|exact Ez].
           destruct K as ((_ & _ & NDp) & _). eapply NDp; eauto.
        -- intros _. split; [reflexivity|]. exists sid, p, f. auto.
    + rewrite map_get_set_neq in G' by assumption.
      apply (Done st1); [|exact G'].
      intros r1 G1. apply (leave_phase_fields sid (socket_rooms s) (st, []) rm r1 G1).
  - unfold on_start_talking in Hstep. destruct (destructure p) as [f|]; [|discriminate].
    injection Hstep as <- _. eapply Done; [|exact G']. apply set_talking_fields.
  - unfold on_stop_talking in Hstep. destruct (destructure p) as [f|]; [|discriminate].
    injection Hstep as <- _. eapply Done; [|exact G']. apply set_talking_fields.
  - unfold on_offer in Hstep. destruct (destructure p) as [f|]; [|discriminate].
    injection Hstep as <- _. apply (Done st); eauto.
  - unfold on_answer in Hstep. destruct (destructure p) as [f|]; [|discriminate].
    injection Hstep as <- _. apply (Done st); eauto.
  - unfold on_ice_candidate in Hstep. destruct (destructure p) as [f|]; [|discriminate].
    injection Hstep as <- _. apply (Done st); eauto.
  - unfold on_leave_room in Hstep. destruct (destructure p) as [f|]; [|discriminate].
    injection Hstep as <- _. eapply Done; [|exact G'].
    intros r1. rewrite handleUserLeave_rooms. apply rooms_leave_fields.
  - unfold on_disconnect in Hstep. destruct (truthy (currentRoom s)).
    + injection Hstep as <- _. eapply Done; [|exact G'].
      intros r1. rewrite handleUserLeave_rooms. apply rooms_leave_fields.
    + injection Hstep as <- _. apply (Done st); eauto.
  - injection Hstep as <- _. rewrite sweep_nothing in G' by (apply W || apply K).
    apply (Done st); eauto.
Qed.

Lemma room_record_is_stable_witness :
  run init_state example_trace = Some two_in_R1
  /\ step 5 two_in_R1 (LeaveRoom "a" (room_only (VStr "R1")))
     = Returned a_left_R1
         [mkEmission ["b"] (UserLeft [mkParticipant "b" (VStr "Bob") false 4])]
  /\ room_name (mkRoom (VStr "R1") [("b", mkParticipant "b" (VStr "Bob") false 4)] 3)
     = VStr "R1".
Proof.
  split; [reflexivity|]. split; [reflexivity|].
  exact (proj1 (room_record_is_stable example_trace two_in_R1 eq_refl
                  5%Z (LeaveRoom "a" (room_only (VStr "R1"))) a_left_R1 _ eq_refl
                  (VStr "R1")
                  (mkRoom (VStr "R1") [("b", mkParticipant "b" (VStr "Bob") false 4)] 3)
                  eq_refl)).
Defined.

(** ** Joining and leaving again *)

Lemma map_delete_set_absent {K V} `{EqDec K} (m : jsmap K V) k v :
  map_get m k = None -> map_delete (map_set m k v) k = m.
Proof.
  induction m as [|[k0 v0] m IH]; cbn [map_get map_set map_delete].
  - intros _. destruct (eq_dec k k); [reflexivity | congruence].
  - destruct (eq_dec k0 k) as [E|E]; [discriminate|]. intros G.
    cbn [map_delete]. destruct (eq_dec k0 k); [contradiction|]. now rewrite IH.
Qed.

Lemma leave_phase_stranger sid l : forall acc,
  rooms_nonempty (fst acc) ->
  (forall rm, is_participant (fst acc) sid rm = false) ->
  rooms (fst (fold_left (leave_existing sid) l acc)) = rooms (fst acc).
Proof.
  induction l as [|rn l IH]; intros acc N P; cbn [fold_left]; [reflexivity|].
  assert (E : rooms (fst (leave_existing sid acc rn)) = rooms (fst acc)).
  { destruct acc as [st out]. rewrite leave_existing_rooms. cbn [fst] in *.
    destruct (eq_dec rn (VStr sid)); [reflexivity|]. now apply rooms_leave_stranger. }
  rewrite IH.
  - exact E.
  - unfold rooms_nonempty. rewrite E. exact N.
  - intros rm. unfold is_participant. rewrite E. apply P.
Qed.

Lemma join_then_leave_rooms now (rs : jsmap value room) sid rm uname :
  (forall r, map_get rs rm = Some r ->
             participants r <> [] /\ map_get (participants r) sid = None) ->
  rooms_leave
    (map_set rs rm
       (with_participants (room_or_new now rs rm)
          (map_set (participants (room_or_new now rs rm)) sid
             (mkParticipant sid uname false now))))
    sid rm
  = rs.
Proof.
  intros H. unfold rooms_leave. rewrite map_get_set_eq.
  cbn [with_participants participants].
  destruct (room_or_new_cases now rs rm) as [(r & G & ->)|(G & ->)].
  - destruct (H r G) as [Hne Gs]. rewrite (map_delete_set_absent _ _ _ Gs).
    apply map_delete_size_pos in Hne. rewrite Hne.
    rewrite map_set_set.
    replace (with_participants (with_participants r _) (participants r)) with r
      by now destruct r.
    now apply map_set_same.
  - cbn [participants map_set map_delete].
    destruct (eq_dec sid sid); [|congruence]. cbn [map_size List.length Nat.eqb].
    now apply map_delete_set_absent.
Qed.

(** X19.  After any run, if an open socket that is a participant of no
    room joins a room and then sends leave-room for it, both handlers return
    and the registry is back to exactly what it was before the join: a room
    the join created is gone again, and a room that existed has its old
    participants in their old order. *)
Theorem join_then_leave_restores_registry :
  forall tr st, run init_state tr = Some st ->
  forall now now2 sid s p f,
    map_get (sockets st) sid = Some s -> destructure p = Some f ->
    (forall rm, is_participant st sid rm = false) ->
    exists st1 out1 st2 out2,
      step now st (JoinRoom sid p) = Returned st1 out1
      /\ step now2 st1 (LeaveRoom sid p) = Returned st2 out2
      /\ is_participant st1 sid (f "room") = true
      /\ rooms st2 = rooms st.
Proof.
  intros tr st R now now2 sid s p f Gs D P.
  pose proof (reachable_wf tr st R) as (N & _).
  pose proof (step_join now st sid s p f Gs D) as H1. unfold returned in H1.
  set (st1 := fst (join_room now st sid s (f "room") (f "userName"))) in *.
  destruct (join_room_socket now st sid s (f "room") (f "userName") Gs) as (l & Gs1 & _).
  fold st1 in Gs1.
  pose proof (step_leave now2 st1 sid _ p f Gs1 D) as H2. unfold returned in H2.
  eexists. eexists. eexists. eexists.
  split; [exact H1|]. split; [exact H2|].
  split; [apply join_room_joins|].
  rewrite handleUserLeave_rooms. unfold st1. rewrite join_room_eq. cbn [fst].
  rewrite join_new_rooms.
  rewrite (leave_phase_stranger sid (socket_rooms s) (st, []) N P). cbn [fst].
  apply join_then_leave_rooms.
  intros r G. split; [now apply (N (f "room"))|].
  specialize (P (f "room")). unfold is_participant in P. rewrite G in P.
  now apply map_has_false.
Qed.

Lemma join_then_leave_restores_registry_witness :
  run init_state leave_trace = Some a_left_R1
  /\ exists st1 out1 st2 out2,
       step 5 a_left_R1 (JoinRoom "a" (obj (VStr "R1") (VStr "Alice"))) = Returned st1 out1
       /\ step 6 st1 (LeaveRoom "a" (obj (VStr "R1") (VStr "Alice"))) = Returned st2 out2
       /\ rooms st2 = rooms a_left_R1.
Proof.
  split; [reflexivity|].
  destruct (join_then_leave_restores_registry leave_trace a_left_R1 eq_refl 5%Z 6%Z "a"
              (mkSocket [VStr "a"] (VStr "Alice") (VStr "R1"))
              (obj (VStr "R1") (VStr "Alice"))
              (get_field [("room", VStr "R1"); ("userName", VStr "Alice")])
              eq_refl eq_refl)
    as (st1 & out1 & st2 & out2 & H1 & H2 & _ & H4).
  { intros rm. unfold is_participant, a_left_R1. cbn [rooms map_get].
    destruct (eq_dec (VStr "R1") rm); reflexivity. }
  exists st1, out1, st2, out2. repeat split; assumption.
Defined.
